(** * Mortgage payments and CAD/USD conversion: a verification development

    The development embeds the two numeric engines of the repository,
    [mortgage.py] (class [MortgagePayment]) and [exchange_rates.py]
    (class [ExchangeRates]), and the runner that drives them,
    [main.py], and proves properties of them.

    Python [float] values are IEEE-754 binary64 numbers.  They are
    modelled by their exact rational value, together with the two
    infinities and NaN; every arithmetic operation is the exact
    operation followed by one rounding to nearest, ties to even
    ([rnd]).  The sign of zero is not tracked: no operation of the two
    classes can observe it (division by a zero raises, and Python's
    [==] identifies the two zeros). *)

From Stdlib Require Import ZArith QArith Qround Qabs Qpower Qreduction.
From Stdlib Require Import Lia Lqa List String Ascii Bool.
From Stdlib Require Floats.
From Stdlib Require OrderedTypeEx Sorted.
Import ListNotations.

Local Open Scope Q_scope.

(** ** Python exceptions and results *)

Inductive exn : Type :=
| TypeError (msg : string)
| ValueError (msg : string)
| ZeroDivisionError (msg : string)
| OverflowError (msg : string)
| OSError (msg : string).

Inductive res (A : Type) : Type :=
| Ok (a : A)
| Raise (e : exn).

Arguments Ok {A} a.
Arguments Raise {A} e.

Definition bind {A B : Type} (m : res A) (k : A -> res B) : res B :=
  match m with
  | Ok a => k a
  | Raise e => Raise e
  end.

Notation "x <- m ;; k" := (bind m (fun x => k))
  (at level 61, m at next level, right associativity).

(** ** Binary64 floating point *)

Module PyFloat.

Inductive float : Type :=
| Finite (q : Q)
| Inf (neg : bool)
| NaN.

(** The least exponent of the format: the spacing of the subnormals. *)
Definition emin : Z := -1074.

(** [ilog2 q] is the floor of the binary logarithm of [|q|]. *)
Definition ilog2 (q : Q) : Z :=
  let l := (Z.log2 (Z.abs (Qnum q)) - Z.log2 (Zpos (Qden q)))%Z in
  if Qle_bool (2 ^ l) (Qabs q) then l else (l - 1)%Z.

(** Round to the nearest integer, ties to even. *)
Definition rne (q : Q) : Z :=
  let f := Qfloor q in
  match Qcompare (q - inject_Z f) (1 # 2) with
  | Lt => f
  | Gt => (f + 1)%Z
  | Eq => if Z.even f then f else (f + 1)%Z
  end.

(** The exponent of the unit in the last place of [q]: 53 significant
    bits, never below [emin]. *)
Definition cexp (q : Q) : Z := Z.max (ilog2 q - 52) emin.

(** Rounding of a rational to the binary64 grid, exponent unbounded
    above. *)
Definition rnd_q (q : Q) : Q :=
  let e := cexp q in Qred (inject_Z (rne (q / 2 ^ e)) * 2 ^ e).

(** Rounding to a [float]: values that round to [2^1024] or more in
    magnitude overflow to an infinity. *)
Definition rnd (q : Q) : float :=
  let r := rnd_q q in
  if Qle_bool (2 ^ 1024) (Qabs r) then Inf (negb (Qle_bool 0 r)) else Finite r.

Definition is_neg (q : Q) : bool := negb (Qle_bool 0 q).
Definition is_zero (q : Q) : bool := Qeq_bool q 0.

Definition fneg (x : float) : float :=
  match x with
  | Finite q => Finite (Qred (- q))
  | Inf s => Inf (negb s)
  | NaN => NaN
  end.

Definition fadd (x y : float) : float :=
  match x, y with
  | Finite a, Finite b => rnd (a + b)
  | Inf s, Inf t => if Bool.eqb s t then Inf s else NaN
  | Inf s, Finite _ => Inf s
  | Finite _, Inf t => Inf t
  | _, _ => NaN
  end.

Definition fsub (x y : float) : float := fadd x (fneg y).

Definition fmul (x y : float) : float :=
  match x, y with
  | Finite a, Finite b => rnd (a * b)
  | Inf s, Inf t => Inf (xorb s t)
  | Inf s, Finite b => if is_zero b then NaN else Inf (xorb s (is_neg b))
  | Finite a, Inf t => if is_zero a then NaN else Inf (xorb (is_neg a) t)
  | _, _ => NaN
  end.

(** Python's [/] on floats: a zero divisor raises, the rest is IEEE. *)
Definition fdiv (x y : float) : res float :=
  match x, y with
  | NaN, Finite b =>
      if is_zero b then Raise (ZeroDivisionError "float division by zero")
      else Ok NaN
  | Inf s, Finite b =>
      if is_zero b then Raise (ZeroDivisionError "float division by zero")
      else Ok (Inf (xorb s (is_neg b)))
  | Finite a, Finite b =>
      if is_zero b then Raise (ZeroDivisionError "float division by zero")
      else Ok (rnd (a / b))
  | Finite _, Inf _ => Ok (Finite 0)
  | Inf _, Inf _ => Ok NaN
  | _, _ => Ok NaN
  end.

(** Comparisons; every comparison with NaN is false. *)
Definition flt (x y : float) : bool :=
  match x, y with
  | Finite a, Finite b => negb (Qle_bool b a)
  | Finite _, Inf t => negb t
  | Inf s, Finite _ => s
  | Inf s, Inf t => s && negb t
  | _, _ => false
  end.

Definition feqb (x y : float) : bool :=
  match x, y with
  | Finite a, Finite b => Qeq_bool a b
  | Inf s, Inf t => Bool.eqb s t
  | _, _ => false
  end.

(** A source literal or a decimal string denotes the nearest double. *)
Definition lit (q : Q) : float := rnd q.

(** [float(n)] for a Python int. *)
Definition of_int (n : Z) : res float :=
  match rnd (inject_Z n) with
  | Finite q => Ok (Finite q)
  | _ => Raise (OverflowError "int too large to convert to float")
  end.

(** Python's [round(x, 2)] on a float: the exact binary value is rounded
    to two decimals, ties to even, and the decimal result is converted
    back to the nearest double; infinities and NaN round to themselves. *)
Definition round2 (x : float) : float :=
  match x with
  | Finite q => rnd (inject_Z (rne (q * 100)) / 100)
  | _ => x
  end.

(** The exact value of a hardware double, for cross-checking the model
    against the primitive floats of the proof assistant. *)
Definition of_spec (f : SpecFloat.spec_float) : float :=
  match f with
  | SpecFloat.S754_zero _ => Finite 0
  | SpecFloat.S754_infinity s => Inf s
  | SpecFloat.S754_nan => NaN
  | SpecFloat.S754_finite s m e =>
      Finite (Qred ((if s then -1 else 1) * inject_Z (Zpos m) * 2 ^ e))
  end.

Definition of_prim (f : PrimFloat.float) : float := of_spec (FloatOps.Prim2SF f).

End PyFloat.

Import PyFloat.

(** ** Python values passed where a number is expected

    [PyInt] covers [int] (and [bool], its subclass); [PyOther] stands
    for any object that is neither an [int] nor a [float]. *)

Inductive pyval : Type :=
| PyInt (z : Z)
| PyFloat (f : float)
| PyOther.

(** [isinstance(v, (int, float))] *)
Definition is_number (v : pyval) : bool :=
  match v with
  | PyOther => false
  | _ => true
  end.

(** [v < 0] on a number *)
Definition lt_zero (v : pyval) : bool :=
  match v with
  | PyInt z => (z <? 0)%Z
  | PyFloat f => flt f (Finite 0)
  | PyOther => false
  end.

(** [v > k] on a number, for an int constant [k] *)
Definition gt_int (v : pyval) (k : Z) : bool :=
  match v with
  | PyInt z => (k <? z)%Z
  | PyFloat f => flt (Finite (inject_Z k)) f
  | PyOther => false
  end.

(** [float(v)], and the conversion Python applies to an [int] operand
    of a float operation. *)
Definition to_float (v : pyval) : res float :=
  match v with
  | PyInt z => of_int z
  | PyFloat f => Ok f
  | PyOther => Raise (TypeError "float() argument must be a string or a real number")
  end.

(** ** Strings (ASCII text)

    Text is modelled on its ASCII part: a [string] stands for a [str]
    whose characters are all below code point 128, which [isascii]
    tests.  On such text the functions below are the builtins they are
    named after.  Outside ASCII the builtins know more: [str.strip],
    [float] and [int] also take the other Unicode white space for white
    space, [float] and [int] read the other Unicode decimal digits, and
    [str.upper] maps letters beyond [a] to [z].  A statement about what
    is white space or what parses therefore takes the text to be
    ASCII. *)

Module PyStr.

Local Open Scope char_scope.

(** [s.isascii()] *)
Definition isascii (s : string) : bool :=
  forallb (fun c => (nat_of_ascii c <? 128)%nat) (list_ascii_of_string s).

(** [str.isspace] on an ASCII character *)
Definition is_space (c : ascii) : bool :=
  let n := nat_of_ascii c in
  ((9 <=? n) && (n <=? 13) || (28 <=? n) && (n <=? 32))%nat.

Definition is_digit (c : ascii) : bool :=
  let n := nat_of_ascii c in ((48 <=? n) && (n <=? 57))%nat.

(** [str.upper] on an ASCII character *)
Definition upper_char (c : ascii) : ascii :=
  let n := nat_of_ascii c in
  if ((97 <=? n) && (n <=? 122))%nat then ascii_of_nat (n - 32) else c.

Definition lower_char (c : ascii) : ascii :=
  let n := nat_of_ascii c in
  if ((65 <=? n) && (n <=? 90))%nat then ascii_of_nat (n + 32) else c.

Fixpoint lstrip (l : list ascii) : list ascii :=
  match l with
  | c :: l' => if is_space c then lstrip l' else l
  | [] => []
  end.

Definition rstrip (l : list ascii) : list ascii := rev (lstrip (rev l)).

(** [s.strip()] *)
Definition strip (s : string) : string :=
  string_of_list_ascii (rstrip (lstrip (list_ascii_of_string s))).

(** [s.upper()] *)
Definition upper (s : string) : string :=
  string_of_list_ascii (map upper_char (list_ascii_of_string s)).

(** *** [float(s)] on a string

    The grammar of CPython's [float] on ASCII text: white space around, an
    optional sign, then [inf], [infinity] or [nan] in any case, or a
    decimal numeral with an optional fraction and an optional exponent;
    single underscores may separate digits.  The numeral denotes the
    nearest double. *)

(** Underscores must stand between two digits; they are then dropped. *)
Fixpoint drop_underscores (prev : ascii) (l : list ascii) : option (list ascii) :=
  match l with
  | [] => if Ascii.eqb prev "_" then None else Some []
  | c :: l' =>
      if Ascii.eqb c "_" then
        if is_digit prev then drop_underscores c l' else None
      else if Ascii.eqb prev "_" && negb (is_digit c) then None
      else option_map (cons c) (drop_underscores c l')
  end.

Definition digit_val (c : ascii) : Z := Z.of_nat (nat_of_ascii c - 48).

(** Reads a maximal run of digits: the number read so far, how many
    digits were read, and the rest. *)
Fixpoint digits (acc : Z) (cnt : Z) (l : list ascii) : Z * Z * list ascii :=
  match l with
  | c :: l' =>
      if is_digit c then digits (10 * acc + digit_val c)%Z (cnt + 1)%Z l'
      else (acc, cnt, l)
  | [] => (acc, cnt, [])
  end.

Definition sign (l : list ascii) : bool * list ascii :=
  match l with
  | "-" :: l' => (true, l')
  | "+" :: l' => (false, l')
  | _ => (false, l)
  end.

(** The exponent part: [e] or [E], an optional sign, at least one digit,
    up to the end of the text. *)
Definition exponent (l : list ascii) : option Z :=
  match l with
  | [] => Some 0%Z
  | c :: l' =>
      if Ascii.eqb (lower_char c) "e" then
        let '(neg, l'') := sign l' in
        match digits 0 0 l'' with
        | (e, cnt, []) =>
            if (0 <? cnt)%Z then Some (if neg then (- e)%Z else e) else None
        | _ => None
        end
      else None
  end.

Definition signed (neg : bool) (x : float) : float :=
  if neg then fneg x else x.

Definition numeral (l : list ascii) : option Q :=
  let '(ip, icnt, l1) := digits 0 0 l in
  let '(fp, fcnt, l2) :=
    match l1 with
    | "." :: l1' => digits ip 0 l1'
    | _ => (ip, 0%Z, l1)
    end in
  if (0 <? icnt + fcnt)%Z then
    match exponent l2 with
    | Some e => Some (inject_Z fp * 10 ^ (e - fcnt))
    | None => None
    end
  else None.

Definition float_of_string (s : string) : res float :=
  let bad := Raise (ValueError "could not convert string to float") in
  match drop_underscores " " (list_ascii_of_string (strip s)) with
  | None => bad
  | Some l =>
      let '(neg, body) := sign l in
      let word := string_of_list_ascii (map lower_char body) in
      if String.eqb word "inf" || String.eqb word "infinity" then Ok (Inf neg)
      else if String.eqb word "nan" then Ok NaN
      else match numeral body with
           | Some q => Ok (signed neg (rnd q))
           | None => bad
           end
  end.

End PyStr.

Import PyStr.
Local Open Scope string_scope.

(** ** The rate source

    A CSV file is modelled by the records that [csv.reader] yields for
    it, each a list of fields; [files] gives the content found at a path
    at the time of a call ([None] when the file cannot be opened), and
    [opened] logs every [open].  The world is an argument of each call:
    the file may change between two calls. *)

Definition csv_file : Type := list (list string).

Record World : Type := mkWorld {
  files : string -> option csv_file;
  opened : list string
}.

(** *** [csv.DictReader] *)

(** A row as a dict from field name to field, [None] for a field the
    record is too short to have. *)
Definition row_dict : Type := list (string * option string).

Fixpoint dict_set (k : string) (v : option string) (d : row_dict) : row_dict :=
  match d with
  | [] => [(k, v)]
  | (k', v') :: d' =>
      if String.eqb k k' then (k, v) :: d' else (k', v') :: dict_set k v d'
  end.

(** [d.get(k)] *)
Fixpoint dict_get (k : string) (d : row_dict) : option (option string) :=
  match d with
  | [] => None
  | (k', v) :: d' => if String.eqb k k' then Some v else dict_get k d'
  end.

(** [dict(zip(fieldnames, row))], then [restval = None] under every
    field name beyond the length of the record. *)
Fixpoint zip_dict (fieldnames : list string) (row : list string) (d : row_dict)
  : row_dict :=
  match fieldnames, row with
  | k :: ks, v :: vs => zip_dict ks vs (dict_set k (Some v) d)
  | ks, [] => fold_left (fun d k => dict_set k None d) ks d
  | [], _ => d
  end.

(** [reader.fieldnames]: the first record, if there is one. *)
Definition fieldnames (f : csv_file) : option (list string) :=
  match f with
  | [] => None
  | h :: _ => Some h
  end.

Definition is_blank_record (r : list string) : bool :=
  match r with
  | [] => true
  | _ => false
  end.

(** The rows the reader iterates over: the records after the header,
    empty records skipped. *)
Definition dict_rows (f : csv_file) : list row_dict :=
  match f with
  | [] => []
  | h :: rs =>
      map (fun r => zip_dict h r [])
          (filter (fun r => negb (is_blank_record r)) rs)
  end.

(** ** [exchange_rates.py] *)

Record ExchangeRates : Type := mkExchangeRates {
  csv_path : string;
  cached_usd_cad : option float
}.

(** Computations that read the world and mutate the object; a raised
    exception keeps the state reached when it was raised. *)
Definition M (A : Type) : Type :=
  ExchangeRates * World -> res A * (ExchangeRates * World).

Definition ret {A : Type} (a : A) : M A := fun s => (Ok a, s).

Definition raise {A : Type} (e : exn) : M A := fun s => (Raise e, s).

Definition mbind {A B : Type} (m : M A) (k : A -> M B) : M B :=
  fun s =>
    match m s with
    | (Ok a, s') => k a s'
    | (Raise e, s') => (Raise e, s')
    end.

Definition lift {A : Type} (r : res A) : M A := fun s => (r, s).

Notation "x <-- m ;;; k" := (mbind m (fun x => k))
  (at level 61, m at next level, right associativity).

Definition get_self : M ExchangeRates := fun s => (Ok (fst s), s).

Definition set_cached (r : float) : M unit :=
  fun s => (Ok tt, (mkExchangeRates (csv_path (fst s)) (Some r), snd s)).

(** [open(path, "r", encoding="utf-8-sig", ...)] *)
Definition open_csv (path : string) : M csv_file :=
  fun s =>
    let w := mkWorld (files (snd s)) (opened (snd s) ++ [path]) in
    match files (snd s) path with
    | Some f => (Ok f, (fst s, w))
    | None => (Raise (OSError "No such file or directory"), (fst s, w))
    end.

(** [ExchangeRates.__init__] *)
Definition ExchangeRates_init (path : string) : res ExchangeRates :=
  if String.eqb (strip path) EmptyString then
    Raise (ValueError "csv_path must be a non-empty string")
  else Ok (mkExchangeRates path None).

(** The double-quote character, as a string. *)
Definition dquote : string := String (ascii_of_nat 34) EmptyString.

(** One turn of the loop over the rows. *)
Definition scan_row (last_rate : option float) (row : row_dict) : option float :=
  let cell :=
    strip (match dict_get "USD/CAD" row with
           | Some (Some v) => v
           | _ => EmptyString
           end) in
  if String.eqb cell EmptyString then last_rate
  else match float_of_string cell with
       | Ok r => Some r
       | Raise _ => last_rate
       end.

(** [ExchangeRates.__latest_usd_cad] *)
Definition latest_usd_cad : M float :=
  self <-- get_self ;;;
  match cached_usd_cad self with
  | Some r => ret r
  | None =>
      f <-- open_csv (csv_path self) ;;;
      if negb (existsb (String.eqb "USD/CAD")
                 (match fieldnames f with Some h => h | None => [] end))
      then raise (ValueError ("CSV must contain a " ++ dquote ++ "USD/CAD" ++ dquote
                         ++ " column."))
      else
        match fold_left scan_row (dict_rows f) None with
        | None => raise (ValueError "No numeric USD/CAD values found in the CSV.")
        | Some last_rate =>
            _ <-- set_cached last_rate ;;;
            ret last_rate
        end
  end.

(** [(c or EMPTY).upper().strip()], [EMPTY] the empty string *)
Definition normalize (c : option string) : string :=
  strip (upper (match c with Some s => s | None => EmptyString end)).

Definition supported (c : string) : bool :=
  String.eqb c "CAD" || String.eqb c "USD".

(** [round(x + 1e-9, 2)] *)
Definition round_eps (x : float) : float := round2 (fadd x (lit 1e-9)).

(** [ExchangeRates.convert] *)
Definition convert (amount : pyval) (from_currency to_currency : option string)
  : M float :=
  if negb (is_number amount) then raise (TypeError "amount must be a number")
  else if lt_zero amount then raise (ValueError "amount must be non-negative")
  else
    let f := normalize from_currency in
    let t := normalize to_currency in
    if negb (supported f) || negb (supported t) then
      raise (ValueError "from_currency/to_currency must be 'CAD' or 'USD'")
    else if String.eqb f t then
      a <-- lift (to_float amount) ;;;
      ret (round2 a)
    else
      rate <-- latest_usd_cad ;;;
      out <-- (if String.eqb f "USD" && String.eqb t "CAD" then
                 a <-- lift (to_float amount) ;;;
                 ret (fmul a rate)
               else if String.eqb f "CAD" && String.eqb t "USD" then
                 a <-- lift (to_float amount) ;;;
                 lift (fdiv a rate)
               else raise (ValueError "Unsupported currency pair")) ;;;
      ret (round_eps out).

Definition get_csv_path (self : ExchangeRates) : string := csv_path self.

Definition get_cached_usd_cad (self : ExchangeRates) : option float :=
  cached_usd_cad self.

(** ** [mortgage.py] *)

Record MortgagePayment : Type := mkMortgagePayment {
  quoted_rate_pct : float;
  amort_years : Z
}.

(** [MortgagePayment.set_rate_percent] *)
Definition set_rate_percent (self : MortgagePayment) (v : pyval)
  : res MortgagePayment :=
  if negb (is_number v) then
    Raise (TypeError "quoted_rate_percent must be an int or float")
  else if lt_zero v || gt_int v 100 then
    Raise (ValueError "quoted_rate_percent must be between 0 and 100")
  else
    r <- to_float v ;;
    Ok (mkMortgagePayment r (amort_years self)).

(** [MortgagePayment.set_amort_years] *)
Definition set_amort_years (self : MortgagePayment) (v : pyval)
  : res MortgagePayment :=
  match v with
  | PyInt n =>
      if (n <=? 0)%Z || (100 <? n)%Z then
        Raise (ValueError "amort_years must be between 1 and 100")
      else Ok (mkMortgagePayment (quoted_rate_pct self) n)
  | _ => Raise (TypeError "amort_years must be an int")
  end.

(** [MortgagePayment.__init__] *)
Definition MortgagePayment_init (quoted_rate_percent amort : pyval)
  : res MortgagePayment :=
  self <- set_rate_percent (mkMortgagePayment (Finite 0) 0) quoted_rate_percent ;;
  set_amort_years self amort.

Definition get_rate_percent (self : MortgagePayment) : float :=
  quoted_rate_pct self.

Definition get_amort_years (self : MortgagePayment) : Z := amort_years self.

(** The six amounts [payments] returns, in its order. *)
Record Payments : Type := mkPayments {
  monthly : float;
  semi_monthly : float;
  bi_weekly : float;
  weekly : float;
  rapid_bi_weekly : float;
  rapid_weekly : float
}.

(** ** Python's [**] on floats

    CPython's [float_pow] settles the special cases itself and hands a
    finite positive base other than one, with a finite non-zero
    exponent, to the [pow] of the platform's C library, which no source
    of the repository defines: the model is parametric in it. *)

Section Pow.

Variable libm_pow : Q -> Q -> res float.

Definition is_odd_integer (y : Q) : bool :=
  let y' := Qred y in
  Pos.eqb (Qden y') 1 && Z.odd (Qnum y').

Definition is_integer (y : Q) : bool := Pos.eqb (Qden (Qred y)) 1.

Definition float_pow (x y : float) : res float :=
  match x, y with
  | _, NaN => if feqb x (Finite 1) then Ok (Finite 1) else Ok NaN
  | NaN, Finite e => if is_zero e then Ok (Finite 1) else Ok NaN
  | NaN, Inf _ => Ok NaN
  | Finite b, Inf t =>
      if Qeq_bool (Qabs b) 1 then Ok (Finite 1)
      else if Bool.eqb (negb t) (negb (Qle_bool (Qabs b) 1)) then Ok (Inf false)
      else Ok (Finite 0)
  | Inf _, Inf t => if t then Ok (Finite 0) else Ok (Inf false)
  | Inf s, Finite e =>
      if is_zero e then Ok (Finite 1)
      else if is_neg e then Ok (Finite 0)
      else Ok (Inf (s && is_odd_integer e))
  | Finite b, Finite e =>
      if is_zero e then Ok (Finite 1)
      else if is_zero b then
        if is_neg e then
          Raise (ZeroDivisionError "0.0 cannot be raised to a negative power")
        else Ok (Finite 0)
      else if is_neg b then
        if negb (is_integer e) then
          Raise (TypeError "complex result of a negative base and a fractional power")
        else if Qeq_bool b (-1) then
          Ok (Finite (if is_odd_integer e then -1 else 1))
        else
          r <- libm_pow (Qred (- b)) e ;;
          Ok (if is_odd_integer e then fneg r else r)
      else if Qeq_bool b 1 then Ok (Finite 1)
      else libm_pow b e
  end.

End Pow.

Section Mortgage.

Variable libm_pow : Q -> Q -> res float.

(** [x ** k] for an int [k]: the exponent is converted first. *)
Definition pow_int (x : float) (k : Z) : res float :=
  y <- of_int k ;;
  float_pow libm_pow x y.

(** [MortgagePayment._pva] *)
Definition _pva (r : float) (n : Z) : res float :=
  if feqb r (Finite 0) then of_int n
  else
    p <- pow_int (fadd (Finite 1) r) (- n) ;;
    fdiv (fsub (Finite 1) p) r.

(** [MortgagePayment._semi_to_effective_annual] *)
Definition _semi_to_effective_annual (j : float) : res float :=
  h <- fdiv j (Finite 2) ;;
  s <- pow_int (fadd (Finite 1) h) 2 ;;
  Ok (fsub s (Finite 1)).

(** [MortgagePayment._effective_to_periodic] *)
Definition _effective_to_periodic (ear : float) (m : Z) : res float :=
  mf <- of_int m ;;
  y <- fdiv (Finite 1) mf ;;
  p <- float_pow libm_pow (fadd (Finite 1) ear) y ;;
  Ok (fsub p (Finite 1)).

(** [MortgagePayment._payment_given_frequency] *)
Definition _payment_given_frequency (self : MortgagePayment) (principal : pyval)
  (m_per_year : Z) : res float :=
  j <- fdiv (quoted_rate_pct self) (Finite 100) ;;
  ear <- _semi_to_effective_annual j ;;
  r <- _effective_to_periodic ear m_per_year ;;
  let n := (m_per_year * amort_years self)%Z in
  d <- _pva r n ;;
  p <- to_float principal ;;
  fdiv p d.

(** [MortgagePayment.payments] *)
Definition payments (self : MortgagePayment) (principal : pyval) : res Payments :=
  if negb (is_number principal) then
    Raise (TypeError "principal must be an int or float")
  else if lt_zero principal then
    Raise (ValueError "principal must be non-negative")
  else
    monthly <- _payment_given_frequency self principal 12 ;;
    semi_monthly <- _payment_given_frequency self principal 24 ;;
    bi_weekly <- _payment_given_frequency self principal 26 ;;
    weekly <- _payment_given_frequency self principal 52 ;;
    rapid_bi_weekly <- fdiv monthly (Finite 2) ;;
    rapid_weekly <- fdiv monthly (Finite 4) ;;
    Ok (mkPayments (round_eps monthly) (round_eps semi_monthly)
          (round_eps bi_weekly) (round_eps weekly)
          (round_eps rapid_bi_weekly) (round_eps rapid_weekly)).

End Mortgage.

(** ** A reference [pow]

    An instance of the platform's [pow] on the exponents the calculator
    uses: for an integer exponent the exact power, rounded once; for an
    exponent that is the double nearest [1/m], the [m]-th root, computed
    to 64 fractional bits of its leading digit and rounded.  Other
    exponents are outside its table. *)

(** The greatest [r] below [2^bits] with [r^m <= a], by bisection. *)
Fixpoint iroot_aux (m : Z) (a : Z) (bits : nat) (r : Z) : Z :=
  match bits with
  | O => r
  | S i =>
      let c := (r + 2 ^ Z.of_nat i)%Z in
      iroot_aux m a i (if (c ^ m <=? a)%Z then c else r)
  end.

Definition iroot (m : Z) (a : Z) : Z :=
  iroot_aux m a (Z.to_nat (Z.log2 a / m + 1)) 0.

(** A lower approximation of the [m]-th root of [b > 0]. *)
Definition root_q (m : Z) (b : Q) : Q :=
  let k := (64 - ilog2 b / m)%Z in
  inject_Z (iroot m (Qfloor (b * 2 ^ (k * m)))) * 2 ^ (- k).

(** The [m] with [y] the double nearest [1/m], if there is one. *)
Definition recip_of (y : Q) : option Z :=
  if Qle_bool y 0 then None
  else
    let m := rne (/ y) in
    if (1 <=? m)%Z && Qeq_bool (rnd_q (1 / inject_Z m)) y then Some m else None.

Definition libm_pow_ref (b e : Q) : res float :=
  if is_integer e then
    match rnd (b ^ Qnum (Qred e)) with
    | Finite p => Ok (Finite p)
    | _ => Raise (OverflowError "Numerical result out of range")
    end
  else
    match recip_of e with
    | Some m => Ok (rnd (root_q m b))
    | None => Raise (ValueError "exponent outside the reference table")
    end.

(** ** Notions used to state the properties *)

(** A number is a double when rounding leaves it alone. *)
Definition dbl (q : Q) : Prop := rnd_q q == q.

(** A finite float within given bounds. *)
Definition bounded (lo hi : Q) (x : float) : Prop :=
  exists q, x = Finite q /\ lo <= q /\ q <= hi.

(** The order of the floats that are not NaN. *)
Definition fle (x y : float) : Prop :=
  match x, y with
  | Finite a, Finite b => a <= b
  | NaN, _ => False
  | _, NaN => False
  | _, Inf false => True
  | Inf true, _ => True
  | _, _ => False
  end.

(** Zero, a positive number or plus infinity. *)
Definition nonneg (x : float) : Prop :=
  match x with
  | Finite a => 0 <= a
  | Inf false => True
  | _ => False
  end.

(** *** What is assumed of the platform's [pow]

    On the arguments the calculator can pass, [pow] returns a double
    within a relative error of [2^-50] (four units in the last place) of
    the power, on the same side of one as the power.  For the exponent
    nearest [1/m] the power is compared with the [m]-th root. *)

Definition pow_eps : Q := 2 ^ (-50).

Definition frequencies : list Z := [12; 24; 26; 52]%Z.

Record libm_pow_faithful (libm_pow : Q -> Q -> res float) : Prop := {
  pow_square : forall b, 1 < b -> b <= 2 ->
    exists p, libm_pow b 2 = Ok (Finite p) /\ dbl p /\ 1 <= p /\
              Qabs (p - b ^ 2) <= pow_eps * b ^ 2;
  pow_root : forall m b, In m frequencies -> 1 < b -> b <= 4 ->
    exists p, libm_pow b (rnd_q (1 / inject_Z m)) = Ok (Finite p) /\
              dbl p /\ 1 <= p /\
              ((1 - pow_eps) * p) ^ m <= b /\ b <= ((1 + pow_eps) * p) ^ m;
  pow_recip : forall n b, (1 <= n <= 5200)%Z -> 1 < b -> b <= 2 ->
    b ^ n <= 2 ^ 800 ->
    exists p, libm_pow b (inject_Z (- n)) = Ok (Finite p) /\
              dbl p /\ 0 < p /\ Qabs (p * b ^ n - 1) <= pow_eps
}.

(** A calculator whose fields are in the ranges of the data model: a
    rate in [0, 100] and a term of 1 to 100 years. *)
Definition valid_calculator (self : MortgagePayment) : Prop :=
  (exists rho, quoted_rate_pct self = Finite rho /\ 0 <= rho /\ rho <= 100) /\
  (1 <= amort_years self <= 100)%Z.

(** *** The latest rate, as the specification words it *)

(** The text of a row's [USD/CAD] cell, stripped; empty when the row
    has no such cell. *)
Definition cell_of (row : row_dict) : string :=
  strip (match dict_get "USD/CAD" row with
         | Some (Some v) => v
         | _ => EmptyString
         end).

(** A blank cell or one that is not a number yields nothing. *)
Definition parse_cell (c : string) : option float :=
  if String.eqb c EmptyString then None
  else match float_of_string c with
       | Ok r => Some r
       | Raise _ => None
       end.

(** The value of the last cell, in file order, that parses. *)
Fixpoint last_parsed (cells : list string) : option float :=
  match cells with
  | [] => None
  | c :: cs =>
      match last_parsed cs with
      | Some r => Some r
      | None => parse_cell c
      end
  end.

Definition has_column (f : csv_file) : bool :=
  existsb (String.eqb "USD/CAD")
    (match fieldnames f with Some h => h | None => [] end).

(** A source of ASCII text: every field of every record is, the header
    included. *)
Definition ascii_source (f : csv_file) : bool :=
  forallb (forallb isascii) f.

(** The world after one more [open] of [path]. *)
Definition after_open (path : string) (w : World) : World :=
  mkWorld (files w) (opened w ++ [path]).

(** *** A sequence of conversions

    Each call comes with the content of the file system at its time. *)

Record call : Type := mkCall {
  c_amount : pyval;
  c_from : option string;
  c_to : option string;
  c_files : string -> option csv_file
}.

Fixpoint run (calls : list call) (self : ExchangeRates) (log : list string)
  : list (res float) * ExchangeRates * list string :=
  match calls with
  | [] => ([], self, log)
  | c :: cs =>
      let '(r, (self', w')) :=
        convert (c_amount c) (c_from c) (c_to c) (self, mkWorld (c_files c) log) in
      let '(rs, self'', log') := run cs self' (opened w') in
      (r :: rs, self'', log')
  end.

(** What a conversion returns when the rate is [r]. *)
Definition converted (r : float) (c : call) : res float :=
  let f := normalize (c_from c) in
  let t := normalize (c_to c) in
  if negb (is_number (c_amount c)) then Raise (TypeError "amount must be a number")
  else if lt_zero (c_amount c) then Raise (ValueError "amount must be non-negative")
  else if negb (supported f) || negb (supported t) then
    Raise (ValueError "from_currency/to_currency must be 'CAD' or 'USD'")
  else
    a <- to_float (c_amount c) ;;
    if String.eqb f t then Ok (round2 a)
    else if String.eqb f "USD" then Ok (round_eps (fmul a r))
    else
      o <- fdiv a r ;;
      Ok (round_eps o).

(** [x] is not negative and [y] is at least [x]. *)
Definition le0 (x y : float) : Prop := nonneg x /\ fle x y.

(** Each amount of the second tuple is at least the one of the first. *)
Definition payments_le (P1 P2 : Payments) : Prop :=
  fle (monthly P1) (monthly P2) /\ fle (semi_monthly P1) (semi_monthly P2) /\
  fle (bi_weekly P1) (bi_weekly P2) /\ fle (weekly P1) (weekly P2) /\
  fle (rapid_bi_weekly P1) (rapid_bi_weekly P2) /\
  fle (rapid_weekly P1) (rapid_weekly P2).

(** *** The rounded amount, as the specification words it *)

(** [round(v, 2)], the builtin on the amount itself: an int is its own
    rounding and stays an int, a float is rounded to two decimals. *)
Definition builtin_round2 (v : pyval) : res pyval :=
  match v with
  | PyInt z => Ok (PyInt z)
  | PyFloat f => Ok (PyFloat (round2 f))
  | PyOther => Raise (TypeError "type doesn't define __round__ method")
  end.

(** The float [y] is the number [v]: the same float, or the float whose
    value is the int. *)
Definition is_value (y : float) (v : pyval) : Prop :=
  match v with
  | PyInt z => y = Finite (inject_Z z)
  | PyFloat f => y = f
  | PyOther => False
  end.

(** The addend of the rounding: the double nearest [1e-9]. *)
Definition eps9 : Q := 4835703278458517 # 4835703278458516698824704.

(** *** The errors of a conversion *)

Definition no_column_error : exn :=
  ValueError ("CSV must contain a " ++ dquote ++ "USD/CAD" ++ dquote ++ " column.").

Definition no_number_error : exn :=
  ValueError "No numeric USD/CAD values found in the CSV.".

Definition unsupported_error : exn :=
  ValueError "from_currency/to_currency must be 'CAD' or 'USD'".

(** The arguments of a conversion between the two currencies that passes
    the checks on its arguments. *)
Definition cross_call (amount : pyval) (from_currency to_currency : option string)
  : Prop :=
  is_number amount = true /\ lt_zero amount = false /\
  supported (normalize from_currency) = true /\
  supported (normalize to_currency) = true /\
  String.eqb (normalize from_currency) (normalize to_currency) = false.

(** *** Concrete sources and calculators *)

(** A header [USD/CAD] and the rows: empty, 1.35, abc, 1.37. *)
Definition scenario_file : csv_file :=
  [["USD/CAD"]; [EmptyString]; ["1.35"]; ["abc"]; ["1.37"]].

Definition scenario_world : World :=
  mkWorld (fun p => if String.eqb p "rates.csv" then Some scenario_file else None) [].

(** A source without the [USD/CAD] column. *)
Definition bare_file : csv_file := [["date"; "rate"]; ["2025-01-02"; "1.37"]].

Definition bare_world : World :=
  mkWorld (fun p => if String.eqb p "rates.csv" then Some bare_file else None) [].

(** A file system without any file. *)
Definition no_files : string -> option csv_file := fun _ => None.

(** The calculator of the module's self-test: 5.5 percent, 25 years. *)
Definition scenario_calculator : MortgagePayment := mkMortgagePayment (lit 5.5) 25.

(** The amounts its self-test expects for a principal of 100000. *)
Definition scenario_amounts : Payments :=
  mkPayments (lit 610.39) (lit 304.85) (lit 281.38) (lit 140.61)
    (lit 305.20) (lit 152.60).

(** A calculator with a zero rate, which never calls the platform's
    [pow]: every power it takes has base one. *)
Definition zero_rate_calculator : MortgagePayment :=
  mkMortgagePayment (Finite 0) 25.

(** Pairs of hardware doubles on which the float model is compared with
    the processor's arithmetic: decimal literals of the sources, a
    principal and a periodic rate, the largest double and the smallest
    subnormal. *)
Module Hardware.

Import PrimFloat.

Definition samples : list (PrimFloat.float * PrimFloat.float) :=
  [(0x1.999999999999ap-4, 0x1.999999999999ap-3);
   (0x1.86ap+16, 0x1.47a898018650ap+7);
   (0x1.3137ae147ae14p+9, 0x1.12e0be826d695p-30);
   (0x1.5eb851eb851ecp+0, 0x1.5555555555555p-4);
   (0x1p+30, 0x1p-3);
   (0x1.fffffffffffffp+1023, 0x1.8p+1);
   (0x0.0000000000001p-1022, 0x1.8p+1);
   (0x1.0128fd00c6a02p+0, 0x1p+0)]%float.

End Hardware.

Definition hardware_agrees
  (hw : PrimFloat.float -> PrimFloat.float -> PrimFloat.float)
  (op : float -> float -> res float) : Prop :=
  map (fun ab => Ok (of_prim (hw (fst ab) (snd ab)))) Hardware.samples =
  map (fun ab => op (of_prim (fst ab)) (of_prim (snd ab))) Hardware.samples.

(** ** [main.py]

    The runner talks to a user and looks into the working directory.
    The machine it runs on is the state of its functions: the lines
    still to come on standard input, what the user has been shown, the
    files, and the names in the working directory.  Text is ASCII, as
    in the rest of the model; names are matched as on a POSIX system,
    where [fnmatch] compares them as they are. *)

(** A part of a printed line: text, or a float under the format
    [,.2f], which the model keeps as the number it formats. *)
Inductive piece : Type :=
| Text (s : string)
| Money (x : float).

(** What the user is shown: the prompt of an [input], or a line of a
    [print]. *)
Inductive event : Type :=
| Prompted (s : string)
| Printed (ps : list piece).

Record Machine : Type := mkMachine {
  pending : list string;
  screen : list event;
  disk : World;
  listing : list string
}.

(** How a call ends: with a value, with an exception of the model, or
    with the [EOFError] of an [input] that finds no line. *)
Inductive outcome (A : Type) : Type :=
| Returned (a : A)
| Raised (e : exn)
| EOFError.

Arguments Returned {A} a.
Arguments Raised {A} e.
Arguments EOFError {A}.

Definition IO (A : Type) : Type := Machine -> outcome A * Machine.

Definition io_ret {A : Type} (a : A) : IO A := fun s => (Returned a, s).

Definition io_bind {A B : Type} (m : IO A) (k : A -> IO B) : IO B :=
  fun s =>
    match m s with
    | (Returned a, s') => k a s'
    | (Raised e, s') => (Raised e, s')
    | (EOFError, s') => (EOFError, s')
    end.

Notation "x <~ m ;; k" := (io_bind m (fun x => k))
  (at level 61, m at next level, right associativity).

Definition io_lift {A : Type} (r : res A) : IO A :=
  fun s => (match r with Ok a => Returned a | Raise e => Raised e end, s).

(** The line feed, as a string. *)
Definition nl : string := String (ascii_of_nat 10) EmptyString.

(** [print(...)] of one line *)
Definition print (ps : list piece) : IO unit :=
  fun s =>
    (Returned tt,
     mkMachine (pending s) (screen s ++ [Printed ps])%list (disk s) (listing s)).

(** [input(prompt)] *)
Definition input (prompt : string) : IO string :=
  fun s =>
    let scr := (screen s ++ [Prompted prompt])%list in
    match pending s with
    | [] => (EOFError, mkMachine [] scr (disk s) (listing s))
    | line :: rest => (Returned line, mkMachine rest scr (disk s) (listing s))
    end.

(** *** The asking loops

    Each loop of the runner is [while True]: read a line with [input],
    then return a value, or print a message and [continue].  [ask] is
    that loop, by recursion on the lines to come; the body says what
    one turn does with its line. *)

Inductive verdict (A : Type) : Type :=
| Accept (a : A)
| Reject (msg : string)
| Fails (e : exn).

Arguments Accept {A} a.
Arguments Reject {A} msg.
Arguments Fails {A} e.

Fixpoint ask {A : Type} (prompt : string) (body : string -> verdict A)
  (lines : list string) (scr : list event)
  : outcome A * list string * list event :=
  match lines with
  | [] => (EOFError, [], (scr ++ [Prompted prompt])%list)
  | line :: rest =>
      match body line with
      | Accept a => (Returned a, rest, (scr ++ [Prompted prompt])%list)
      | Reject msg =>
          ask prompt body rest
            (scr ++ [Prompted prompt; Printed [Text msg]])%list
      | Fails e => (Raised e, rest, (scr ++ [Prompted prompt])%list)
      end
  end.

Definition asking {A : Type} (prompt : string) (body : string -> verdict A)
  : IO A :=
  fun s =>
    let '(r, lines, scr) := ask prompt body (pending s) (screen s) in
    (r, mkMachine lines scr (disk s) (listing s)).

(** [x <= y] on floats *)
Definition fle_bool (x y : float) : bool := flt x y || feqb x y.

(** One turn of [_get_float]. *)
Definition float_answer (positive_only : bool) (line : string) : verdict float :=
  match float_of_string (strip line) with
  | Ok value =>
      if positive_only && fle_bool value (Finite 0) then
        Reject "Invalid input. Please enter a positive number."
      else Accept value
  | Raise (ValueError _) => Reject "Invalid input. Please enter a numeric value."
  | Raise e => Fails e
  end.

(** [_get_float] *)
Definition _get_float (prompt : string) (positive_only : bool) : IO float :=
  asking prompt (float_answer positive_only).

(** [sorted] on strings, which Python compares by code point. *)
Fixpoint insert_sorted (x : string) (l : list string) : list string :=
  match l with
  | [] => [x]
  | y :: l' => if String.leb x y then x :: l else y :: insert_sorted x l'
  end.

Fixpoint sorted (l : list string) : list string :=
  match l with
  | [] => []
  | x :: l' => insert_sorted x (sorted l')
  end.

(** [l] after a leading [p], when it starts with [p]. *)
Fixpoint after_prefix (p l : list ascii) : option (list ascii) :=
  match p, l with
  | [], _ => Some l
  | a :: p', b :: l' => if Ascii.eqb a b then after_prefix p' l' else None
  | _ :: _, [] => None
  end.

Definition has_suffix (p l : list ascii) : bool :=
  match after_prefix (rev p) (rev l) with
  | Some _ => true
  | None => false
  end.

(** [fnmatch] of a name against [BankOfCanadaExchangeRates*.csv]. *)
Definition rates_pattern (name : string) : bool :=
  match after_prefix (list_ascii_of_string "BankOfCanadaExchangeRates")
          (list_ascii_of_string name) with
  | Some rest => has_suffix (list_ascii_of_string ".csv") rest
  | None => false
  end.

(** [_autodetect_csv] *)
Definition _autodetect_csv : IO (option string) :=
  fun s =>
    let matches := sorted (filter rates_pattern (listing s)) in
    (Returned (match matches with
               | [] => None
               | _ => Some (last matches EmptyString)
               end), s).

(** The first loop of [run_fx_flow]. *)
Definition from_answer (line : string) : verdict string :=
  let from_ccy := upper (strip line) in
  if negb (supported from_ccy) then
    Reject "Invalid currency. Please enter either 'CAD' or 'USD'."
  else Accept from_ccy.

(** Its second loop. *)
Definition to_answer (from_ccy : string) (line : string) : verdict string :=
  let to_ccy := upper (strip line) in
  if negb (supported to_ccy) then
    Reject "Invalid currency. Please enter either 'CAD' or 'USD'."
  else if String.eqb to_ccy from_ccy then
    Reject "Cannot convert to the same currency. Try again."
  else Accept to_ccy.

(** [xr.convert(...)] on the files of the machine; [xr] is a local
    variable of the caller, which does not use it afterwards. *)
Definition converting (xr : ExchangeRates) (amount : pyval)
  (from_currency to_currency : option string) : IO float :=
  fun s =>
    let '(r, (_, w)) := convert amount from_currency to_currency (xr, disk s) in
    (match r with Ok v => Returned v | Raise e => Raised e end,
     mkMachine (pending s) (screen s) w (listing s)).

(** [run_fx_flow] *)
Definition run_fx_flow : IO unit :=
  _ <~ print [Text (nl ++ "=== Exchange Rate Conversion (CAD ↔ USD) ===")] ;;
  detected <~ _autodetect_csv ;;
  csv_path <~ match detected with
              | None =>
                  line <~ input "Enter path to BankOfCanadaExchangeRates.csv: " ;;
                  io_ret (strip line)
              | Some found =>
                  _ <~ print [Text ("Using data file: " ++ found)] ;;
                  io_ret found
              end ;;
  xr <~ io_lift (ExchangeRates_init csv_path) ;;
  amount <~ _get_float "Enter amount (e.g., 100000): " true ;;
  from_ccy <~ asking "From currency (CAD or USD): " from_answer ;;
  to_ccy <~ asking "To currency (CAD or USD): " (to_answer from_ccy) ;;
  converted <~ converting xr (PyFloat amount) (Some from_ccy) (Some to_ccy) ;;
  _ <~ print [Text (nl ++ "--- Results ---")] ;;
  print [Money amount; Text (" " ++ from_ccy ++ " = "); Money converted;
         Text (" " ++ to_ccy)].

Section Runner.

(** The interpreter's limit on the digits of a decimal numeral given to
    [int], zero when it has none (Python 3.10.7 and later: 4300 unless
    reconfigured). *)
Variable int_max_str_digits : Z.

Variable libm_pow : Q -> Q -> res float.

(** [int(s)] on a string of ASCII text: white space around, an optional
    sign, then decimal digits that single underscores may separate. *)
Definition int_of_string (s : string) : res Z :=
  let bad := Raise (ValueError "invalid literal for int() with base 10") in
  let '(neg, body) := sign (list_ascii_of_string (strip s)) in
  match drop_underscores " " body with
  | None => bad
  | Some ds =>
      match digits 0 0 ds with
      | (n, cnt, []) =>
          if (cnt =? 0)%Z then bad
          else if (640 <? cnt)%Z && (0 <? int_max_str_digits)%Z
                  && (int_max_str_digits <? cnt)%Z then
            Raise (ValueError "Exceeds the limit for integer string conversion")
          else Ok (if neg then (- n)%Z else n)
      | _ => bad
      end
  end.

(** One turn of [_get_int]. *)
Definition int_answer (positive_only : bool) (line : string) : verdict Z :=
  match int_of_string (strip line) with
  | Ok value =>
      if positive_only && (value <=? 0)%Z then
        Reject "Invalid input. Please enter a positive whole number."
      else Accept value
  | Raise (ValueError _) => Reject "Invalid input. Please enter a whole number."
  | Raise e => Fails e
  end.

(** [_get_int] *)
Definition _get_int (prompt : string) (positive_only : bool) : IO Z :=
  asking prompt (int_answer positive_only).

(** The six lines of the results. *)
Definition result_lines (P : Payments) : list event :=
  [Printed [Text "Monthly Payment: $"; Money (monthly P)];
   Printed [Text "Semi-monthly Payment: $"; Money (semi_monthly P)];
   Printed [Text "Bi-weekly Payment: $"; Money (bi_weekly P)];
   Printed [Text "Weekly Payment: $"; Money (weekly P)];
   Printed [Text "Rapid Bi-weekly Payment: $"; Money (rapid_bi_weekly P)];
   Printed [Text "Rapid Weekly Payment: $"; Money (rapid_weekly P)]].

(** [run_mortgage_flow] *)
Definition run_mortgage_flow : IO unit :=
  _ <~ print [Text (nl ++ "=== Mortgage Payments ===")] ;;
  principal <~ _get_float "Enter principal amount (e.g., 500000): " true ;;
  quoted_rate <~
    _get_float "Enter quoted annual rate % (semi-annual compounding, e.g., 5.5): "
      true ;;
  amort_years <~ _get_int "Enter amortization in years (e.g., 25): " true ;;
  mp <~ io_lift (MortgagePayment_init (PyFloat quoted_rate) (PyInt amort_years)) ;;
  P <~ io_lift (payments libm_pow mp (PyFloat principal)) ;;
  _ <~ print [Text (nl ++ "--- Results ---")] ;;
  _ <~ print [Text "Monthly Payment: $"; Money (monthly P)] ;;
  _ <~ print [Text "Semi-monthly Payment: $"; Money (semi_monthly P)] ;;
  _ <~ print [Text "Bi-weekly Payment: $"; Money (bi_weekly P)] ;;
  _ <~ print [Text "Weekly Payment: $"; Money (weekly P)] ;;
  _ <~ print [Text "Rapid Bi-weekly Payment: $"; Money (rapid_bi_weekly P)] ;;
  print [Text "Rapid Weekly Payment: $"; Money (rapid_weekly P)].

(** The script: both parts, one after the other. *)
Definition main : IO unit :=
  _ <~ run_mortgage_flow ;;
  run_fx_flow.

End Runner.

(** ** Further notions used to state the properties *)

(** *** The calculators a caller can reach *)

(** A rate the setter lets through: NaN, or a number from 0 to 100. *)
Definition rate_in_range (x : float) : Prop :=
  x = NaN \/ exists rho, x = Finite rho /\ 0 <= rho /\ rho <= 100.

Definition well_formed (self : MortgagePayment) : Prop :=
  rate_in_range (quoted_rate_pct self) /\ (1 <= amort_years self <= 100)%Z.

(** A call of one of the two setters. *)
Inductive setter_call : Type :=
| SetRate (v : pyval)
| SetYears (v : pyval).

Definition call_setter (self : MortgagePayment) (c : setter_call)
  : res MortgagePayment :=
  match c with
  | SetRate v => set_rate_percent self v
  | SetYears v => set_amort_years self v
  end.

(** The object after a sequence of setter calls, by a caller that goes
    on after a refused call: a setter that raises has assigned nothing. *)
Fixpoint after_setters (self : MortgagePayment) (cs : list setter_call)
  : MortgagePayment :=
  match cs with
  | [] => self
  | c :: cs' =>
      after_setters (match call_setter self c with
                     | Ok self' => self'
                     | Raise _ => self
                     end) cs'
  end.


(** The six amounts of a principal [x], given what the four base amounts
    divide it by. *)
Definition amounts_over (d12 d24 d26 d52 : Q) (x : float) : res Payments :=
  a <- fdiv x (Finite d12) ;;
  b <- fdiv x (Finite d24) ;;
  c <- fdiv x (Finite d26) ;;
  d <- fdiv x (Finite d52) ;;
  h <- fdiv a (Finite 2) ;;
  k <- fdiv a (Finite 4) ;;
  Ok (mkPayments (round_eps a) (round_eps b) (round_eps c) (round_eps d)
        (round_eps h) (round_eps k)).

(** The number of payments at [m] payments a year. *)
Definition payment_count (self : MortgagePayment) (m : Z) : Q :=
  inject_Z (m * amort_years self).

(** A source whose only rate is zero. *)
Definition zero_file : csv_file := [["date"; "USD/CAD"]; ["2025-01-02"; "0.0"]].

Definition zero_world : World :=
  mkWorld (fun p => if String.eqb p "rates.csv" then Some zero_file else None) [].

(** Text with a character that is not white space. *)
Definition visible (s : string) : Prop :=
  exists c, In c (list_ascii_of_string s) /\ is_space c = false.

(** The position of the last [k] in a header, counted from [i]. *)
Fixpoint last_index (k : string) (h : list string) (i : nat) : option nat :=
  match h with
  | [] => None
  | k' :: h' =>
      match last_index k h' (S i) with
      | Some j => Some j
      | None => if String.eqb k k' then Some i else None
      end
  end.

(** The field of a record under the last [USD/CAD] of the header, empty
    when the header has none or the record is too short. *)
Definition rate_field (h r : list string) : string :=
  match last_index "USD/CAD" h 0 with
  | Some i => nth i r EmptyString
  | None => EmptyString
  end.

(** *** Notions on the asking loops *)

(** A line the loop answers with a message and another prompt. *)
Definition turned_down {A : Type} (body : string -> verdict A) (line : string)
  : Prop :=
  exists msg, body line = Reject msg.

(** What the user is shown for a run of lines that are turned down. *)
Fixpoint retries {A : Type} (prompt : string) (body : string -> verdict A)
  (bad : list string) : list event :=
  match bad with
  | [] => []
  | line :: bad' =>
      match body line with
      | Reject msg =>
          Prompted prompt :: Printed [Text msg] :: retries prompt body bad'
      | _ => []
      end
  end.

(** The lines to come answer the loop with [a]: some lines it turns
    down, then one it accepts, and [rest] is left unread. *)
Definition answers {A : Type} (body : string -> verdict A) (lines : list string)
  (a : A) (rest : list string) : Prop :=
  exists bad good,
    lines = (bad ++ good :: rest)%list /\
    Forall (turned_down body) bad /\ body good = Accept a.

(** The amounts on the screen, in the order they were printed. *)
Definition amounts_of (e : event) : list float :=
  match e with
  | Prompted _ => []
  | Printed ps =>
      flat_map (fun p => match p with Money x => [x] | Text _ => [] end) ps
  end.

Definition amounts_shown (scr : list event) : list float :=
  flat_map amounts_of scr.

(** The order of [sorted]. *)
Definition name_le (a b : string) : Prop := String.leb a b = true.

(** The first line of each flow, and the line above the results. *)
Definition mortgage_banner : event :=
  Printed [Text (nl ++ "=== Mortgage Payments ===")].

Definition fx_banner : event :=
  Printed [Text (nl ++ "=== Exchange Rate Conversion (CAD ↔ USD) ===")].

Definition results_banner : event := Printed [Text (nl ++ "--- Results ---")].

(** A directory with two downloads of the rates. *)
Definition two_downloads : list string :=
  ["BankOfCanadaExchangeRates (10).csv"; "notes.txt";
   "BankOfCanadaExchangeRates (6).csv"; "BankOfCanadaExchangeRates.csv.bak"].

(** The line of the result of a conversion. *)
Definition conversion_line (amount : float) (from_ccy to_ccy : string)
  (converted : float) : event :=
  Printed [Money amount; Text (" " ++ from_ccy ++ " = "); Money converted;
           Text (" " ++ to_ccy)].

(** A machine with the sample source under the name of a download, and
    a user who answers the questions of the conversion. *)
Definition fx_machine : Machine :=
  mkMachine ["100"; "usd"; "usd"; "cad"] []
    (mkWorld (fun p => if String.eqb p "BankOfCanadaExchangeRates (6).csv"
                       then Some scenario_file else None) [])
    two_downloads.

(** A user who answers the questions of the mortgage flow. *)
Definition mortgage_machine (rate : string) : Machine :=
  mkMachine ["100000"; rate; "25"] [] (mkWorld no_files []) [].

(** None of the six amounts is negative or NaN. *)
Definition amounts_nonneg (P : Payments) : Prop :=
  nonneg (monthly P) /\ nonneg (semi_monthly P) /\ nonneg (bi_weekly P) /\
  nonneg (weekly P) /\ nonneg (rapid_bi_weekly P) /\ nonneg (rapid_weekly P).

(** * Properties *)

(** ** Powers of two and binary logarithms *)

Lemma two_pos (e : Z) : 0 < 2 ^ e.
Proof. apply Qpower_0_lt. reflexivity. Qed.

Lemma two_plus (a b : Z) : 2 ^ (a + b) == 2 ^ a * 2 ^ b.
Proof. apply Qpower_plus. discriminate. Qed.

Lemma two_minus (a b : Z) : 2 ^ (a - b) == 2 ^ a / 2 ^ b.
Proof. apply Qpower_minus. discriminate. Qed.

Lemma two_le (a b : Z) : (a <= b)%Z -> 2 ^ a <= 2 ^ b.
Proof. intros H. apply Qpower_le_compat_l; [exact H | discriminate]. Qed.

Lemma two_lt (a b : Z) : (a < b)%Z -> 2 ^ a < 2 ^ b.
Proof. intros H. apply Qpower_lt_compat_l; [exact H | reflexivity]. Qed.

Lemma two_succ (a : Z) : 2 ^ (a + 1) == 2 * 2 ^ a.
Proof. rewrite two_plus. change (2 ^ 1) with 2. ring. Qed.

Lemma two_inject (k : Z) : (0 <= k)%Z -> inject_Z (2 ^ k) == 2 ^ k.
Proof. intros H. apply (Zpower_Qpower 2 k H). Qed.

Lemma two_lt_inv (a b : Z) : 2 ^ a < 2 ^ b -> (a < b)%Z.
Proof. intros H. apply (Qpower_lt_compat_l_inv 2); [exact H | reflexivity]. Qed.

(** The absolute value as a quotient of integers. *)
Lemma Qabs_quot (q : Q) :
  Qabs q * inject_Z (Zpos (Qden q)) == inject_Z (Z.abs (Qnum q)).
Proof.
  destruct q as [n d]. simpl. unfold Qeq, Qmult, inject_Z. simpl. lia.
Qed.

Lemma ilog2_spec (q : Q) : ~ q == 0 ->
  2 ^ ilog2 q <= Qabs q /\ Qabs q < 2 ^ (ilog2 q + 1).
Proof.
  intros Hq. unfold ilog2.
  set (n := Z.abs (Qnum q)). set (d := Zpos (Qden q)).
  set (a := Z.log2 n). set (b := Z.log2 d).
  assert (Hn : (0 < n)%Z).
  { unfold n. destruct q as [qn qd]. unfold Qeq in Hq. simpl in *. lia. }
  assert (Hd : (0 < d)%Z) by (unfold d; lia).
  destruct (Z.log2_spec n Hn) as [Ha1 Ha2]. fold a in Ha1, Ha2.
  destruct (Z.log2_spec d Hd) as [Hb1 Hb2]. fold b in Hb1, Hb2.
  assert (Ha0 : (0 <= a)%Z) by apply Z.log2_nonneg.
  assert (Hb0 : (0 <= b)%Z) by apply Z.log2_nonneg.
  pose proof (Qabs_quot q) as Hx. fold n d in Hx.
  set (x := Qabs q) in *.
  assert (A1 : 2 ^ a <= inject_Z n).
  { rewrite <- two_inject by exact Ha0. rewrite <- Zle_Qle. exact Ha1. }
  assert (A2 : inject_Z n < 2 * 2 ^ a).
  { rewrite <- two_succ, <- two_inject by lia. rewrite <- Zlt_Qlt.
    exact Ha2. }
  assert (B1 : 2 ^ b <= inject_Z d).
  { rewrite <- two_inject by exact Hb0. rewrite <- Zle_Qle. exact Hb1. }
  assert (B2 : inject_Z d < 2 * 2 ^ b).
  { rewrite <- two_succ, <- two_inject by lia. rewrite <- Zlt_Qlt.
    exact Hb2. }
  assert (L : 2 ^ (a - b) * 2 ^ b == 2 ^ a).
  { rewrite <- two_plus. replace (a - b + b)%Z with a by lia. reflexivity. }
  pose proof (two_pos (a - b)) as Lp. pose proof (two_pos b) as Bp.
  pose proof (two_pos a) as Ap.
  assert (Hx0 : 0 <= x) by apply Qabs_nonneg.
  set (N := inject_Z n) in *. set (D := inject_Z d) in *.
  set (l := (a - b)%Z) in *.
  destruct (Qle_bool (2 ^ l) x) eqn:E.
  - apply Qle_bool_iff in E. split; [exact E |].
    rewrite two_succ.
    destruct (Qlt_le_dec x (2 * 2 ^ l)) as [H | H]; [exact H | exfalso].
    set (P := 2 ^ l) in *. set (B := 2 ^ b) in *. set (A := 2 ^ a) in *.
    nra.
  - assert (E' : x < 2 ^ l).
    { destruct (Qlt_le_dec x (2 ^ l)) as [H | H]; [exact H |].
      apply Qle_bool_iff in H. congruence. }
    split.
    + assert (T : 2 * 2 ^ (l - 1) == 2 ^ l).
      { rewrite <- two_succ. replace (l - 1 + 1)%Z with l by lia. reflexivity. }
      destruct (Qlt_le_dec x (2 ^ (l - 1))) as [H | H]; [exfalso | exact H].
      pose proof (two_pos (l - 1)) as Pp.
      set (P := 2 ^ l) in *. set (P' := 2 ^ (l - 1)) in *.
      set (B := 2 ^ b) in *. set (A := 2 ^ a) in *.
      nra.
    + replace (l - 1 + 1)%Z with l by lia. exact E'.
Qed.

Lemma ilog2_unique (q : Q) (l : Z) :
  2 ^ l <= Qabs q -> Qabs q < 2 ^ (l + 1) -> ilog2 q = l.
Proof.
  intros H1 H2.
  assert (Hq : ~ q == 0).
  { intros E. rewrite E in H1. pose proof (two_pos l). 
    change (Qabs 0) with 0 in H1. lra. }
  destruct (ilog2_spec q Hq) as [S1 S2].
  assert (ilog2 q < l + 1)%Z by (apply two_lt_inv; lra).
  assert (l < ilog2 q + 1)%Z by (apply two_lt_inv; lra).
  lia.
Qed.

Lemma ilog2_comp (x y : Q) : x == y -> ~ x == 0 -> ilog2 x = ilog2 y.
Proof.
  intros E Hx. destruct (ilog2_spec x Hx) as [S1 S2].
  symmetry. apply ilog2_unique; rewrite <- E; assumption.
Qed.

Lemma ilog2_le (x y : Q) : ~ x == 0 -> Qabs x <= Qabs y -> (ilog2 x <= ilog2 y)%Z.
Proof.
  intros Hx H.
  assert (Hy : ~ y == 0).
  { intros E. rewrite E in H. change (Qabs 0) with 0 in H.
    pose proof (Qabs_nonneg x).
    assert (Qabs x == 0) by lra.
    apply Hx. destruct (Qabs_Qle_condition x 0) as [C _].
    destruct C as [C1 C2]; [lra|]. lra. }
  destruct (ilog2_spec x Hx) as [S1 S2].
  destruct (ilog2_spec y Hy) as [T1 T2].
  assert (ilog2 x < ilog2 y + 1)%Z by (apply two_lt_inv; lra).
  lia.
Qed.

(** *** Rounding to the nearest integer *)

Lemma rne_cases (q : Q) :
  (rne q = Qfloor q /\ q - inject_Z (Qfloor q) <= 1 # 2) \/
  (rne q = (Qfloor q + 1)%Z /\ 1 # 2 <= q - inject_Z (Qfloor q)).
Proof.
  unfold rne.
  destruct (Qcompare (q - inject_Z (Qfloor q)) (1 # 2)) eqn:E.
  - apply Qeq_alt in E. destruct (Z.even (Qfloor q)); [left | right]; split;
      try reflexivity; lra.
  - apply Qlt_alt in E. left. split; [reflexivity | lra].
  - apply Qgt_alt in E. right. split; [reflexivity | lra].
Qed.

Lemma floor_bounds (q : Q) :
  inject_Z (Qfloor q) <= q /\ q < inject_Z (Qfloor q) + 1.
Proof.
  split; [apply Qfloor_le |].
  pose proof (Qlt_floor q) as H. rewrite inject_Z_plus in H. exact H.
Qed.

Lemma rne_error (q : Q) : Qabs (inject_Z (rne q) - q) <= 1 # 2.
Proof.
  destruct (floor_bounds q) as [F1 F2].
  apply Qabs_Qle_condition.
  destruct (rne_cases q) as [[E H] | [E H]]; rewrite E;
    try rewrite inject_Z_plus; change (inject_Z 1) with 1; lra.
Qed.

Lemma rne_comp (x y : Q) : x == y -> rne x = rne y.
Proof.
  intros E. unfold rne. rewrite (Qfloor_comp _ _ E).
  assert (E' : x - inject_Z (Qfloor y) == y - inject_Z (Qfloor y))
    by (rewrite E; reflexivity).
  rewrite (Qcompare_comp _ _ E' (1#2) (1#2)) by reflexivity. reflexivity.
Qed.

Lemma rne_Z (k : Z) : rne (inject_Z k) = k.
Proof.
  unfold rne. rewrite Qfloor_Z.
  assert (E : inject_Z k - inject_Z k == 0) by ring.
  rewrite (Qcompare_comp _ _ E (1#2) (1#2)) by reflexivity. reflexivity.
Qed.

Lemma rne_mono (x y : Q) : x <= y -> (rne x <= rne y)%Z.
Proof.
  intros H.
  pose proof (Qfloor_resp_le _ _ H) as F.
  destruct (floor_bounds x) as [X1 X2]. destruct (floor_bounds y) as [Y1 Y2].
  destruct (Z.eq_dec (Qfloor x) (Qfloor y)) as [E | N].
  - unfold rne. rewrite E in *.
    destruct (Qcompare_spec (x - inject_Z (Qfloor y)) (1 # 2)) as [Cx | Cx | Cx];
    destruct (Qcompare_spec (y - inject_Z (Qfloor y)) (1 # 2)) as [Cy | Cy | Cy];
      try (destruct (Z.even (Qfloor y))); try lia; exfalso; lra.
  - assert (Qfloor x + 1 <= Qfloor y)%Z by lia.
    destruct (rne_cases x) as [[Ex _] | [Ex _]];
    destruct (rne_cases y) as [[Ey _] | [Ey _]]; lia.
Qed.

(** *** Rounding to the binary64 grid *)

Lemma rnd_q_eq (q : Q) :
  rnd_q q == inject_Z (rne (q / 2 ^ cexp q)) * 2 ^ cexp q.
Proof. unfold rnd_q. apply Qred_correct. Qed.

Lemma cexp_emin (q : Q) : (emin <= cexp q)%Z.
Proof. unfold cexp. lia. Qed.

Lemma cexp_ilog2 (q : Q) : (ilog2 q - 52 <= cexp q)%Z.
Proof. unfold cexp. lia. Qed.

Lemma scale_back (q : Q) (e : Z) : q / 2 ^ e * 2 ^ e == q.
Proof. pose proof (two_pos e). field. lra. Qed.

Lemma rnd_q_error (q : Q) : Qabs (rnd_q q - q) <= 2 ^ cexp q / 2.
Proof.
  rewrite rnd_q_eq. set (e := cexp q). set (t := q / 2 ^ e).
  assert (E : inject_Z (rne t) * 2 ^ e - q == (inject_Z (rne t) - t) * 2 ^ e).
  { unfold t. pose proof (two_pos e). field. lra. }
  rewrite E, Qabs_Qmult. pose proof (rne_error t) as R.
  pose proof (two_pos e) as P.
  rewrite (Qabs_pos (2 ^ e)) by lra.
  apply Qle_trans with ((1 # 2) * 2 ^ e).
  - apply Qmult_le_compat_r; [exact R | lra].
  - apply Qle_lteq. right. field.
Qed.

Lemma Qdiv_zero (q p : Q) : q == 0 -> q / p == 0.
Proof. intros E. rewrite E. unfold Qdiv. ring. Qed.

Lemma rnd_q_zero (q : Q) : q == 0 -> rnd_q q == 0.
Proof.
  intros E. rewrite rnd_q_eq.
  assert (E' : q / 2 ^ cexp q == inject_Z 0) by (apply Qdiv_zero; exact E).
  rewrite (rne_comp _ _ E'), rne_Z. change (inject_Z 0) with 0. ring.
Qed.

Lemma rnd_q_nonneg (q : Q) : 0 <= q -> 0 <= rnd_q q.
Proof.
  intros H. rewrite rnd_q_eq. pose proof (two_pos (cexp q)) as P.
  assert (T : inject_Z 0 <= q / 2 ^ cexp q).
  { change (inject_Z 0) with 0. apply Qle_shift_div_l; lra. }
  apply rne_mono in T. rewrite rne_Z in T.
  rewrite Zle_Qle in T. change (inject_Z 0) with 0 in T.
  set (k := inject_Z _) in *. set (p := 2 ^ _) in *. nra.
Qed.

Lemma cexp_comp (x y : Q) : x == y -> ~ x == 0 -> cexp x = cexp y.
Proof. intros E H. unfold cexp. rewrite (ilog2_comp x y E H). reflexivity. Qed.

Lemma rnd_q_comp (x y : Q) : x == y -> rnd_q x = rnd_q y.
Proof.
  intros E. unfold rnd_q. apply Qred_complete.
  destruct (Qeq_dec x 0) as [Z | NZ].
  - pose proof (rnd_q_zero x Z) as Hx.
    assert (Zy : y == 0) by (rewrite <- E; exact Z).
    pose proof (rnd_q_zero y Zy) as Hy.
    rewrite rnd_q_eq in Hx, Hy. rewrite Hx, Hy. reflexivity.
  - rewrite <- (cexp_comp x y E NZ).
    assert (E' : x / 2 ^ cexp x == y / 2 ^ cexp x).
    { unfold Qdiv. apply Qmult_comp; [exact E | reflexivity]. }
    rewrite (rne_comp _ _ E'). reflexivity.
Qed.

Lemma rnd_q_exact (q : Q) (z : Z) :
  q / 2 ^ cexp q == inject_Z z -> rnd_q q == q.
Proof.
  intros E. rewrite rnd_q_eq, (rne_comp _ _ E), rne_Z, <- E.
  apply scale_back.
Qed.

Lemma Qabs_scale (k : Z) (e : Z) :
  Qabs (inject_Z k * 2 ^ e) == inject_Z (Z.abs k) * 2 ^ e.
Proof.
  rewrite Qabs_Qmult. pose proof (two_pos e).
  rewrite (Qabs_pos (2 ^ e)) by lra.
  assert (E : Qabs (inject_Z k) == inject_Z (Z.abs k)).
  { unfold inject_Z. rewrite <- Zabs_Qabs. reflexivity. }
  rewrite E. reflexivity.
Qed.

(** An integer multiple of a power of two with at most 53 significant
    bits is a double. *)
Lemma dbl_intro (k e : Z) :
  (Z.abs k <= 2 ^ 53)%Z -> (emin <= e)%Z ->
  rnd_q (inject_Z k * 2 ^ e) == inject_Z k * 2 ^ e.
Proof.
  intros Hk He. set (q := inject_Z k * 2 ^ e).
  destruct (Z.eq_dec k 0) as [K0 | K0].
  { assert (Z : q == 0) by (unfold q; rewrite K0; change (inject_Z 0) with 0; ring).
    rewrite (rnd_q_zero q Z). symmetry. exact Z. }
  assert (Hq : ~ q == 0).
  { unfold q. intros E. pose proof (two_pos e) as P.
    assert (inject_Z k == 0).
    { destruct (Qmult_integral _ _ E) as [A | A]; [exact A | lra]. }
    apply K0. unfold Qeq, inject_Z in H. simpl in H. lia. }
  pose proof (Qabs_scale k e) as Ha. fold q in Ha.
  destruct (ilog2_spec q Hq) as [S1 S2]. pose proof (two_pos e) as P.
  destruct (Z.eq_dec (Z.abs k) (2 ^ 53)) as [Kmax | Kmax].
  - assert (Hl : ilog2 q = (53 + e)%Z).
    { apply ilog2_unique; rewrite Ha, Kmax.
      - rewrite two_plus, two_inject by lia. lra.
      - rewrite two_inject by lia. 
        replace (53 + e + 1)%Z with (54 + e)%Z by lia. rewrite two_plus.
        assert (2 ^ 53 < 2 ^ 54) by (apply two_lt; lia).
        set (a := 2 ^ 53) in *. set (b := 2 ^ 54) in *. set (c := 2 ^ e) in *.
        nra. }
    assert (Hc : cexp q = (e + 1)%Z) by (unfold cexp; rewrite Hl; lia).
    apply (rnd_q_exact q (k / 2)). rewrite Hc. subst q.
    assert (Hk2 : k = (2 * (k / 2))%Z).
    { assert (k = 2 ^ 53 \/ k = - 2 ^ 53)%Z as [E | E] by lia; rewrite E;
        reflexivity. }
    rewrite Hk2 at 1. rewrite inject_Z_mult, two_succ.
    change (inject_Z 2) with 2. field. lra.
  - assert (Hl : (ilog2 q < 53 + e)%Z).
    { apply two_lt_inv. 
      assert (Qabs q < 2 ^ (53 + e)); [| lra].
      rewrite Ha, two_plus, <- (two_inject 53) by lia.
      assert (inject_Z (Z.abs k) < inject_Z (2 ^ 53)).
      { rewrite <- Zlt_Qlt. lia. }
      set (a := inject_Z (Z.abs k)) in *. set (b := inject_Z (2 ^ 53)) in *.
      set (c := 2 ^ e) in *. nra. }
    assert (Hc : (cexp q <= e)%Z) by (unfold cexp; lia).
    apply (rnd_q_exact q (k * 2 ^ (e - cexp q))).
    rewrite inject_Z_mult. rewrite (two_inject (e - cexp q)) by lia. rewrite two_minus. 
    pose proof (two_pos (cexp q)). subst q. field. lra.
Qed.

Lemma rne_bound (t : Q) (b : Z) :
  Qabs t <= inject_Z b -> (Z.abs (rne t) <= b)%Z.
Proof.
  intros H. apply Qabs_Qle_condition in H. destruct H as [H1 H2].
  rewrite <- inject_Z_opp in H1.
  apply rne_mono in H1, H2. rewrite rne_Z in H1, H2. lia.
Qed.

Lemma rnd_q_mantissa (q : Q) : (Z.abs (rne (q / 2 ^ cexp q)) <= 2 ^ 53)%Z.
Proof.
  apply rne_bound. pose proof (two_pos (cexp q)) as P.
  destruct (Qeq_dec q 0) as [Z | NZ].
  { rewrite (Qdiv_zero q _ Z). discriminate. }
  destruct (ilog2_spec q NZ) as [S1 S2].
  unfold Qdiv. rewrite Qabs_Qmult, Qabs_Qinv, (Qabs_pos (2 ^ cexp q)) by lra.
  apply Qle_shift_div_r; [exact P |].
  rewrite two_inject, <- two_plus by lia.
  pose proof (cexp_ilog2 q).
  assert (2 ^ (ilog2 q + 1) <= 2 ^ (53 + cexp q)) by (apply two_le; lia).
  lra.
Qed.

Lemma rnd_q_idem (q : Q) : rnd_q (rnd_q q) == rnd_q q.
Proof.
  rewrite (rnd_q_comp _ _ (rnd_q_eq q)).
  rewrite dbl_intro; [symmetry; apply rnd_q_eq | apply rnd_q_mantissa |
                      apply cexp_emin].
Qed.

Lemma Qabs_pos_lt (q : Q) : 0 < q -> ~ q == 0.
Proof. intros H E. rewrite E in H. discriminate. Qed.

Lemma cexp_mono (x y : Q) : 0 < x -> x <= y -> (cexp x <= cexp y)%Z.
Proof.
  intros Hx H. unfold cexp.
  assert (ilog2 x <= ilog2 y)%Z.
  { apply ilog2_le; [apply Qabs_pos_lt; exact Hx |].
    rewrite !Qabs_pos by lra. exact H. }
  lia.
Qed.

Lemma scaled_le (x y : Q) (e : Z) : x <= y -> x / 2 ^ e <= y / 2 ^ e.
Proof.
  intros H. pose proof (two_pos e) as P. unfold Qdiv.
  apply Qmult_le_compat_r; [exact H |].
  apply Qlt_le_weak, Qinv_lt_0_compat, P.
Qed.

Lemma mult_two_le (a b : Z) (e : Z) :
  (a <= b)%Z -> inject_Z a * 2 ^ e <= inject_Z b * 2 ^ e.
Proof.
  intros H. apply Qmult_le_compat_r.
  - rewrite <- Zle_Qle. exact H.
  - apply Qlt_le_weak, two_pos.
Qed.

(** Rounding is monotone (on the non-negative numbers). *)
Lemma rnd_q_mono (x y : Q) : 0 <= x -> x <= y -> rnd_q x <= rnd_q y.
Proof.
  intros Hx H.
  destruct (Qeq_dec x 0) as [Z | NZ].
  { rewrite (rnd_q_zero x Z). apply rnd_q_nonneg. lra. }
  assert (Px : 0 < x) by (apply Qle_lteq in Hx; destruct Hx as [L | E];
                          [exact L | exfalso; apply NZ; symmetry; exact E]).
  assert (Py : 0 < y) by lra.
  pose proof (cexp_mono x y Px H) as Hc.
  rewrite (rnd_q_eq x), (rnd_q_eq y).
  destruct (Z.eq_dec (cexp x) (cexp y)) as [E | N].
  - rewrite E. apply mult_two_le, rne_mono, scaled_le, H.
  - set (l := ilog2 y).
    assert (Hy : cexp y = (l - 52)%Z).
    { pose proof (cexp_emin x). unfold cexp in *. fold l. lia. }
    assert (Hlx : (ilog2 x < l)%Z).
    { pose proof (cexp_ilog2 x). lia. }
    destruct (ilog2_spec x (Qabs_pos_lt x Px)) as [_ X2].
    destruct (ilog2_spec y (Qabs_pos_lt y Py)) as [Y1 _]. fold l in Y1.
    rewrite Qabs_pos in X2, Y1 by lra.
    assert (X3 : x <= 2 ^ l).
    { assert (2 ^ (ilog2 x + 1) <= 2 ^ l) by (apply two_le; lia). lra. }
    apply Qle_trans with (2 ^ l).
    + assert (T : x / 2 ^ cexp x <= inject_Z (2 ^ (l - cexp x))).
      { rewrite two_inject, two_minus by lia. apply scaled_le, X3. }
      apply rne_mono in T. rewrite rne_Z in T.
      apply (mult_two_le _ _ (cexp x)) in T.
      rewrite two_inject, <- two_plus in T by lia.
      replace (l - cexp x + cexp x)%Z with l in T by lia. exact T.
    + assert (T : inject_Z (2 ^ 52) <= y / 2 ^ cexp y).
      { rewrite two_inject by lia. rewrite Hy.
        assert (E : 2 ^ 52 == 2 ^ l / 2 ^ (l - 52)).
        { rewrite <- two_minus. replace (l - (l - 52))%Z with 52%Z by lia.
          reflexivity. }
        rewrite E. apply scaled_le, Y1. }
      apply rne_mono in T. rewrite rne_Z in T.
      apply (mult_two_le _ _ (cexp y)) in T.
      rewrite two_inject, <- two_plus in T by lia.
      replace (52 + cexp y)%Z with l in T by lia. exact T.
Qed.

Lemma dbl_rnd_q (q : Q) : dbl (rnd_q q).
Proof. apply rnd_q_idem. Qed.

Lemma dbl_scaled (k e : Z) :
  (Z.abs k <= 2 ^ 53)%Z -> (emin <= e)%Z -> dbl (inject_Z k * 2 ^ e).
Proof. apply dbl_intro. Qed.

Lemma dbl_Z (k : Z) : (Z.abs k <= 2 ^ 53)%Z -> dbl (inject_Z k).
Proof.
  intros H. unfold dbl.
  assert (E : inject_Z k == inject_Z k * 2 ^ 0) by (change (2 ^ 0) with 1; ring).
  rewrite (rnd_q_comp _ _ E), dbl_intro; [symmetry; exact E | exact H |].
  unfold emin. lia.
Qed.

Lemma Qred_inject_Z (k : Z) : Qred (inject_Z k) = inject_Z k.
Proof.
  unfold Qred, inject_Z.
  pose proof (Z.ggcd_correct_divisors k 1) as G.
  pose proof (Z.ggcd_gcd k 1) as GG. rewrite Z.gcd_1_r in GG.
  destruct (Z.ggcd k 1) as [g [a b]]. simpl in *. subst g.
  destruct G as [G1 G2].
  assert (b = 1%Z) by lia. subst b. f_equal. lia.
Qed.

Lemma rnd_q_Z (k : Z) : (Z.abs k <= 2 ^ 53)%Z -> rnd_q (inject_Z k) = inject_Z k.
Proof.
  intros H. pose proof (dbl_Z k H) as D. unfold dbl in D.
  rewrite rnd_q_eq in D. unfold rnd_q.
  rewrite (Qred_complete _ _ D). apply Qred_inject_Z.
Qed.

(** Above one, the doubles are [2^-52] apart. *)
Lemma dbl_gap_above_one (p : Q) : dbl p -> 1 < p -> 1 + 2 ^ (-52) <= p.
Proof.
  intros D H. 
  assert (T52 : 2 ^ (-52) < 1) by reflexivity.
  destruct (Qlt_le_dec p 2) as [L | G]; [| lra].
  assert (Hl : ilog2 p = 0%Z).
  { apply ilog2_unique; rewrite Qabs_pos by lra.
    - change (2 ^ 0) with 1. lra.
    - change (2 ^ (0 + 1)) with 2. exact L. }
  assert (Hc : cexp p = (-52)%Z) by (unfold cexp; rewrite Hl; reflexivity).
  unfold dbl in D. rewrite rnd_q_eq, Hc in D.
  set (K := rne (p / 2 ^ (-52))) in *.
  assert (HK : (2 ^ 52 < K)%Z).
  { rewrite Zlt_Qlt. 
    assert (E : inject_Z K == p * 2 ^ 52).
    { rewrite <- D. change (2 ^ (-52)) with (/ 2 ^ 52). field. }
    rewrite E. change (inject_Z (2 ^ 52)) with (1 * 2 ^ 52).
    apply Qmult_lt_compat_r; [reflexivity | exact H]. }
  assert (HK' : (2 ^ 52 + 1 <= K)%Z) by lia.
  rewrite Zle_Qle in HK'. rewrite <- D.
  assert (E : 1 + 2 ^ (-52) == inject_Z (2 ^ 52 + 1) * 2 ^ (-52)) by reflexivity.
  rewrite E. apply Qmult_le_compat_r; [exact HK' | discriminate].
Qed.

(** ** Floats within bounds *)

(** Closed comparisons of rationals, by evaluation. *)
Ltac closed_goal :=
  lazymatch goal with
  | |- ?G => assert_fails (idtac; match G with context [?x] => is_var x end)
  end.
Ltac qle :=
  lazymatch goal with
  | |- (_ <= _)%Q => closed_goal; vm_compute; discriminate
  end.
Ltac qlt :=
  lazymatch goal with
  | |- (_ < _)%Q => closed_goal; vm_compute; reflexivity
  end.

Lemma rnd_Finite (q : Q) :
  Qabs (rnd_q q) < 2 ^ 1024 -> rnd q = Finite (rnd_q q).
Proof.
  intros H. unfold rnd.
  destruct (Qle_bool (2 ^ 1024) (Qabs (rnd_q q))) eqn:E; [| reflexivity].
  apply Qle_bool_iff in E. exfalso. apply (Qlt_irrefl (2 ^ 1024)).
  eapply Qle_lt_trans; [exact E | exact H].
Qed.

Lemma rnd_comp (x y : Q) : x == y -> rnd x = rnd y.
Proof. intros E. unfold rnd. rewrite (rnd_q_comp x y E). reflexivity. Qed.

(** Rounding a number between two non-negative bounds. *)
Lemma rnd_bounded (a b lo hi q : Q) :
  a <= q -> q <= b -> 0 <= a ->
  lo <= rnd_q a -> rnd_q b <= hi -> 0 <= lo -> hi < 2 ^ 1024 ->
  bounded lo hi (rnd q).
Proof.
  intros Ha Hb H0 Hlo Hhi Hl Hh.
  assert (M1 : rnd_q a <= rnd_q q) by (apply rnd_q_mono; assumption).
  assert (M2 : rnd_q q <= rnd_q b) by (apply rnd_q_mono; lra).
  exists (rnd_q q). split; [| split; lra].
  apply rnd_Finite. rewrite Qabs_pos by lra. lra.
Qed.

Lemma fadd_bounded (a b c d lo hi : Q) (x y : float) :
  bounded a b x -> bounded c d y -> 0 <= a + c ->
  lo <= rnd_q (a + c) -> rnd_q (b + d) <= hi -> 0 <= lo -> hi < 2 ^ 1024 ->
  bounded lo hi (fadd x y).
Proof.
  intros (p & -> & P1 & P2) (q & -> & Q1 & Q2) H0 Hlo Hhi Hl Hh.
  unfold fadd. apply (rnd_bounded (a + c) (b + d)); try assumption; lra.
Qed.

Lemma fsub_bounded (a b c d lo hi : Q) (x y : float) :
  bounded a b x -> bounded c d y -> 0 <= a - d ->
  lo <= rnd_q (a - d) -> rnd_q (b - c) <= hi -> 0 <= lo -> hi < 2 ^ 1024 ->
  bounded lo hi (fsub x y).
Proof.
  intros (p & -> & P1 & P2) (q & -> & Q1 & Q2) H0 Hlo Hhi Hl Hh.
  unfold fsub, fneg, fadd. pose proof (Qred_correct (- q)) as R.
  apply (rnd_bounded (a - d) (b - c)); try assumption; lra.
Qed.

Lemma is_zero_false (q : Q) : 0 < q -> is_zero q = false.
Proof.
  intros H. unfold is_zero. destruct (Qeq_bool q 0) eqn:E; [| reflexivity].
  apply Qeq_bool_eq in E. lra.
Qed.

Lemma is_neg_false (q : Q) : 0 <= q -> is_neg q = false.
Proof.
  intros H. unfold is_neg. apply Qle_bool_iff in H. rewrite H. reflexivity.
Qed.

Lemma Qdiv_mono (a p q d : Q) :
  0 <= a -> a <= p -> 0 < q -> q <= d -> a / d <= p / q.
Proof.
  intros Ha Hp Hq Hd.
  apply Qle_shift_div_l; [exact Hq |].
  apply Qle_trans with a; [| exact Hp].
  assert (E : a / d * q == a * (q / d)) by (field; lra).
  rewrite E.
  assert (Hqd : q / d <= 1) by (apply Qle_shift_div_r; lra).
  assert (Hqd0 : 0 <= q / d) by (apply Qle_shift_div_l; lra).
  set (t := q / d) in *. nra.
Qed.

Lemma fdiv_bounded (a b c d lo hi : Q) (x y : float) :
  bounded a b x -> bounded c d y -> 0 <= a -> 0 < c ->
  lo <= rnd_q (a / d) -> rnd_q (b / c) <= hi -> 0 <= lo -> hi < 2 ^ 1024 ->
  exists z, fdiv x y = Ok z /\ bounded lo hi z.
Proof.
  intros (p & -> & P1 & P2) (q & -> & Q1 & Q2) H0 Hc Hlo Hhi Hl Hh.
  unfold fdiv. rewrite is_zero_false by lra.
  exists (rnd (p / q)). split; [reflexivity |].
  apply (rnd_bounded (a / d) (b / c)); try assumption.
  - apply Qdiv_mono; lra.
  - apply Qdiv_mono; lra.
  - apply Qle_shift_div_l; lra.
Qed.

Lemma bounded_weaken (a b lo hi : Q) (x : float) :
  bounded a b x -> lo <= a -> b <= hi -> bounded lo hi x.
Proof. intros (q & -> & H1 & H2) Hl Hh. exists q. repeat split; lra. Qed.

Lemma bounded_Finite (q : Q) : bounded q q (Finite q).
Proof. exists q. repeat split; lra. Qed.



Lemma cexp_upper (q : Q) (e : Z) :
  0 < q -> q < 2 ^ (e + 53) -> (emin <= e)%Z -> (cexp q <= e)%Z.
Proof.
  intros Hq H He.
  destruct (ilog2_spec q (Qabs_pos_lt q Hq)) as [S1 _].
  rewrite Qabs_pos in S1 by lra.
  assert (ilog2 q < e + 53)%Z by (apply two_lt_inv; lra).
  unfold cexp. lia.
Qed.

Lemma rnd_q_near (q : Q) (e : Z) :
  0 < q -> q < 2 ^ (e + 53) -> (emin <= e)%Z ->
  q - 2 ^ e / 2 <= rnd_q q /\ rnd_q q <= q + 2 ^ e / 2.
Proof.
  intros Hq H He. pose proof (cexp_upper q e Hq H He) as Hc.
  pose proof (rnd_q_error q) as R. apply Qabs_Qle_condition in R.
  pose proof (two_le _ _ Hc) as T.
  assert (T' : 2 ^ cexp q / 2 <= 2 ^ e / 2).
  { unfold Qdiv. apply Qmult_le_compat_r; [exact T | discriminate]. }
  lra.
Qed.

Lemma lit_eps9 : lit 1e-9 = Finite eps9.
Proof. vm_compute. reflexivity. Qed.





(** ** The rate lookup *)

Lemma scan_row_parse (acc : option float) (row : row_dict) :
  scan_row acc row =
  match parse_cell (cell_of row) with
  | Some r => Some r
  | None => acc
  end.
Proof.
  unfold scan_row, parse_cell. fold (cell_of row).
  destruct (String.eqb (cell_of row) EmptyString); [reflexivity |].
  destruct (float_of_string (cell_of row)); reflexivity.
Qed.

Lemma fold_scan_last (rows : list row_dict) (acc : option float) :
  fold_left scan_row rows acc =
  match last_parsed (map cell_of rows) with
  | Some r => Some r
  | None => acc
  end.
Proof.
  revert acc. induction rows as [| row rows IH]; intros acc; simpl.
  - reflexivity.
  - rewrite IH, scan_row_parse.
    destruct (last_parsed (map cell_of rows)); [reflexivity |].
    destruct (parse_cell (cell_of row)); reflexivity.
Qed.

Lemma latest_uncached (self : ExchangeRates) (w : World) (f : csv_file) :
  cached_usd_cad self = None ->
  files w (csv_path self) = Some f ->
  latest_usd_cad (self, w) =
  if negb (has_column f) then
    (Raise (ValueError ("CSV must contain a " ++ dquote ++ "USD/CAD" ++ dquote
                          ++ " column.")),
     (self, after_open (csv_path self) w))
  else
    match last_parsed (map cell_of (dict_rows f)) with
    | Some r =>
        (Ok r, (mkExchangeRates (csv_path self) (Some r),
                after_open (csv_path self) w))
    | None =>
        (Raise (ValueError "No numeric USD/CAD values found in the CSV."),
         (self, after_open (csv_path self) w))
    end.
Proof.
  intros Hc Hf. unfold latest_usd_cad, mbind, get_self. cbn [fst snd].
  rewrite Hc. unfold open_csv. cbn [fst snd]. rewrite Hf.
  unfold has_column, after_open, raise, ret, set_cached. cbn [fst snd files opened].
  destruct (negb _); [reflexivity |].
  rewrite fold_scan_last.
  destruct (last_parsed (map cell_of (dict_rows f))); reflexivity.
Qed.

Lemma latest_cached (self : ExchangeRates) (w : World) (r : float) :
  cached_usd_cad self = Some r -> latest_usd_cad (self, w) = (Ok r, (self, w)).
Proof.
  intros Hc. unfold latest_usd_cad, mbind, get_self. cbn [fst snd]. rewrite Hc.
  reflexivity.
Qed.

(** C2. On a first lookup in a source of ASCII text, with the [USD/CAD]
    column present, the rate retrieved and memoized is the value of the
    last cell, in file order, that [float] accepts, blank and unparsable
    cells being skipped, and the lookup fails when no cell parses; a
    source with the rows empty, 1.35, abc and 1.37 gives the double
    nearest 1.37. *)
Theorem latest_rate_is_last_parsed :
  (forall (self : ExchangeRates) (w : World) (f : csv_file),
     cached_usd_cad self = None ->
     files w (csv_path self) = Some f ->
     ascii_source f = true ->
     has_column f = true ->
     latest_usd_cad (self, w) =
     match last_parsed (map cell_of (dict_rows f)) with
     | Some r =>
         (Ok r, (mkExchangeRates (csv_path self) (Some r),
                 after_open (csv_path self) w))
     | None =>
         (Raise (ValueError "No numeric USD/CAD values found in the CSV."),
          (self, after_open (csv_path self) w))
     end) /\
  (forall (path : string) (w : World),
     files w path = Some scenario_file ->
     fst (latest_usd_cad (mkExchangeRates path None, w)) = Ok (lit 1.37)).
Proof.
  split.
  - intros self w f Hc Hf _ Hh. rewrite (latest_uncached self w f Hc Hf), Hh.
    reflexivity.
  - intros path w Hf.
    rewrite (latest_uncached (mkExchangeRates path None) w scenario_file
               eq_refl Hf).
    vm_compute. reflexivity.
Qed.

(** ** Conversions with a memoized rate *)

Lemma convert_cached (r : float) (self : ExchangeRates) (w : World) (c : call) :
  cached_usd_cad self = Some r ->
  convert (c_amount c) (c_from c) (c_to c) (self, w) = (converted r c, (self, w)).
Proof.
  intros Hc. unfold convert, converted.
  destruct (negb (is_number (c_amount c))); [reflexivity |].
  destruct (lt_zero (c_amount c)); [reflexivity |].
  set (f := normalize (c_from c)). set (t := normalize (c_to c)).
  destruct (supported f) eqn:Sf; [| reflexivity].
  destruct (supported t) eqn:St; [| reflexivity].
  cbn [negb orb].
  destruct (String.eqb f t) eqn:Eft.
  - unfold mbind, lift, ret. destruct (to_float (c_amount c)); reflexivity.
  - unfold mbind. rewrite (latest_cached self w r Hc).
    unfold supported in Sf, St.
    destruct (String.eqb f "USD") eqn:Fu.
    + apply String.eqb_eq in Fu.
      destruct (String.eqb t "CAD") eqn:Tc.
      * cbn [andb]. unfold lift, ret.
        destruct (to_float (c_amount c)); reflexivity.
      * rewrite orb_false_l in St. apply String.eqb_eq in St.
        rewrite Fu, St in Eft. discriminate.
    + rewrite orb_false_r in Sf. rewrite Sf.
      destruct (String.eqb t "USD") eqn:Tu.
      * cbn [andb]. unfold lift, ret, bind.
        destruct (to_float (c_amount c)); [| reflexivity].
        destruct (fdiv a r); reflexivity.
      * apply String.eqb_eq in Sf. rewrite orb_false_r in St.
        apply String.eqb_eq in St. rewrite Sf, St in Eft. discriminate.
Qed.

Lemma run_cached (r : float) (calls : list call) (self : ExchangeRates)
  (log : list string) :
  cached_usd_cad self = Some r ->
  run calls self log = (map (converted r) calls, self, log).
Proof.
  intros Hc. revert log. induction calls as [| c cs IH]; intros log.
  - reflexivity.
  - cbn [run map]. rewrite (convert_cached r self _ c Hc).
    cbn [opened]. rewrite IH. reflexivity.
Qed.

Lemma convert_same_currency (self : ExchangeRates) (w : World) (amount : pyval)
  (from_currency to_currency : option string) :
  normalize from_currency = normalize to_currency ->
  snd (convert amount from_currency to_currency (self, w)) = (self, w).
Proof.
  intros E. unfold convert.
  destruct (negb (is_number amount)); [reflexivity |].
  destruct (lt_zero amount); [reflexivity |].
  destruct (negb (supported (normalize from_currency))
            || negb (supported (normalize to_currency))); [reflexivity |].
  rewrite E, String.eqb_refl. unfold mbind, lift, ret.
  destruct (to_float amount); reflexivity.
Qed.

(** C3. Once the rate is memoized, every later conversion, whatever the
    file system holds at its time, returns what the stored rate gives,
    leaves the object as it is and opens no file; and a conversion
    between equal currencies never changes the object or opens a file,
    memoized rate or not. *)
Theorem cached_rate_is_final :
  (forall (r : float) (calls : list call) (self : ExchangeRates)
          (log : list string),
     cached_usd_cad self = Some r ->
     run calls self log = (map (converted r) calls, self, log)) /\
  (forall (self : ExchangeRates) (w : World) (amount : pyval)
          (from_currency to_currency : option string),
     normalize from_currency = normalize to_currency ->
     snd (convert amount from_currency to_currency (self, w)) = (self, w)).
Proof.
  split.
  - exact run_cached.
  - exact convert_same_currency.
Qed.

(** With 1.37 memoized and no file at all, 100 USD are 137 CAD and
    100 CAD are 72.99 USD: neither call reads a source. *)
Lemma cached_rate_is_final_witness :
  run [mkCall (PyInt 100) (Some "USD") (Some "CAD") no_files;
       mkCall (PyInt 100) (Some "cad") (Some "usd") no_files]
      (mkExchangeRates "rates.csv" (Some (lit 1.37))) [] =
  ([Ok (Finite 137); Ok (lit 72.99)],
   mkExchangeRates "rates.csv" (Some (lit 1.37)), []).
Proof.
  rewrite (proj1 cached_rate_is_final (lit 1.37)); [| reflexivity].
  vm_compute. reflexivity.
Defined.

Lemma convert_cross (self : ExchangeRates) (w : World) (amount : pyval)
  (from_currency to_currency : option string) :
  cross_call amount from_currency to_currency ->
  convert amount from_currency to_currency (self, w) =
  match latest_usd_cad (self, w) with
  | (Ok rate, s) =>
      (converted rate (mkCall amount from_currency to_currency (files w)), s)
  | (Raise e, s) => (Raise e, s)
  end.
Proof.
  intros (Hn & Hz & Sf & St & Eft). unfold convert, converted. cbn [c_amount c_from c_to].
  rewrite Hn, Hz, Sf, St, Eft. cbn [negb orb]. unfold mbind at 1.
  destruct (latest_usd_cad (self, w)) as [[rate | e] s]; [| reflexivity].
  set (f := normalize from_currency) in *. set (t := normalize to_currency) in *.
  unfold supported in Sf, St.
  destruct (String.eqb f "USD") eqn:Fu.
  - apply String.eqb_eq in Fu.
    destruct (String.eqb t "CAD") eqn:Tc.
    + cbn [andb]. unfold mbind, lift, ret, bind.
      destruct (to_float amount); reflexivity.
    + rewrite orb_false_l in St. apply String.eqb_eq in St.
      rewrite Fu, St in Eft. discriminate.
  - rewrite orb_false_r in Sf. rewrite Sf.
    destruct (String.eqb t "USD") eqn:Tu.
    + cbn [andb]. unfold mbind, lift, ret, bind.
      destruct (to_float amount); [| reflexivity].
      destruct (fdiv a rate); reflexivity.
    + apply String.eqb_eq in Sf. rewrite orb_false_r in St.
      apply String.eqb_eq in St. rewrite Sf, St in Eft. discriminate.
Qed.

(** C6. A source without the [USD/CAD] column and a source without any
    number in that column fail a conversion between the two currencies
    with two different errors; either way the object still has no
    memoized rate, and the next such conversion opens the source again. *)
Theorem lookup_failures_leave_no_rate (self : ExchangeRates) (w : World)
  (f : csv_file) (amount : pyval) (from_currency to_currency : option string) :
  cached_usd_cad self = None ->
  files w (csv_path self) = Some f ->
  cross_call amount from_currency to_currency ->
  (has_column f = false ->
   convert amount from_currency to_currency (self, w) =
   (Raise no_column_error, (self, after_open (csv_path self) w))) /\
  (has_column f = true ->
   last_parsed (map cell_of (dict_rows f)) = None ->
   convert amount from_currency to_currency (self, w) =
   (Raise no_number_error, (self, after_open (csv_path self) w))) /\
  no_column_error <> no_number_error /\
  (forall w2 : World,
     opened (snd (snd (convert amount from_currency to_currency (self, w2)))) =
     (opened w2 ++ [csv_path self])%list).
Proof.
  intros Hc Hf Hx. repeat split.
  - intros Hh. rewrite (convert_cross self w _ _ _ Hx).
    rewrite (latest_uncached self w f Hc Hf), Hh. reflexivity.
  - intros Hh Hl. rewrite (convert_cross self w _ _ _ Hx).
    rewrite (latest_uncached self w f Hc Hf), Hh, Hl. reflexivity.
  - discriminate.
  - intros w2. rewrite (convert_cross self w2 _ _ _ Hx).
    unfold latest_usd_cad, mbind, get_self. cbn [fst snd]. rewrite Hc.
    unfold open_csv. cbn [fst snd].
    destruct (files w2 (csv_path self)) as [f2 |]; [| reflexivity].
    destruct (negb _); [reflexivity |].
    destruct (fold_left scan_row (dict_rows f2) None); reflexivity.
Qed.

(** A source without the column: the conversion raises and the
    calculator still has no rate. *)
Lemma lookup_failures_leave_no_rate_witness :
  convert (PyInt 100) (Some "USD") (Some "CAD")
    (mkExchangeRates "rates.csv" None, bare_world) =
  (Raise no_column_error,
   (mkExchangeRates "rates.csv" None, after_open "rates.csv" bare_world)).
Proof.
  refine (proj1 (lookup_failures_leave_no_rate
                   (mkExchangeRates "rates.csv" None) bare_world bare_file
                   (PyInt 100) (Some "USD") (Some "CAD") eq_refl eq_refl _)
                eq_refl).
  repeat split; reflexivity.
Defined.

(** C10. With a valid amount, a missing or empty currency argument is
    normalized to the empty string and the call fails with the error of
    an unsupported code, the one any other code than CAD and USD gets;
    the object and the world are left as they were. *)
Theorem missing_currency_is_rejected (self : ExchangeRates) (w : World)
  (amount : pyval) (c other : option string) :
  is_number amount = true -> lt_zero amount = false ->
  c = None \/ c = Some EmptyString ->
  normalize c = EmptyString /\
  convert amount c other (self, w) = (Raise unsupported_error, (self, w)) /\
  convert amount other c (self, w) = (Raise unsupported_error, (self, w)) /\
  (forall code : option string,
     supported (normalize code) = false ->
     convert amount code other (self, w) = (Raise unsupported_error, (self, w))).
Proof.
  intros Hn Hz Hc.
  assert (N : normalize c = EmptyString) by (destruct Hc; subst c; reflexivity).
  repeat split.
  - exact N.
  - unfold convert. rewrite Hn, Hz, N. reflexivity.
  - unfold convert. rewrite Hn, Hz, N. cbn [negb].
    rewrite orb_true_r. reflexivity.
  - intros code Hs. unfold convert. rewrite Hn, Hz, Hs. reflexivity.
Qed.

(** A missing source currency is refused before any file is opened. *)
Lemma missing_currency_is_rejected_witness :
  convert (PyInt 5) None (Some "USD")
    (mkExchangeRates "rates.csv" None, bare_world) =
  (Raise unsupported_error, (mkExchangeRates "rates.csv" None, bare_world)).
Proof.
  exact (proj1 (proj2 (missing_currency_is_rejected
                         (mkExchangeRates "rates.csv" None) bare_world
                         (PyInt 5) None (Some "USD")
                         eq_refl eq_refl (or_introl eq_refl)))).
Defined.

(** ** Powers of rationals *)

Lemma Qpower_succ (a : Q) (n : Z) : (0 <= n)%Z -> a ^ (n + 1) == a ^ n * a.
Proof.
  intros H. rewrite Qpower_plus' by lia. rewrite Qpower_1_r. reflexivity.
Qed.

Lemma Qpower_base_mono (a b : Q) (n : Z) :
  0 <= a -> a <= b -> (0 <= n)%Z -> a ^ n <= b ^ n.
Proof.
  intros Ha Hab Hn. revert n Hn. apply natlike_ind.
  - apply Qle_refl.
  - intros n Hn IH. unfold Z.succ. rewrite !Qpower_succ by exact Hn.
    pose proof (Qpower_0_le a n Ha) as P.
    set (x := a ^ n) in *. set (y := b ^ n) in *. nra.
Qed.

Lemma Qpower_exp_mono (a : Q) (n m : Z) :
  1 <= a -> (n <= m)%Z -> a ^ n <= a ^ m.
Proof. intros Ha H. apply Qpower_le_compat_l; assumption. Qed.

(** ** Python's [**] where the calculator uses it *)

Section PowCases.

Variable libm_pow : Q -> Q -> res float.

Lemma float_pow_libm (b e : Q) :
  1 < b -> ~ e == 0 ->
  float_pow libm_pow (Finite b) (Finite e) = libm_pow b e.
Proof.
  intros Hb He. unfold float_pow.
  assert (Z1 : is_zero e = false).
  { unfold is_zero. destruct (Qeq_bool e 0) eqn:E; [| reflexivity].
    apply Qeq_bool_eq in E. contradiction. }
  rewrite Z1, is_zero_false, is_neg_false by lra.
  destruct (Qeq_bool b 1) eqn:E; [| reflexivity].
  apply Qeq_bool_eq in E. lra.
Qed.

Lemma float_pow_one (b e : Q) :
  b == 1 -> ~ e == 0 ->
  float_pow libm_pow (Finite b) (Finite e) = Ok (Finite 1).
Proof.
  intros Hb He. unfold float_pow.
  assert (Z1 : is_zero e = false).
  { unfold is_zero. destruct (Qeq_bool e 0) eqn:E; [| reflexivity].
    apply Qeq_bool_eq in E. contradiction. }
  rewrite Z1, is_zero_false, is_neg_false by lra.
  rewrite (Qeq_eq_bool _ _ Hb). reflexivity.
Qed.

End PowCases.

(** ** The annuity factor of a valid calculator *)

Lemma Qabs_inject_Z (n : Z) : Qabs (inject_Z n) == inject_Z (Z.abs n).
Proof. unfold inject_Z. rewrite <- Zabs_Qabs. reflexivity. Qed.

Lemma of_int_small (n : Z) :
  (Z.abs n <= 2 ^ 53)%Z -> of_int n = Ok (Finite (inject_Z n)).
Proof.
  intros H. unfold of_int. rewrite rnd_Finite; rewrite (rnd_q_Z n H).
  - reflexivity.
  - rewrite Qabs_inject_Z.
    apply Qle_lt_trans with (inject_Z (2 ^ 53)).
    + rewrite <- Zle_Qle. exact H.
    + reflexivity.
Qed.

Lemma inject_Z_nonzero (n : Z) : n <> 0%Z -> ~ inject_Z n == 0.
Proof. intros H E. apply H. unfold Qeq, inject_Z in E. simpl in E. lia. Qed.

Lemma frequency_cases (m : Z) :
  In m frequencies -> m = 12%Z \/ m = 24%Z \/ m = 26%Z \/ m = 52%Z.
Proof.
  unfold frequencies. simpl. intros [H | [H | [H | [H | []]]]]; subst; auto.
Qed.

Lemma recip_exponent (m : Z) :
  In m frequencies ->
  fdiv (Finite 1) (Finite (inject_Z m)) = Ok (Finite (rnd_q (1 / inject_Z m))) /\
  ~ rnd_q (1 / inject_Z m) == 0.
Proof.
  intros H.
  destruct (frequency_cases m H) as [-> | [-> | [-> | ->]]];
    (split; [vm_compute; reflexivity | vm_compute; discriminate]).
Qed.

Section Annuity.

Variable libm_pow : Q -> Q -> res float.
Hypothesis faithful : libm_pow_faithful libm_pow.

Lemma semi_to_effective_annual_bounded (j : float) :
  bounded 0 1 j ->
  exists ear, _semi_to_effective_annual libm_pow j = Ok ear /\ bounded 0 2 ear.
Proof.
  intros Hj. unfold _semi_to_effective_annual.
  destruct (fdiv_bounded 0 1 2 2 0 (1 # 2) j (Finite 2) Hj (bounded_Finite 2))
    as (h & Eh & Hh); try qle; try qlt.
  rewrite Eh. cbn [bind].
  pose proof (fadd_bounded 1 1 0 (1 # 2) 1 (3 # 2) (Finite 1) h
                (bounded_Finite 1) Hh) as Hb.
  specialize (Hb ltac:(qle) ltac:(qle) ltac:(qle) ltac:(qle) ltac:(qlt)).
  destruct Hb as (b & Eb & B1 & B2). rewrite Eb.
  unfold pow_int. rewrite (of_int_small 2) by (vm_compute; discriminate).
  cbn [bind]. change (inject_Z 2) with 2.
  assert (Hs : exists s, float_pow libm_pow (Finite b) (Finite 2) = Ok s /\
                         bounded 1 3 s).
  { destruct (Qeq_dec b 1) as [E1 | N1].
    - rewrite float_pow_one by (try exact E1; discriminate).
      exists (Finite 1). split; [reflexivity |].
      exists 1. repeat split; lra.
    - rewrite float_pow_libm by (try discriminate; lra).
      destruct (pow_square _ faithful b) as (p & Ep & _ & P1 & P2);
        [lra | lra |].
      rewrite Ep. exists (Finite p). split; [reflexivity |].
      exists p. repeat split; [exact P1 |].
      apply Qabs_Qle_condition in P2. destruct P2 as [_ P2].
      assert (Eb2 : b ^ 2 == b * b) by reflexivity.
      assert (Ee : pow_eps == 1 # 1125899906842624) by reflexivity.
      rewrite Eb2, Ee in P2. nra. }
  destruct Hs as (s & Es & Hs). rewrite Es. cbn [bind].
  exists (fsub s (Finite 1)). split; [reflexivity |].
  apply (fsub_bounded 1 3 1 1 0 2 s (Finite 1) Hs (bounded_Finite 1));
    try qle; qlt.
Qed.

Lemma root_upper (m : Z) (p b : Q) :
  (12 <= m)%Z -> 1 <= p -> b <= 3 -> ((1 - pow_eps) * p) ^ m <= b ->
  p <= 11 # 10.
Proof.
  intros Hm Hp Hb H.
  destruct (Qlt_le_dec (11 # 10) p) as [G | L]; [exfalso | exact L].
  set (c := (1 - pow_eps) * (11 # 10)).
  assert (C1 : 1 <= c) by (vm_compute; discriminate).
  assert (C12 : 3 < c ^ 12) by (vm_compute; reflexivity).
  assert (C2 : c ^ 12 <= c ^ m) by (apply Qpower_exp_mono; assumption).
  assert (C3 : c ^ m <= ((1 - pow_eps) * p) ^ m).
  { apply Qpower_base_mono; [lra | | lia].
    unfold c. apply Qmult_le_l; [reflexivity | lra]. }
  lra.
Qed.

Lemma effective_to_periodic_bounded (ear : float) (m : Z) :
  bounded 0 2 ear -> In m frequencies ->
  exists r, _effective_to_periodic libm_pow ear m = Ok (Finite r) /\
            (r = 0 \/ 2 ^ (-52) <= r) /\ r <= 13 # 128.
Proof.
  intros He Hm. unfold _effective_to_periodic.
  assert (Hm12 : (12 <= m <= 52)%Z)
    by (destruct (frequency_cases m Hm) as [-> | [-> | [-> | ->]]]; lia).
  rewrite (of_int_small m) by lia. cbn [bind].
  destruct (recip_exponent m Hm) as [Ey Ny]. rewrite Ey. cbn [bind].
  pose proof (fadd_bounded 1 1 0 2 1 3 (Finite 1) ear (bounded_Finite 1) He) as Hx.
  specialize (Hx ltac:(qle) ltac:(qle) ltac:(qle) ltac:(qle) ltac:(qlt)).
  destruct Hx as (x & Ex & X1 & X2). rewrite Ex.
  destruct (Qeq_dec x 1) as [E1 | N1].
  - rewrite float_pow_one by assumption. cbn [bind].
    exists 0. split; [vm_compute; reflexivity |]. split; [left; reflexivity | qle].
  - rewrite float_pow_libm by (try assumption; lra).
    destruct (pow_root _ faithful m x Hm) as (p & Ep & Dp & P1 & P2 & _);
      [lra | lra |].
    rewrite Ep. cbn [bind].
    assert (P3 : p <= 11 # 10) by (apply (root_upper m p x); try lra; lia).
    unfold fsub, fneg, fadd.
    assert (Em1 : Qred (- (1)) == - (1)) by reflexivity.
    destruct (Qeq_dec p 1) as [Ep1 | Np1].
    + exists 0. split; [| split; [left; reflexivity | qle]].
      assert (E0 : p + Qred (- (1)) == 0) by (rewrite Ep1; reflexivity).
      rewrite (rnd_comp _ _ E0). vm_compute. reflexivity.
    + assert (G : 1 + 2 ^ (-52) <= p) by (apply dbl_gap_above_one; [exact Dp | lra]).
      assert (T : 2 ^ (-52) == 1 # 4503599627370496) by reflexivity.
      destruct (rnd_bounded (2 ^ (-52)) (1 # 10) (2 ^ (-52)) (13 # 128)
                  (p + Qred (- (1)))) as (r & Er & R1 & R2);
        try qle; try qlt; try lra.
      rewrite Er. exists r. split; [reflexivity |]. split; [right; exact R1 | exact R2].
Qed.

Lemma recip_range (b : Q) (n : Z) :
  1 <= b -> b <= 141 # 128 -> (0 <= n <= 5200)%Z -> b ^ n <= 2 ^ 800.
Proof.
  intros H1 H2 Hn.
  apply Qle_trans with (b ^ 5200); [apply Qpower_exp_mono; [exact H1 | lia] |].
  apply Qle_trans with ((141 # 128) ^ 5200);
    [apply Qpower_base_mono; [lra | exact H2 | lia] |].
  change 5200%Z with (13 * 400)%Z. rewrite Qpower_mult.
  change (2 ^ 800) with ((2 ^ 2) ^ 400).
  apply Qpower_base_mono; [| | lia].
  - apply Qpower_0_le. discriminate.
  - vm_compute. discriminate.
Qed.

Lemma pva_positive (r : Q) (n : Z) :
  r = 0 \/ 2 ^ (-52) <= r -> r <= 13 # 128 -> (12 <= n <= 5200)%Z ->
  exists d, _pva libm_pow (Finite r) n = Ok (Finite d) /\ 0 < d.
Proof.
  intros Hr Hr2 Hn. unfold _pva, feqb.
  destruct Hr as [-> | Hr].
  - cbn [Qeq_bool]. rewrite of_int_small by lia.
    exists (inject_Z n). split; [reflexivity |].
    change 0 with (inject_Z 0). rewrite <- Zlt_Qlt. lia.
  - assert (T : 2 ^ (-52) == 1 # 4503599627370496) by reflexivity.
    assert (Hz : Qeq_bool r 0 = false).
    { destruct (Qeq_bool r 0) eqn:E; [| reflexivity].
      apply Qeq_bool_eq in E. lra. }
    rewrite Hz.
    destruct (rnd_bounded (1 + 2 ^ (-52)) (141 # 128) (1 + 2 ^ (-52)) (141 # 128)
                (1 + r)) as (b & Eb & B1 & B2); try qle; try qlt; try lra.
    unfold fadd at 1. rewrite Eb.
    unfold pow_int. rewrite of_int_small by lia. cbn [bind].
    rewrite float_pow_libm by (try lra; apply inject_Z_nonzero; lia).
    destruct (pow_recip _ faithful n b) as (q & Eq & _ & Q1 & Q2);
      [lia | lra | lra | apply recip_range; [lra | lra | lia] |].
    rewrite Eq. cbn [bind].
    assert (HB : 1 + 3 * pow_eps <= b ^ n).
    { apply Qle_trans with ((1 + 2 ^ (-52)) ^ 12); [vm_compute; discriminate |].
      apply Qle_trans with (b ^ 12).
      - apply Qpower_base_mono; [lra | lra | lia].
      - apply Qpower_exp_mono; [lra | lia]. }
    assert (Ee : pow_eps == 1 # 1125899906842624) by reflexivity.
    apply Qabs_Qle_condition in Q2. destruct Q2 as [_ Q2].
    assert (Q3 : q <= 1 - pow_eps).
    { set (B := b ^ n) in *. rewrite Ee in *. nra. }
    assert (Ht : bounded pow_eps 1 (fsub (Finite 1) (Finite q))).
    { apply (fsub_bounded 1 1 0 (1 - pow_eps) pow_eps 1 (Finite 1) (Finite q)
               (bounded_Finite 1)); try qle; try qlt.
      exists q. repeat split; lra. }
    destruct (fdiv_bounded pow_eps 1 (2 ^ (-52)) (141 # 128) (2 ^ (-51)) (2 ^ 52)
                (fsub (Finite 1) (Finite q)) (Finite r) Ht)
      as (z & Ez & d & -> & D1 & D2); try qle; try qlt.
    { exists r. repeat split; lra. }
    rewrite Ez. exists d. split; [reflexivity |].
    assert (0 < 2 ^ (-51)) by reflexivity. lra.
Qed.

(** What a valid calculator divides the principal by, at each frequency,
    is a positive finite number. *)
Lemma payment_factor (self : MortgagePayment) (m : Z) :
  valid_calculator self -> In m frequencies ->
  exists d, 0 < d /\
    forall principal,
      _payment_given_frequency libm_pow self principal m =
      (p <- to_float principal ;; fdiv p (Finite d)).
Proof.
  intros [(rho & Erho & R1 & R2) Hy] Hm. unfold _payment_given_frequency.
  rewrite Erho.
  destruct (fdiv_bounded 0 100 100 100 0 1 (Finite rho) (Finite 100))
    as (j & Ej & Hj); try qle; try qlt; try apply bounded_Finite.
  { exists rho. repeat split; lra. }
  rewrite Ej. cbn [bind].
  destruct (semi_to_effective_annual_bounded j Hj) as (ear & Eear & Hear).
  rewrite Eear. cbn [bind].
  destruct (effective_to_periodic_bounded ear m Hear Hm) as (r & Er & Hr1 & Hr2).
  rewrite Er. cbn [bind].
  assert (Hm12 : (12 <= m <= 52)%Z)
    by (destruct (frequency_cases m Hm) as [-> | [-> | [-> | ->]]]; lia).
  destruct (pva_positive r (m * amort_years self) Hr1 Hr2) as (d & Ed & Hd);
    [nia |].
  rewrite Ed. cbn [bind]. exists d. split; [exact Hd |]. reflexivity.
Qed.

End Annuity.

(** ** Monotonicity of the float operations *)

Lemma rnd_le0 (a b : Q) : 0 <= a -> a <= b -> le0 (rnd a) (rnd b).
Proof.
  intros Ha Hab.
  pose proof (rnd_q_nonneg a Ha) as Na.
  pose proof (rnd_q_mono a b Ha Hab) as M.
  assert (Nb : 0 <= rnd_q b) by lra.
  unfold le0, rnd.
  rewrite !Qabs_pos by assumption.
  apply Qle_bool_iff in Na, Nb. rewrite Na, Nb. cbn [negb].
  apply Qle_bool_iff in Na, Nb.
  destruct (Qle_bool (2 ^ 1024) (rnd_q b)) eqn:Eb.
  - destruct (Qle_bool (2 ^ 1024) (rnd_q a)); simpl; auto.
  - destruct (Qle_bool (2 ^ 1024) (rnd_q a)) eqn:Ea.
    + apply Qle_bool_iff in Ea.
      assert (C : Qle_bool (2 ^ 1024) (rnd_q b) = true)
        by (apply Qle_bool_iff; eapply Qle_trans; [exact Ea | exact M]).
      congruence.
    + simpl. auto.
Qed.

Lemma le0_nonneg_r (x y : float) : le0 x y -> nonneg y.
Proof.
  intros [N L]. destruct x as [a | [] |], y as [b | [] |]; simpl in *;
    try contradiction; auto. lra.
Qed.

Lemma rnd_le0_inf (a : Q) : 0 <= a -> le0 (rnd a) (Inf false).
Proof.
  intros Ha. destruct (rnd_le0 a a Ha) as [Nn _]; [lra |].
  split; [exact Nn |].
  destruct (rnd a) as [c | [] |]; simpl in *; auto.
Qed.

Lemma le0_inf : le0 (Inf false) (Inf false).
Proof. split; exact I. Qed.

Lemma fdiv_le0 (x y : float) (d : Q) :
  0 < d -> le0 x y ->
  exists x' y', fdiv x (Finite d) = Ok x' /\ fdiv y (Finite d) = Ok y' /\
                le0 x' y'.
Proof.
  intros Hd [N L]. unfold fdiv. rewrite is_zero_false by exact Hd.
  rewrite is_neg_false by lra.
  destruct x as [a | [] |], y as [b | [] |]; simpl in N, L; try contradiction.
  - exists (rnd (a / d)), (rnd (b / d)).
    split; [reflexivity |]. split; [reflexivity |].
    apply rnd_le0.
    + apply Qle_shift_div_l; lra.
    + apply Qdiv_mono; lra.
  - exists (rnd (a / d)), (Inf false).
    split; [reflexivity |]. split; [reflexivity |].
    apply rnd_le0_inf. apply Qle_shift_div_l; lra.
  - exists (Inf false), (Inf false).
    split; [reflexivity |]. split; [reflexivity |]. apply le0_inf.
Qed.

Lemma fadd_le0 (x y : float) (e : Q) :
  0 <= e -> le0 x y -> le0 (fadd x (Finite e)) (fadd y (Finite e)).
Proof.
  intros He [N L]. unfold fadd.
  destruct x as [a | [] |], y as [b | [] |]; simpl in N, L; try contradiction.
  - apply rnd_le0; lra.
  - apply rnd_le0_inf. lra.
  - apply le0_inf.
Qed.

Lemma round2_le0 (x y : float) : le0 x y -> le0 (round2 x) (round2 y).
Proof.
  intros [N L]. unfold round2.
  destruct x as [a | [] |], y as [b | [] |]; simpl in N, L; try contradiction.
  - assert (R : (rne (inject_Z 0) <= rne (a * 100))%Z).
    { apply rne_mono. change (inject_Z 0) with 0. lra. }
    rewrite rne_Z in R.
    assert (R2 : (rne (a * 100) <= rne (b * 100))%Z) by (apply rne_mono; lra).
    rewrite Zle_Qle in R, R2. change (inject_Z 0) with 0 in R.
    apply rnd_le0.
    + apply Qle_shift_div_l; [reflexivity | lra].
    + unfold Qdiv. apply Qmult_le_compat_r; [exact R2 | discriminate].
  - assert (R : (rne (inject_Z 0) <= rne (a * 100))%Z).
    { apply rne_mono. change (inject_Z 0) with 0. lra. }
    rewrite rne_Z, Zle_Qle in R. change (inject_Z 0) with 0 in R.
    apply rnd_le0_inf. apply Qle_shift_div_l; [reflexivity | lra].
  - apply le0_inf.
Qed.

Lemma round_eps_le0 (x y : float) : le0 x y -> le0 (round_eps x) (round_eps y).
Proof.
  intros H. unfold round_eps. rewrite lit_eps9.
  apply round2_le0, fadd_le0; [vm_compute; discriminate | exact H].
Qed.

(** ** The six amounts *)

Section Amounts.

Variable libm_pow : Q -> Q -> res float.

(** C7 (amended). The two rapid amounts are the monthly amount before
    its rounding, divided by two and by four, then rounded like every
    amount. *)
Theorem rapid_amounts_from_unrounded_monthly (self : MortgagePayment)
  (principal : pyval) (P : Payments) :
  payments libm_pow self principal = Ok P ->
  exists M h q : float,
    _payment_given_frequency libm_pow self principal 12 = Ok M /\
    monthly P = round_eps M /\
    fdiv M (Finite 2) = Ok h /\ rapid_bi_weekly P = round_eps h /\
    fdiv M (Finite 4) = Ok q /\ rapid_weekly P = round_eps q.
Proof.
  unfold payments.
  destruct (negb (is_number principal)); [discriminate |].
  destruct (lt_zero principal); [discriminate |].
  destruct (_payment_given_frequency libm_pow self principal 12) as [M |] eqn:EM;
    [| discriminate].
  destruct (_payment_given_frequency libm_pow self principal 24); [| discriminate].
  destruct (_payment_given_frequency libm_pow self principal 26); [| discriminate].
  destruct (_payment_given_frequency libm_pow self principal 52); [| discriminate].
  cbn [bind].
  destruct (fdiv M (Finite 2)) as [h |] eqn:Eh; [| discriminate].
  destruct (fdiv M (Finite 4)) as [q |] eqn:Eq; [| discriminate].
  cbn [bind]. intros E. injection E as <-.
  exists M, h, q. repeat split; try reflexivity; assumption.
Qed.

Hypothesis faithful : libm_pow_faithful libm_pow.

Lemma to_float_nonneg (p : pyval) (q : Q) :
  lt_zero p = false -> to_float p = Ok (Finite q) -> 0 <= q.
Proof.
  destruct p as [z | f |]; simpl; intros Hz Hf.
  - unfold of_int in Hf. apply Z.ltb_ge in Hz.
    assert (N : 0 <= rnd_q (inject_Z z)).
    { apply rnd_q_nonneg. change 0 with (inject_Z 0). rewrite <- Zle_Qle. exact Hz. }
    unfold rnd in Hf. destruct (Qle_bool _ _); [discriminate |].
    injection Hf as <-. exact N.
  - injection Hf as ->. simpl in Hz.
    destruct (Qle_bool 0 q) eqn:E; [apply Qle_bool_iff; exact E | discriminate].
  - discriminate.
Qed.

Lemma to_float_number (p : pyval) (x : float) :
  to_float p = Ok x -> is_number p = true.
Proof. destruct p; simpl; intros H; [reflexivity | reflexivity | discriminate]. Qed.

(** The amounts of two principals, at one frequency. *)
Lemma payment_le0 (self : MortgagePayment) (m : Z) (p1 p2 : pyval) (q1 q2 : Q) :
  valid_calculator self -> In m frequencies ->
  to_float p1 = Ok (Finite q1) -> to_float p2 = Ok (Finite q2) ->
  0 <= q1 -> q1 <= q2 ->
  exists x y,
    _payment_given_frequency libm_pow self p1 m = Ok x /\
    _payment_given_frequency libm_pow self p2 m = Ok y /\ le0 x y.
Proof.
  intros Hv Hm E1 E2 H0 H12.
  destruct (payment_factor libm_pow faithful self m Hv Hm) as (d & Hd & Hp).
  rewrite !Hp, E1, E2. cbn [bind].
  apply fdiv_le0; [exact Hd |]. split; simpl; assumption.
Qed.

(** C8 (amended). With the rate and the term fixed, a greater principal
    never gets a smaller amount: each of the six amounts is at least the
    one of the smaller principal. *)
Theorem payments_monotone (self : MortgagePayment) (p1 p2 : pyval) (q1 q2 : Q) :
  valid_calculator self ->
  lt_zero p1 = false -> lt_zero p2 = false ->
  to_float p1 = Ok (Finite q1) -> to_float p2 = Ok (Finite q2) ->
  q1 <= q2 ->
  exists P1 P2,
    payments libm_pow self p1 = Ok P1 /\ payments libm_pow self p2 = Ok P2 /\
    payments_le P1 P2.
Proof.
  intros Hv Z1 Z2 E1 E2 H12.
  pose proof (to_float_nonneg p1 q1 Z1 E1) as H0.
  unfold payments.
  rewrite (to_float_number p1 _ E1), (to_float_number p2 _ E2), Z1, Z2.
  cbn [negb].
  destruct (payment_le0 self 12 p1 p2 q1 q2 Hv) as (a1 & a2 & A1 & A2 & LA);
    try assumption; [unfold frequencies; simpl; auto |].
  destruct (payment_le0 self 24 p1 p2 q1 q2 Hv) as (b1 & b2 & B1 & B2 & LB);
    try assumption; [unfold frequencies; simpl; auto |].
  destruct (payment_le0 self 26 p1 p2 q1 q2 Hv) as (c1 & c2 & C1 & C2 & LC);
    try assumption; [unfold frequencies; simpl; auto |].
  destruct (payment_le0 self 52 p1 p2 q1 q2 Hv) as (d1 & d2 & D1 & D2 & LD);
    try assumption; [unfold frequencies; simpl; auto 6 |].
  rewrite A1, A2, B1, B2, C1, C2, D1, D2. cbn [bind].
  destruct (fdiv_le0 a1 a2 2) as (h1 & h2 & H1 & H2 & LH);
    [reflexivity | exact LA |].
  destruct (fdiv_le0 a1 a2 4) as (k1 & k2 & K1 & K2 & LK);
    [reflexivity | exact LA |].
  rewrite H1, H2, K1, K2. cbn [bind].
  eexists. eexists. split; [reflexivity |]. split; [reflexivity |].
  unfold payments_le.
  cbn [monthly semi_monthly bi_weekly weekly rapid_bi_weekly rapid_weekly].
  repeat split; apply round_eps_le0; assumption.
Qed.

(** C9. A zero principal passes the check on the principal and gets six
    zero amounts, whatever the valid rate and term. *)
Theorem zero_principal_pays_zero (self : MortgagePayment) (principal : pyval) :
  valid_calculator self ->
  principal = PyInt 0 \/ principal = PyFloat (Finite 0) ->
  lt_zero principal = false /\
  payments libm_pow self principal =
  Ok (mkPayments (Finite 0) (Finite 0) (Finite 0) (Finite 0) (Finite 0) (Finite 0)).
Proof.
  intros Hv Hp.
  assert (E : to_float principal = Ok (Finite 0) /\ lt_zero principal = false /\
              is_number principal = true).
  { destruct Hp; subst principal; repeat split; vm_compute; reflexivity. }
  destruct E as (E & Z & N). split; [exact Z |].
  assert (Hm : forall m, In m frequencies ->
             _payment_given_frequency libm_pow self principal m = Ok (Finite 0)).
  { intros m Hm.
    destruct (payment_factor libm_pow faithful self m Hv Hm) as (d & Hd & Hpay).
    rewrite Hpay, E. cbn [bind]. unfold fdiv. rewrite is_zero_false by exact Hd.
    assert (E0 : 0 / d == 0) by (unfold Qdiv; ring).
    rewrite (rnd_comp _ _ E0). vm_compute. reflexivity. }
  unfold payments. rewrite N, Z. cbn [negb].
  rewrite !Hm by (unfold frequencies; simpl; auto 6).
  vm_compute. reflexivity.
Qed.

End Amounts.

(** ** The reference [pow] is faithful *)

(** In the normal range the relative error of a rounding is at most
    [2^-53]. *)
Lemma rnd_q_relative (q : Q) :
  2 ^ (-1022) <= q ->
  q * (1 - 2 ^ (-53)) <= rnd_q q /\ rnd_q q <= q * (1 + 2 ^ (-53)).
Proof.
  intros H. assert (Hq : 0 < q) by (pose proof (two_pos (-1022)); lra).
  destruct (ilog2_spec q (Qabs_pos_lt q Hq)) as [S1 S2].
  rewrite Qabs_pos in S1, S2 by lra.
  assert (Hl : (-1022 <= ilog2 q)%Z).
  { assert (-1022 < ilog2 q + 1)%Z by (apply two_lt_inv; lra). lia. }
  assert (Hc : cexp q = (ilog2 q - 52)%Z) by (unfold cexp, emin; lia).
  pose proof (rnd_q_error q) as R. rewrite Hc in R.
  apply Qabs_Qle_condition in R.
  assert (E : 2 ^ (ilog2 q - 52) / 2 == 2 ^ ilog2 q * 2 ^ (-53)).
  { replace (ilog2 q - 52)%Z with (ilog2 q + (-53) + 1)%Z by lia.
    rewrite two_succ, two_plus. field. }
  rewrite E in R.
  assert (T : 0 < 2 ^ (-53)) by reflexivity.
  set (u := 2 ^ (-53)) in *. set (L := 2 ^ ilog2 q) in *. nra.
Qed.

(** *** Integer roots *)

Lemma iroot_aux_spec (m a : Z) (bits : nat) (r : Z) :
  (0 < m)%Z -> (0 <= r)%Z ->
  (r ^ m <= a)%Z -> (a < (r + 2 ^ Z.of_nat bits) ^ m)%Z ->
  (0 <= iroot_aux m a bits r)%Z /\ (iroot_aux m a bits r ^ m <= a)%Z /\
  (a < (iroot_aux m a bits r + 1) ^ m)%Z.
Proof.
  intros Hm. revert r. induction bits as [| i IH]; intros r Hr H1 H2.
  - simpl in *. auto.
  - cbn [iroot_aux].
    replace (2 ^ Z.of_nat (S i))%Z with (2 * 2 ^ Z.of_nat i)%Z in H2
      by (rewrite Nat2Z.inj_succ, Z.pow_succ_r by lia; reflexivity).
    assert (Hp : (0 < 2 ^ Z.of_nat i)%Z) by (apply Z.pow_pos_nonneg; lia).
    destruct (Z.leb_spec ((r + 2 ^ Z.of_nat i) ^ m) a) as [L | G].
    + apply IH; [lia | exact L |].
      replace (r + 2 ^ Z.of_nat i + 2 ^ Z.of_nat i)%Z
        with (r + 2 * 2 ^ Z.of_nat i)%Z by lia.
      exact H2.
    + apply IH; [exact Hr | exact H1 | exact G].
Qed.

Lemma iroot_spec (m a : Z) :
  (0 < m)%Z -> (0 < a)%Z ->
  (0 <= iroot m a)%Z /\ (iroot m a ^ m <= a)%Z /\ (a < (iroot m a + 1) ^ m)%Z.
Proof.
  intros Hm Ha. unfold iroot. apply iroot_aux_spec; try lia.
  - rewrite Z.pow_0_l by lia. lia.
  - rewrite Z.add_0_l.
    assert (Hl : (0 <= Z.log2 a)%Z) by apply Z.log2_nonneg.
    assert (Hd : (0 <= Z.log2 a / m)%Z) by (apply Z.div_pos; lia).
    rewrite Z2Nat.id by lia.
    rewrite <- Z.pow_mul_r by lia.
    destruct (Z.log2_spec a Ha) as [_ S2].
    eapply Z.lt_le_trans; [exact S2 |].
    apply Z.pow_le_mono_r; [lia |].
    pose proof (Z.mul_succ_div_gt (Z.log2 a) m Hm). lia.
Qed.

Lemma scaled_power (R m : Z) :
  (0 <= m)%Z ->
  (inject_Z R * 2 ^ (-64)) ^ m == inject_Z (R ^ m) * 2 ^ (-64 * m).
Proof.
  intros Hm. rewrite Qmult_power, Zpower_Qpower, Qpower_mult by exact Hm.
  reflexivity.
Qed.

Lemma root_q_spec (m : Z) (b : Q) :
  (12 <= m <= 52)%Z -> 1 < b -> b <= 4 ->
  1 <= root_q m b /\ root_q m b <= 4 /\
  root_q m b ^ m <= b /\ b < (root_q m b + 2 ^ (-64)) ^ m.
Proof.
  intros Hm H1 H4. unfold root_q.
  assert (Hb0 : 0 < b) by lra.
  destruct (ilog2_spec b (Qabs_pos_lt b Hb0)) as [S1 S2].
  rewrite Qabs_pos in S1, S2 by lra.
  assert (Hl : (0 <= ilog2 b <= 2)%Z).
  { split.
    - assert (0 < ilog2 b + 1)%Z; [| lia].
      apply two_lt_inv. change (2 ^ 0) with 1. lra.
    - assert (ilog2 b < 3)%Z; [| lia].
      apply two_lt_inv. change (2 ^ 3) with 8. lra. }
  rewrite (Z.div_small (ilog2 b) m) by lia.
  change (64 - 0)%Z with 64%Z.
  set (s := 2 ^ (64 * m)).
  assert (Hs : 0 < s) by apply two_pos.
  assert (Hs1 : inject_Z (2 ^ (64 * m)) == s) by (apply two_inject; lia).
  set (a := Qfloor (b * s)).
  destruct (floor_bounds (b * s)) as [F1 F2]. fold a in F1, F2.
  assert (Ha : (2 ^ (64 * m) <= a)%Z).
  { unfold a. rewrite <- (Qfloor_Z (2 ^ (64 * m))).
    apply Qfloor_resp_le. rewrite Hs1. nra. }
  assert (Hp : (0 < 2 ^ (64 * m))%Z) by (apply Z.pow_pos_nonneg; lia).
  destruct (iroot_spec m a) as (R0 & R1 & R2); [lia | lia |].
  set (R := iroot m a) in *.
  assert (HR : (2 ^ 64 <= R)%Z).
  { assert (((2 ^ 64) ^ m < (R + 1) ^ m)%Z).
    { rewrite <- Z.pow_mul_r by lia. lia. }
    apply Z.pow_lt_mono_l_iff in H; lia. }
  assert (Es : 2 ^ (-64 * m) * s == 1).
  { unfold s. rewrite <- two_plus. replace (-64 * m + 64 * m)%Z with 0%Z by lia.
    reflexivity. }
  assert (Es0 : 0 < 2 ^ (-64 * m)) by apply two_pos.
  assert (T1 : 1 <= inject_Z R * 2 ^ (-64)).
  { assert (E : 1 == inject_Z (2 ^ 64) * 2 ^ (-64)) by reflexivity.
    rewrite E. apply Qmult_le_compat_r; [| discriminate].
    rewrite <- Zle_Qle. exact HR. }
  assert (T3 : (inject_Z R * 2 ^ (-64)) ^ m <= b).
  { rewrite scaled_power by lia.
    rewrite Zle_Qle in R1.
    set (u := 2 ^ (-64 * m)) in *. set (P := inject_Z (R ^ m)) in *.
    set (A := inject_Z a) in *. nra. }
  assert (T4 : b < (inject_Z R * 2 ^ (-64) + 2 ^ (-64)) ^ m).
  { assert (E : inject_Z R * 2 ^ (-64) + 2 ^ (-64) == inject_Z (R + 1) * 2 ^ (-64)).
    { rewrite inject_Z_plus. change (inject_Z 1) with 1. ring. }
    rewrite E, scaled_power by lia.
    assert (R3 : (a + 1 <= (R + 1) ^ m)%Z) by lia.
    rewrite Zle_Qle, inject_Z_plus in R3. change (inject_Z 1) with 1 in R3.
    set (u := 2 ^ (-64 * m)) in *. set (P := inject_Z ((R + 1) ^ m)) in *.
    set (A := inject_Z a) in *. nra. }
  repeat split; try assumption.
  apply Qle_trans with ((inject_Z R * 2 ^ (-64)) ^ m); [| lra].
  apply Qle_trans with ((inject_Z R * 2 ^ (-64)) ^ 1).
  - rewrite Qpower_1_r. apply Qle_refl.
  - apply Qpower_exp_mono; [exact T1 | lia].
Qed.

Lemma libm_pow_ref_root (b e : Q) (m : Z) :
  is_integer e = false -> recip_of e = Some m ->
  libm_pow_ref b e = Ok (rnd (root_q m b)).
Proof. intros H1 H2. unfold libm_pow_ref. rewrite H1, H2. reflexivity. Qed.

Lemma libm_pow_ref_integer (b : Q) (k : Z) (p : Q) :
  rnd (b ^ k) = Finite p -> libm_pow_ref b (inject_Z k) = Ok (Finite p).
Proof.
  intros H. unfold libm_pow_ref, is_integer. rewrite Qred_inject_Z.
  cbn [Qden Qnum inject_Z Pos.eqb]. rewrite H. reflexivity.
Qed.

Lemma rnd_q_one : rnd_q 1 = 1.
Proof. vm_compute. reflexivity. Qed.

(** A rounding of a number between one and [2^1000]. *)
Lemma rnd_normal (v : Q) :
  2 ^ (-1022) <= v -> v <= 2 ^ 1000 ->
  rnd v = Finite (rnd_q v) /\ dbl (rnd_q v) /\
  v * (1 - 2 ^ (-53)) <= rnd_q v /\ rnd_q v <= v * (1 + 2 ^ (-53)).
Proof.
  intros H1 H2. destruct (rnd_q_relative v H1) as [R1 R2].
  assert (T0 : 0 < 2 ^ (-1022)) by reflexivity.
  assert (T1 : 2 ^ (-53) == 1 # 9007199254740992) by reflexivity.
  assert (T2 : 2 * 2 ^ 1000 < 2 ^ 1024) by reflexivity.
  repeat split; try assumption; [| apply dbl_rnd_q].
  apply rnd_Finite.
  set (A := 2 ^ 1000) in *. set (B := 2 ^ 1024) in *. set (u := 2 ^ (-53)) in *.
  rewrite Qabs_pos by nra. nra.
Qed.

Lemma libm_pow_ref_faithful : libm_pow_faithful libm_pow_ref.
Proof.
  assert (Ee : pow_eps == 1 # 1125899906842624) by reflexivity.
  assert (Eu : 2 ^ (-53) == 1 # 9007199254740992) by reflexivity.
  assert (T0 : 2 ^ (-1022) < 1 # 2) by reflexivity.
  assert (T1 : 4 < 2 ^ 1000) by reflexivity.
  split.
  - intros b H1 H2.
    assert (Eb2 : b ^ 2 == b * b) by reflexivity.
    destruct (rnd_normal (b ^ 2)) as (F & D & R1 & R2); [nra | nra |].
    exists (rnd_q (b ^ 2)). split; [| split; [exact D | split]].
    + apply (libm_pow_ref_integer b 2). exact F.
    + rewrite <- rnd_q_one. apply rnd_q_mono; nra.
    + apply Qabs_Qle_condition. set (v := b ^ 2) in *. set (p := rnd_q v) in *.
      rewrite Ee, Eu in *. nra.
  - intros m b Hm H1 H4.
    assert (Hm12 : (12 <= m <= 52)%Z)
      by (destruct (frequency_cases m Hm) as [-> | [-> | [-> | ->]]]; lia).
    assert (Href : libm_pow_ref b (rnd_q (1 / inject_Z m)) =
                   Ok (rnd (root_q m b))).
    { destruct (frequency_cases m Hm) as [-> | [-> | [-> | ->]]];
        apply libm_pow_ref_root; vm_compute; reflexivity. }
    destruct (root_q_spec m b Hm12 H1 H4) as (S1 & S2 & S3 & S4).
    set (t := root_q m b) in *.
    destruct (rnd_normal t) as (F & D & R1 & R2); [lra | lra |].
    set (p := rnd_q t) in *.
    assert (P1 : 1 <= p).
    { unfold p. rewrite <- rnd_q_one. apply rnd_q_mono; lra. }
    exists p. split; [| split; [exact D | split; [exact P1 | split]]].
    + rewrite Href, F. reflexivity.
    + apply Qle_trans with (t ^ m); [| exact S3].
      apply Qpower_base_mono; [| | lia]; rewrite ?Ee, ?Eu in *; nra.
    + apply Qle_trans with ((t + 2 ^ (-64)) ^ m); [lra |].
      assert (E64 : 2 ^ (-64) == 1 # 18446744073709551616) by reflexivity.
      apply Qpower_base_mono; [| | lia]; rewrite ?Ee, ?Eu, ?E64 in *; nra.
  - intros n b Hn H1 H2 HB.
    set (B := b ^ n) in *. set (v := b ^ (- n)).
    assert (Ev : v * B == 1).
    { unfold v, B. rewrite Qpower_opp. field.
      apply Qpower_not_0. lra. }
    assert (B1 : 1 < B) by (apply Qpower_1_lt; [exact H1 | lia]).
    assert (T8 : 2 ^ (-800) * 2 ^ 800 == 1) by reflexivity.
    assert (T9 : 0 < 2 ^ (-800)) by reflexivity.
    assert (T10 : 2 ^ (-1022) < 2 ^ (-800)) by reflexivity.
    assert (V1 : 2 ^ (-800) <= v).
    { set (s := 2 ^ (-800)) in *. set (S := 2 ^ 800) in *. nra. }
    assert (V2 : v < 1) by nra.
    destruct (rnd_normal v) as (F & D & R1 & R2); [lra | lra |].
    set (p := rnd_q v) in *.
    exists p. split; [| split; [exact D | split]].
    + apply libm_pow_ref_integer. exact F.
    + rewrite Eu in *. nra.
    + apply Qabs_Qle_condition. rewrite Ee, Eu in *. nra.
Qed.

(** ** Enclosures of the amounts of one calculator *)

Section Enclosure.

Variable libm_pow : Q -> Q -> res float.
Hypothesis faithful : libm_pow_faithful libm_pow.

Lemma square_enclosure (j h : float) (b sl sh el eh : Q) :
  fdiv j (Finite 2) = Ok h -> fadd (Finite 1) h = Finite b ->
  1 < b -> b <= 2 ->
  sl <= b ^ 2 * (1 - pow_eps) -> b ^ 2 * (1 + pow_eps) <= sh ->
  el <= rnd_q (sl - 1) -> rnd_q (sh - 1) <= eh -> 0 <= sl - 1 -> 0 <= el ->
  eh < 2 ^ 1024 ->
  exists ear, _semi_to_effective_annual libm_pow j = Ok ear /\ bounded el eh ear.
Proof.
  intros Hh Hb H1 H2 S1 S2 E1 E2 S0 E0 Eh. unfold _semi_to_effective_annual.
  rewrite Hh. cbn [bind]. rewrite Hb.
  unfold pow_int. rewrite (of_int_small 2) by (vm_compute; discriminate).
  cbn [bind]. change (inject_Z 2) with 2.
  rewrite float_pow_libm by (try discriminate; lra).
  destruct (pow_square _ faithful b H1 H2) as (p & Ep & _ & P1 & P2).
  rewrite Ep. cbn [bind]. exists (fsub (Finite p) (Finite 1)).
  split; [reflexivity |].
  apply Qabs_Qle_condition in P2.
  apply (fsub_bounded sl sh 1 1 el eh (Finite p) (Finite 1));
    try assumption; try apply bounded_Finite.
  exists p. repeat split; lra.
Qed.

Lemma root_enclosure (m : Z) (x p xl xh L H : Q) :
  (0 <= m)%Z -> xl <= x -> x <= xh -> 0 < L -> 0 < H -> 0 < p ->
  L ^ m < xl -> xh < H ^ m ->
  ((1 - pow_eps) * p) ^ m <= x -> x <= ((1 + pow_eps) * p) ^ m ->
  L <= (1 + pow_eps) * p /\ (1 - pow_eps) * p <= H.
Proof.
  intros Hm X1 X2 HL HH Hp L1 H1 P1 P2.
  assert (Ee : pow_eps == 1 # 1125899906842624) by reflexivity.
  split.
  - destruct (Qlt_le_dec ((1 + pow_eps) * p) L) as [C | C]; [exfalso | exact C].
    assert (M : ((1 + pow_eps) * p) ^ m <= L ^ m).
    { apply Qpower_base_mono; [| lra | exact Hm]. rewrite Ee. nra. }
    lra.
  - destruct (Qlt_le_dec H ((1 - pow_eps) * p)) as [C | C]; [exfalso | exact C].
    assert (M : H ^ m <= ((1 - pow_eps) * p) ^ m).
    { apply Qpower_base_mono; [lra | lra | exact Hm]. }
    lra.
Qed.

Lemma periodic_enclosure (m : Z) (ear : float) (el eh xl xh L H pl ph rl rh : Q) :
  In m frequencies -> bounded el eh ear -> 0 <= el ->
  xl <= rnd_q (1 + el) -> rnd_q (1 + eh) <= xh -> 1 < xl -> xh <= 4 ->
  0 < L -> 0 < H -> L ^ m < xl -> xh < H ^ m ->
  pl * (1 + pow_eps) <= L -> H <= ph * (1 - pow_eps) -> 1 < pl ->
  rl <= rnd_q (pl - 1) -> rnd_q (ph - 1) <= rh -> 0 < rl -> rh < 2 ^ 1024 ->
  exists r, _effective_to_periodic libm_pow ear m = Ok (Finite r) /\
            rl <= r /\ r <= rh.
Proof.
  intros Hm He E0 X1 X2 X3 X4 HL HH L1 H1 P1 P2 P3 R1 R2 R3 R4.
  unfold _effective_to_periodic.
  assert (Ee : pow_eps == 1 # 1125899906842624) by reflexivity.
  assert (Hm12 : (12 <= m <= 52)%Z)
    by (destruct (frequency_cases m Hm) as [-> | [-> | [-> | ->]]]; lia).
  rewrite (of_int_small m) by lia. cbn [bind].
  destruct (recip_exponent m Hm) as [Ey Ny]. rewrite Ey. cbn [bind].
  assert (T : 4 < 2 ^ 1024) by reflexivity.
  destruct (fadd_bounded 1 1 el eh xl xh (Finite 1) ear (bounded_Finite 1) He)
    as (x & Ex & Hx1 & Hx2); try assumption; try lra.
  rewrite Ex. rewrite float_pow_libm by (try assumption; lra).
  destruct (pow_root _ faithful m x Hm) as (p & Ep & _ & Q1 & Q2 & Q3);
    [lra | lra |].
  rewrite Ep. cbn [bind].
  destruct (root_enclosure m x p xl xh L H) as [B1 B2]; try assumption;
    try lra; try lia.
  assert (Hp : bounded pl ph (Finite p)).
  { exists p. split; [reflexivity |]. rewrite Ee in *. split; nra. }
  destruct (fsub_bounded pl ph 1 1 rl rh (Finite p) (Finite 1) Hp
              (bounded_Finite 1)) as (r & Er & Hr1 & Hr2);
    try assumption; try lra.
  rewrite Er. exists r. split; [reflexivity | split; assumption].
Qed.

Lemma pva_enclosure (m years : Z) (r rl rh bl bh Xl Xh Bl Bh ql qh tl th dl dh : Q) :
  (1 <= m)%Z -> (1 <= years)%Z -> (m * years <= 5200)%Z ->
  rl <= r -> r <= rh -> 0 < rl ->
  bl <= rnd_q (1 + rl) -> rnd_q (1 + rh) <= bh -> 1 < bl -> bh <= 141 # 128 ->
  Xl <= bl ^ m -> bh ^ m <= Xh -> 0 < Xl ->
  Bl <= Xl ^ years -> Xh ^ years <= Bh -> 0 < Bl ->
  ql * Bh <= 1 - pow_eps -> 1 + pow_eps <= qh * Bl -> 0 <= ql -> qh < 1 ->
  tl <= rnd_q (1 - qh) -> rnd_q (1 - ql) <= th -> 0 < tl -> th < 2 ^ 1024 ->
  dl <= rnd_q (tl / rh) -> rnd_q (th / rl) <= dh -> 0 < dl -> dh < 2 ^ 1024 ->
  exists d, _pva libm_pow (Finite r) (m * years) = Ok (Finite d) /\
            dl <= d /\ d <= dh.
Proof.
  intros Hm Hy Hn R1 R2 R3 B1 B2 B3 B4 X1 X2 X3 BB1 BB2 BB3 Q1 Q2 Q3 Q4
         T1 T2 T3 T4 D1 D2 D3 D4.
  assert (Ee : pow_eps == 1 # 1125899906842624) by reflexivity.
  assert (T : (141 # 128) < 2 ^ 1024) by reflexivity.
  assert (T' : 1 < 2 ^ 1024) by reflexivity.
  unfold _pva, feqb.
  assert (Hz : Qeq_bool r 0 = false).
  { destruct (Qeq_bool r 0) eqn:E; [| reflexivity].
    apply Qeq_bool_eq in E. lra. }
  rewrite Hz.
  destruct (rnd_bounded (1 + rl) (1 + rh) bl bh (1 + r)) as (b & Eb & Hb1 & Hb2);
    try assumption; try lra.
  unfold fadd at 1. rewrite Eb.
  assert (Hn1 : (1 <= m * years)%Z) by nia.
  unfold pow_int. rewrite of_int_small by lia. cbn [bind].
  rewrite float_pow_libm by (try lra; apply inject_Z_nonzero; lia).
  destruct (pow_recip _ faithful (m * years) b) as (q & Eq & _ & Qp & Qa);
    [lia | lra | lra | apply recip_range; [lra | lra | lia] |].
  rewrite Eq. cbn [bind].
  assert (HB : Bl <= b ^ (m * years) /\ b ^ (m * years) <= Bh).
  { rewrite Qpower_mult. split.
    - apply Qle_trans with (Xl ^ years); [exact BB1 |].
      apply Qpower_base_mono; [lra | | lia].
      apply Qle_trans with (bl ^ m); [exact X1 |].
      apply Qpower_base_mono; [lra | lra | lia].
    - apply Qle_trans with (Xh ^ years); [| exact BB2].
      apply Qpower_base_mono; [apply Qpower_0_le; lra | | lia].
      apply Qle_trans with (bh ^ m); [| exact X2].
      apply Qpower_base_mono; [lra | lra | lia]. }
  destruct HB as [HB1 HB2]. set (B := b ^ (m * years)) in *.
  apply Qabs_Qle_condition in Qa. destruct Qa as [Qa1 Qa2].
  assert (Hq : bounded ql qh (Finite q)).
  { exists q. split; [reflexivity |]. rewrite Ee in *. split; nra. }
  assert (Ht : bounded tl th (fsub (Finite 1) (Finite q))).
  { apply (fsub_bounded 1 1 ql qh tl th (Finite 1) (Finite q)
             (bounded_Finite 1) Hq); try assumption; try lra. }
  destruct (fdiv_bounded tl th rl rh dl dh (fsub (Finite 1) (Finite q)) (Finite r) Ht)
    as (z & Ez & d & -> & Hd1 & Hd2); try assumption; try lra.
  { exists r. repeat split; lra. }
  rewrite Ez. exists d. split; [reflexivity | split; assumption].
Qed.

End Enclosure.

Section Scenario.

Variable libm_pow : Q -> Q -> res float.
Hypothesis faithful : libm_pow_faithful libm_pow.

(** One amount of a calculator, from an enclosure of its effective
    annual rate: the bounds of each step are checked by evaluation. *)
Lemma payment_enclosure (self : MortgagePayment) (principal : pyval)
  (j ear : float) (m : Z) (P : Q)
  (el eh xl xh L H pl ph rl rh bl bh Xl Xh Bl Bh ql qh tl th dl dh lo hi : Q) :
  fdiv (quoted_rate_pct self) (Finite 100) = Ok j ->
  _semi_to_effective_annual libm_pow j = Ok ear ->
  bounded el eh ear ->
  In m frequencies -> (1 <= amort_years self <= 100)%Z ->
  to_float principal = Ok (Finite P) -> 0 <= P ->
  0 <= el ->
  xl <= rnd_q (1 + el) -> rnd_q (1 + eh) <= xh -> 1 < xl -> xh <= 4 ->
  0 < L -> 0 < H -> L ^ m < xl -> xh < H ^ m ->
  pl * (1 + pow_eps) <= L -> H <= ph * (1 - pow_eps) -> 1 < pl ->
  rl <= rnd_q (pl - 1) -> rnd_q (ph - 1) <= rh -> 0 < rl -> rh < 2 ^ 1024 ->
  bl <= rnd_q (1 + rl) -> rnd_q (1 + rh) <= bh -> 1 < bl -> bh <= 141 # 128 ->
  Xl <= bl ^ m -> bh ^ m <= Xh -> 0 < Xl ->
  Bl <= Xl ^ amort_years self -> Xh ^ amort_years self <= Bh -> 0 < Bl ->
  ql * Bh <= 1 - pow_eps -> 1 + pow_eps <= qh * Bl -> 0 <= ql -> qh < 1 ->
  tl <= rnd_q (1 - qh) -> rnd_q (1 - ql) <= th -> 0 < tl -> th < 2 ^ 1024 ->
  dl <= rnd_q (tl / rh) -> rnd_q (th / rl) <= dh -> 0 < dl -> dh < 2 ^ 1024 ->
  lo <= rnd_q (P / dh) -> rnd_q (P / dl) <= hi -> 0 <= lo -> hi < 2 ^ 1024 ->
  exists v, _payment_given_frequency libm_pow self principal m = Ok v /\
            bounded lo hi v.
Proof.
  intros Ej Eear Hear Hm Hy EP HP.
  intros E0 X1 X2 X3 X4 HL HH L1 H1 P1 P2 P3 R1 R2 R3 R4.
  intros B1 B2 B3 B4 XX1 XX2 XX3 BB1 BB2 BB3 Q1 Q2 Q3 Q4 T1 T2 T3 T4.
  intros D1 D2 D3 D4 V1 V2 V3 V4.
  unfold _payment_given_frequency. rewrite Ej. cbn [bind]. rewrite Eear.
  cbn [bind].
  destruct (periodic_enclosure libm_pow faithful m ear el eh xl xh L H pl ph rl rh)
    as (r & Er & Hr1 & Hr2); try assumption.
  rewrite Er. cbn [bind].
  assert (Hm12 : (12 <= m <= 52)%Z)
    by (destruct (frequency_cases m Hm) as [-> | [-> | [-> | ->]]]; lia).
  destruct (pva_enclosure libm_pow faithful m (amort_years self) r rl rh bl bh
              Xl Xh Bl Bh ql qh tl th dl dh)
    as (d & Ed & Hd1 & Hd2); try assumption; try lia; try nia.
  rewrite Ed. cbn [bind]. rewrite EP. cbn [bind].
  apply (fdiv_bounded P P dl dh lo hi (Finite P) (Finite d));
    try assumption; try apply bounded_Finite.
  exists d. repeat split; assumption.
Qed.

End Scenario.

Section ScenarioValues.

Variable libm_pow : Q -> Q -> res float.
Hypothesis faithful : libm_pow_faithful libm_pow.

Lemma scenario_ear :
  exists j ear,
    fdiv (quoted_rate_pct scenario_calculator) (Finite 100) = Ok j /\
    _semi_to_effective_annual libm_pow j = Ok ear /\
    bounded 0.055756249999999 0.055756250000002 ear.
Proof.
  lazymatch eval vm_compute in
    (fdiv (quoted_rate_pct scenario_calculator) (Finite 100)) with
  | Ok ?j =>
      lazymatch eval vm_compute in (fdiv j (Finite 2)) with
      | Ok ?h =>
          lazymatch eval vm_compute in (fadd (Finite 1) h) with
          | Finite ?b =>
              destruct (square_enclosure libm_pow faithful j h b
                          1.055756249999999 1.055756250000002
                          0.055756249999999 0.055756250000002)
                as (ear & Eear & Hear);
              [vm_compute; reflexivity | vm_compute; reflexivity
              | qlt | qle | qle | qle | qle | qle | qle | qle | qlt |];
              exists j, ear; split; [vm_compute; reflexivity | split; assumption]
          end
      end
  end.
Qed.

Lemma scenario_monthly (principal : pyval) :
  to_float principal = Ok (Finite 100000) ->
  exists v, _payment_given_frequency libm_pow scenario_calculator
              principal 12 = Ok v /\
            bounded 610.391482663 610.391482665 v.
Proof.
  intros EP. destruct scenario_ear as (j & ear & Ej & Eear & Hear).
  apply (payment_enclosure libm_pow faithful scenario_calculator
           principal j ear 12 100000
           0.055756249999999 0.055756250000002 1.055756249999999 1.055756250000002 1.004531681718275 1.004531681718279 1.004531681718274 1.004531681718280 0.00453168171827400 0.00453168171828000 1.004531681718273 1.004531681718280 1.055756249999950 1.055756250000039 3.8823217716028 3.8823217716111 0.257577825545618 0.257577825546170 0.742422174453829 0.742422174454382 163.82928471322 163.82928471357 610.391482663 610.391482665);
    try assumption; try qle; try qlt.
  - unfold frequencies. simpl. auto 6.
  - simpl. lia.
Qed.

Lemma scenario_semi_monthly (principal : pyval) :
  to_float principal = Ok (Finite 100000) ->
  exists v, _payment_given_frequency libm_pow scenario_calculator
              principal 24 = Ok v /\
            bounded 304.850760071 304.850760074 v.
Proof.
  intros EP. destruct scenario_ear as (j & ear & Ej & Eear & Hear).
  apply (payment_enclosure libm_pow faithful scenario_calculator
           principal j ear 24 100000
           0.055756249999999 0.055756250000002 1.055756249999999 1.055756250000002 1.002263279641768 1.002263279641772 1.002263279641767 1.002263279641773 0.00226327964176700 0.00226327964177301 1.002263279641766 1.002263279641773 1.055756249999897 1.055756250000075 3.8823217715979 3.8823217716144 0.257577825545399 0.257577825546495 0.742422174453505 0.742422174454602 328.02936091092 328.02936091228 304.850760071 304.850760074);
    try assumption; try qle; try qlt.
  - unfold frequencies. simpl. auto 6.
  - simpl. lia.
Qed.

Lemma scenario_bi_weekly (principal : pyval) :
  to_float principal = Ok (Finite 100000) ->
  exists v, _payment_given_frequency libm_pow scenario_calculator
              principal 26 = Ok v /\
            bounded 281.376225772 281.376225774 v.
Proof.
  intros EP. destruct scenario_ear as (j & ear & Ej & Eear & Hear).
  apply (payment_enclosure libm_pow faithful scenario_calculator
           principal j ear 26 100000
           0.055756249999999 0.055756250000002 1.055756249999999 1.055756250000002 1.002088999493780 1.002088999493783 1.002088999493779 1.002088999493784 0.00208899949377900 0.00208899949378401 1.002088999493778 1.002088999493785 1.055756249999912 1.055756250000105 3.8823217715993 3.8823217716172 0.257577825545213 0.257577825546402 0.742422174453598 0.742422174454787 355.39605282946 355.39605283090 281.376225772 281.376225774);
    try assumption; try qle; try qlt.
  - unfold frequencies. simpl. auto 6.
  - simpl. lia.
Qed.

Lemma scenario_weekly (principal : pyval) :
  to_float principal = Ok (Finite 100000) ->
  exists v, _payment_given_frequency libm_pow scenario_calculator
              principal 52 = Ok v /\
            bounded 140.614715180 140.614715182 v.
Proof.
  intros EP. destruct scenario_ear as (j & ear & Ej & Eear & Hear).
  apply (payment_enclosure libm_pow faithful scenario_calculator
           principal j ear 52 100000
           0.055756249999999 0.055756250000002 1.055756249999999 1.055756250000002 1.001043954826050 1.001043954826053 1.001043954826049 1.001043954826054 0.00104395482604899 0.00104395482605401 1.001043954826049 1.001043954826054 1.055756249999880 1.055756250000155 3.8823217715964 3.8823217716218 0.257577825544908 0.257577825546594 0.742422174453405 0.742422174455092 711.16312308229 711.16312308734 140.614715180 140.614715182);
    try assumption; try qle; try qlt.
  - unfold frequencies. simpl. auto 6.
  - simpl. lia.
Qed.

Lemma round2_canonical (x : float) (r : Q) : round2 x = Finite r -> Qred r = r.
Proof.
  destruct x as [a | |]; simpl; try discriminate.
  unfold rnd. destruct (Qle_bool _ _); [discriminate |].
  intros E. injection E as <-. unfold rnd_q. apply Qred_complete, Qred_correct.
Qed.

Lemma round_eps_squeeze (lo hi c : Q) (v : float) :
  bounded lo hi v -> 0 <= lo ->
  round_eps (Finite lo) = Finite c -> round_eps (Finite hi) = Finite c ->
  round_eps v = Finite c.
Proof.
  intros (q & -> & H1 & H2) H0 El Eh.
  assert (A : le0 (round_eps (Finite lo)) (round_eps (Finite q))).
  { apply round_eps_le0. split; simpl; assumption. }
  assert (B : le0 (round_eps (Finite q)) (round_eps (Finite hi))).
  { apply round_eps_le0. split; simpl; lra. }
  rewrite El in A. rewrite Eh in B.
  pose proof (round2_canonical _ _ El) as Cc.
  destruct (round_eps (Finite q)) as [r | [] |] eqn:Er;
    destruct A as [_ A], B as [_ B]; simpl in A, B; try contradiction.
  pose proof (round2_canonical _ _ Er) as Cr.
  f_equal. rewrite <- Cr, <- Cc. apply Qred_complete. lra.
Qed.

Ltac squeeze H :=
  match type of H with
  | bounded ?lo ?hi ?v =>
      lazymatch eval vm_compute in (round_eps (Finite lo)) with
      | Finite ?c =>
          rewrite (round_eps_squeeze lo hi c v H);
          [| qle | vm_compute; reflexivity | vm_compute; reflexivity]
      end
  end.

Lemma scenario_payments_of (principal : pyval) :
  to_float principal = Ok (Finite 100000) -> lt_zero principal = false ->
  payments libm_pow scenario_calculator principal =
  Ok (mkPayments (lit 610.39) (lit 304.85) (lit 281.38) (lit 140.61)
        (lit 305.20) (lit 152.60)).
Proof.
  intros EP Z. unfold payments.
  rewrite (to_float_number principal _ EP), Z. cbn [negb].
  destruct (scenario_monthly principal EP) as (a & Ea & Ha).
  destruct (scenario_semi_monthly principal EP) as (b & Eb & Hb).
  destruct (scenario_bi_weekly principal EP) as (c & Ec & Hc).
  destruct (scenario_weekly principal EP) as (d & Ed & Hd).
  rewrite Ea, Eb, Ec, Ed. cbn [bind].
  destruct (fdiv_bounded 610.391482663 610.391482665 2 2
              305.195741331 305.195741333 a (Finite 2) Ha (bounded_Finite 2))
    as (h & Eh & Hh); try qle; try qlt.
  destruct (fdiv_bounded 610.391482663 610.391482665 4 4
              152.597870665 152.597870667 a (Finite 4) Ha (bounded_Finite 4))
    as (k & Ek & Hk); try qle; try qlt.
  rewrite Eh, Ek. cbn [bind].
  squeeze Ha. squeeze Hb. squeeze Hc. squeeze Hd. squeeze Hh. squeeze Hk.
  vm_compute. reflexivity.
Qed.

End ScenarioValues.

(** ** The float model against the hardware *)

(** On the sample pairs, in both orders of the operands, the model's
    four operations return the exact value of the processor's result. *)
Example hardware_add :
  hardware_agrees PrimFloat.add (fun a b => Ok (fadd a b)) /\
  hardware_agrees (fun a b => PrimFloat.add b a) (fun a b => Ok (fadd b a)).
Proof. split; vm_compute; reflexivity. Qed.

Example hardware_sub :
  hardware_agrees PrimFloat.sub (fun a b => Ok (fsub a b)) /\
  hardware_agrees (fun a b => PrimFloat.sub b a) (fun a b => Ok (fsub b a)).
Proof. split; vm_compute; reflexivity. Qed.

Example hardware_mul :
  hardware_agrees PrimFloat.mul (fun a b => Ok (fmul a b)) /\
  hardware_agrees (fun a b => PrimFloat.mul b a) (fun a b => Ok (fmul b a)).
Proof. split; vm_compute; reflexivity. Qed.

Example hardware_div :
  hardware_agrees PrimFloat.div fdiv /\
  hardware_agrees (fun a b => PrimFloat.div b a) (fun a b => fdiv b a).
Proof. split; vm_compute; reflexivity. Qed.

(** ** The claims on the six amounts and on the rounding *)

(** C1. With a faithful platform [pow], the calculator built from 5.5
    percent and 25 years returns, for a principal of 100000 given as a
    float or as an int, the amounts 610.39, 304.85, 281.38, 140.61,
    305.20 and 152.60, in the order monthly, semi-monthly, bi-weekly,
    weekly, rapid bi-weekly, rapid weekly. *)
Theorem scenario_payments (libm_pow : Q -> Q -> res float) :
  libm_pow_faithful libm_pow ->
  MortgagePayment_init (PyFloat (lit 5.5)) (PyInt 25) = Ok scenario_calculator /\
  payments libm_pow scenario_calculator (PyFloat (lit 100000)) =
    Ok scenario_amounts /\
  payments libm_pow scenario_calculator (PyInt 100000) = Ok scenario_amounts.
Proof.
  intros F. split; [vm_compute; reflexivity |].
  split; apply (scenario_payments_of libm_pow F); vm_compute; reflexivity.
Qed.

(** The six amounts with the reference [pow]. *)
Lemma scenario_payments_witness :
  payments libm_pow_ref scenario_calculator (PyFloat (lit 100000)) =
  Ok scenario_amounts.
Proof.
  exact (proj1 (proj2 (scenario_payments libm_pow_ref libm_pow_ref_faithful))).
Defined.

(** A float with an integer value up to [2^53] is its own rounding to
    two decimals. *)
Lemma round2_int (z : Z) :
  (Z.abs z <= 2 ^ 53)%Z -> round2 (Finite (inject_Z z)) = Finite (inject_Z z).
Proof.
  intros H. unfold round2.
  assert (E : inject_Z z * 100 == inject_Z (z * 100)).
  { rewrite inject_Z_mult. reflexivity. }
  rewrite (rne_comp _ _ E), rne_Z.
  assert (E' : inject_Z (z * 100) / 100 == inject_Z z).
  { rewrite inject_Z_mult. change (inject_Z 100) with 100. field. }
  rewrite (rnd_comp _ _ E'), rnd_Finite; rewrite (rnd_q_Z z H); [reflexivity |].
  apply Qle_lt_trans with (2 ^ 53).
  - assert (A : Qabs (inject_Z z) == inject_Z (Z.abs z)).
    { unfold Qabs, inject_Z. reflexivity. }
    rewrite A. change (2 ^ 53) with (inject_Z (2 ^ 53)). rewrite <- Zle_Qle. exact H.
  - apply two_lt. lia.
Qed.

(** C4 (amended). A conversion between equal currencies returns the
    rounding to two decimals of the amount converted to a float, for
    every non-negative number, and neither touches the object nor opens
    the rate source, whatever the file system holds.  For a float, and
    for an int up to [2^53], this is the number that the rounding of the
    amount itself is. *)
Theorem same_currency_rounds (self : ExchangeRates) (w : World) (amount : pyval)
  (x : string) :
  is_number amount = true -> lt_zero amount = false ->
  x = "CAD" \/ x = "USD" ->
  convert amount (Some x) (Some x) (self, w) =
  (a <- to_float amount ;; Ok (round2 a), (self, w)) /\
  ((exists f, amount = PyFloat f) \/
   (exists z, amount = PyInt z /\ (z <= 2 ^ 53)%Z) ->
   exists (y : float) (v : pyval),
     fst (convert amount (Some x) (Some x) (self, w)) = Ok y /\
     builtin_round2 amount = Ok v /\ is_value y v).
Proof.
  intros Hn Hz Hx.
  assert (C : convert amount (Some x) (Some x) (self, w) =
              (a <- to_float amount ;; Ok (round2 a), (self, w))).
  { unfold convert. rewrite Hn, Hz. cbn [negb].
    assert (Hs : supported (normalize (Some x)) = true)
      by (destruct Hx; subst x; reflexivity).
    rewrite Hs, String.eqb_refl. cbn [negb orb]. unfold mbind, lift, ret, bind.
    destruct (to_float amount); reflexivity. }
  split; [exact C |]. rewrite C. cbn [fst].
  intros [(f & ->) | (z & -> & Hle)].
  - exists (round2 f), (PyFloat (round2 f)). repeat split.
  - cbn [lt_zero] in Hz. apply Z.ltb_ge in Hz.
    assert (Ha : (Z.abs z <= 2 ^ 53)%Z) by lia.
    exists (Finite (inject_Z z)), (PyInt z). cbn [to_float].
    rewrite (of_int_small z Ha). cbn [bind]. rewrite (round2_int z Ha).
    repeat split.
Qed.

(** 2.675 CAD in CAD are 2.67, and no source is needed. *)
Lemma same_currency_rounds_witness :
  convert (PyFloat (lit 2.675)) (Some "CAD") (Some "CAD")
    (mkExchangeRates "missing.csv" None, mkWorld no_files []) =
  (Ok (lit 2.67), (mkExchangeRates "missing.csv" None, mkWorld no_files [])).
Proof.
  rewrite (proj1 (same_currency_rounds (mkExchangeRates "missing.csv" None)
                    (mkWorld no_files []) (PyFloat (lit 2.675)) "CAD"
                    eq_refl eq_refl (or_introl eq_refl))).
  vm_compute. reflexivity.
Defined.

(** C4, as stated, fails for an int amount that no double holds: at
    [2^53 + 1] the conversion returns 9007199254740992.0, which is not
    the 9007199254740993 that the rounding of the amount is, and at
    [10^400] it raises [OverflowError], while the rounding of the amount
    is the amount. *)
Lemma same_currency_changes_a_large_int :
  (lt_zero (PyInt (2 ^ 53 + 1)) = false /\
   builtin_round2 (PyInt (2 ^ 53 + 1)) = Ok (PyInt 9007199254740993) /\
   fst (convert (PyInt (2 ^ 53 + 1)) (Some "CAD") (Some "CAD")
          (mkExchangeRates "rates.csv" None, mkWorld no_files [])) =
     Ok (Finite 9007199254740992) /\
   ~ is_value (Finite 9007199254740992) (PyInt 9007199254740993) /\
   ~ 9007199254740992 == inject_Z 9007199254740993) /\
  (lt_zero (PyInt (10 ^ 400)) = false /\
   builtin_round2 (PyInt (10 ^ 400)) = Ok (PyInt (10 ^ 400)) /\
   fst (convert (PyInt (10 ^ 400)) (Some "USD") (Some "USD")
          (mkExchangeRates "rates.csv" None, mkWorld no_files [])) =
     Raise (OverflowError "int too large to convert to float")).
Proof.
  split.
  - split; [reflexivity |]. split; [reflexivity |].
    split; [vm_compute; reflexivity |].
    split; [cbn [is_value]; intros H; discriminate H |].
    intros H. vm_compute in H. discriminate H.
  - split; [reflexivity |]. split; [reflexivity |]. vm_compute. reflexivity.
Qed.




(** C7, as stated, fails at a zero rate, 25 years and a principal of
    100000: the monthly amount returned is 333.33 and the rapid
    bi-weekly amount 166.67, while 333.33 / 2 rounds to 166.66. *)
Lemma rapid_not_from_returned_monthly :
  exists P : Payments,
    payments libm_pow_ref zero_rate_calculator (PyInt 100000) = Ok P /\
    monthly P = lit 333.33 /\ rapid_bi_weekly P = lit 166.67 /\
    (h <- fdiv (monthly P) (Finite 2) ;; Ok (round2 h)) = Ok (lit 166.66) /\
    lit 166.66 <> lit 166.67.
Proof.
  eexists. split; [vm_compute; reflexivity |].
  repeat split; try (vm_compute; reflexivity).
  vm_compute. discriminate.
Qed.

(** At a zero rate the rapid amounts of 100000 over 25 years come from
    the monthly amount before rounding. *)
Lemma rapid_amounts_from_unrounded_monthly_witness :
  exists M h q : float,
    _payment_given_frequency libm_pow_ref zero_rate_calculator (PyInt 100000) 12
      = Ok M /\
    lit 333.33 = round_eps M /\
    fdiv M (Finite 2) = Ok h /\ lit 166.67 = round_eps h /\
    fdiv M (Finite 4) = Ok q /\ lit 83.33 = round_eps q.
Proof.
  exact (rapid_amounts_from_unrounded_monthly libm_pow_ref zero_rate_calculator
           (PyInt 100000)
           (mkPayments (lit 333.33) (lit 166.67) (lit 153.85) (lit 76.92)
              (lit 166.67) (lit 83.33))
           ltac:(vm_compute; reflexivity)).
Defined.

(** C8, as stated, fails at a zero rate and 25 years: the principals
    100000 and 100000.3 get the same six amounts. *)
Lemma payments_not_strictly_monotone :
  exists P : Payments,
    flt (Finite 100000) (lit 100000.3) = true /\
    payments libm_pow_ref zero_rate_calculator (PyFloat (Finite 100000)) = Ok P /\
    payments libm_pow_ref zero_rate_calculator (PyFloat (lit 100000.3)) = Ok P /\
    flt (monthly P) (monthly P) = false.
Proof.
  eexists. split; [vm_compute; reflexivity |].
  split; [vm_compute; reflexivity |].
  split; vm_compute; reflexivity.
Qed.

Lemma valid_zero_rate_calculator : valid_calculator zero_rate_calculator.
Proof.
  split; [exists 0; repeat split; vm_compute; discriminate | simpl; lia].
Qed.

Lemma valid_scenario_calculator : valid_calculator scenario_calculator.
Proof.
  split; [exists (11 # 2); split; [vm_compute; reflexivity |
                              split; vm_compute; discriminate] | simpl; lia].
Qed.

(** The principals 100000 and 250000 in the self-test calculator. *)
Lemma payments_monotone_witness :
  exists P1 P2,
    payments libm_pow_ref scenario_calculator (PyInt 100000) = Ok P1 /\
    payments libm_pow_ref scenario_calculator (PyInt 250000) = Ok P2 /\
    payments_le P1 P2.
Proof.
  exact (payments_monotone libm_pow_ref libm_pow_ref_faithful scenario_calculator
           (PyInt 100000) (PyInt 250000) 100000 250000
           valid_scenario_calculator eq_refl eq_refl
           ltac:(vm_compute; reflexivity) ltac:(vm_compute; reflexivity)
           ltac:(vm_compute; discriminate)).
Defined.

(** A zero principal in the self-test calculator. *)
Lemma zero_principal_pays_zero_witness :
  lt_zero (PyInt 0) = false /\
  payments libm_pow_ref scenario_calculator (PyInt 0) =
  Ok (mkPayments (Finite 0) (Finite 0) (Finite 0) (Finite 0) (Finite 0) (Finite 0)).
Proof.
  exact (zero_principal_pays_zero libm_pow_ref libm_pow_ref_faithful
           scenario_calculator (PyInt 0) valid_scenario_calculator
           (or_introl eq_refl)).
Defined.

(** In the sample source the last cell that parses is 1.37. *)
Lemma latest_rate_is_last_parsed_witness :
  latest_usd_cad (mkExchangeRates "rates.csv" None, scenario_world) =
  (Ok (lit 1.37),
   (mkExchangeRates "rates.csv" (Some (lit 1.37)),
    after_open "rates.csv" scenario_world)).
Proof.
  rewrite (proj1 latest_rate_is_last_parsed (mkExchangeRates "rates.csv" None)
             scenario_world scenario_file eq_refl eq_refl eq_refl eq_refl).
  vm_compute. reflexivity.
Defined.

(** * The constructors, the edge cases and the runner *)

Lemma set_rate_percent_ok (self self' : MortgagePayment) (v : pyval) :
  set_rate_percent self v = Ok self' ->
  rate_in_range (quoted_rate_pct self') /\
  amort_years self' = amort_years self /\
  to_float v = Ok (quoted_rate_pct self') /\
  is_number v = true /\ lt_zero v = false /\ gt_int v 100 = false.
Proof.
  unfold set_rate_percent. destruct v as [z | f |]; cbn [is_number negb].
  - cbn [lt_zero gt_int to_float].
    destruct (z <? 0)%Z eqn:L; [discriminate |].
    destruct (100 <? z)%Z eqn:G; [discriminate |]. cbn [orb].
    apply Z.ltb_ge in L, G. rewrite of_int_small by lia. cbn [bind].
    intros E. injection E as <-. cbn [quoted_rate_pct amort_years].
    repeat split; try reflexivity.
    right. exists (inject_Z z). split; [reflexivity |].
    split; [change 0 with (inject_Z 0) | change 100 with (inject_Z 100)];
      rewrite <- Zle_Qle; lia.
  - cbn [lt_zero gt_int to_float].
    destruct f as [q | s |]; cbn [flt].
    + destruct (Qle_bool 0 q) eqn:L; [| discriminate].
      destruct (Qle_bool q (inject_Z 100)) eqn:G; [| discriminate].
      cbn [negb orb bind]. intros E. injection E as <-.
      cbn [quoted_rate_pct amort_years].
      repeat split; try reflexivity.
      right. exists q. split; [reflexivity |].
      apply Qle_bool_iff in L, G. split; assumption.
    + destruct s; discriminate.
    + cbn [orb bind]. intros E. injection E as <-.
      cbn [quoted_rate_pct amort_years].
      repeat split; try reflexivity. left. reflexivity.
  - discriminate.
Qed.

Lemma set_amort_years_ok (self self' : MortgagePayment) (v : pyval) :
  set_amort_years self v = Ok self' ->
  exists n, v = PyInt n /\ (1 <= n <= 100)%Z /\
            self' = mkMortgagePayment (quoted_rate_pct self) n.
Proof.
  unfold set_amort_years. destruct v as [n | f |]; try discriminate.
  destruct (n <=? 0)%Z eqn:L; [discriminate |].
  destruct (100 <? n)%Z eqn:G; [discriminate |]. cbn [orb].
  apply Z.leb_gt in L. apply Z.ltb_ge in G.
  intros E. injection E as <-. exists n. repeat split; lia.
Qed.

Lemma init_well_formed (r y : pyval) (self : MortgagePayment) :
  MortgagePayment_init r y = Ok self -> well_formed self.
Proof.
  unfold MortgagePayment_init.
  destruct (set_rate_percent _ r) as [s |] eqn:Er; [| discriminate].
  cbn [bind]. intros Ey.
  destruct (set_rate_percent_ok _ _ _ Er) as (R & _).
  destruct (set_amort_years_ok _ _ _ Ey) as (n & _ & Hn & ->).
  split; [exact R | exact Hn].
Qed.

Lemma call_setter_well_formed (self : MortgagePayment) (c : setter_call) :
  well_formed self ->
  well_formed (match call_setter self c with
               | Ok self' => self'
               | Raise _ => self
               end).
Proof.
  intros [R Y]. destruct (call_setter self c) as [s |] eqn:E; [| split; assumption].
  destruct c as [v | v]; cbn [call_setter] in E.
  - destruct (set_rate_percent_ok _ _ _ E) as (R' & Y' & _).
    split; [exact R' | rewrite Y'; exact Y].
  - destruct (set_amort_years_ok _ _ _ E) as (n & _ & Hn & ->).
    split; [exact R | exact Hn].
Qed.

(** X1. The fields of a calculator built by the constructor stay in
    range under any sequence of setter calls, accepted or refused: the
    term is from 1 to 100 years, and the rate is a number from 0 to 100
    or NaN, which the range check of the setter lets through. *)
Theorem fields_stay_in_range (r y : pyval) (self : MortgagePayment)
  (cs : list setter_call) :
  MortgagePayment_init r y = Ok self -> well_formed (after_setters self cs).
Proof.
  intros H. apply init_well_formed in H. revert self H.
  induction cs as [| c cs IH]; intros self H; cbn [after_setters].
  - exact H.
  - apply IH, call_setter_well_formed, H.
Qed.

(** After 5 percent and 25 years: plus infinity refused, 30 years set,
    NaN set, 20.0 years refused. *)
Lemma fields_stay_in_range_witness :
  well_formed
    (after_setters (mkMortgagePayment (Finite 5) 25)
       [SetRate (PyFloat (Inf false)); SetYears (PyInt 30); SetRate (PyFloat NaN);
        SetYears (PyFloat (Finite 20))]).
Proof.
  exact (fields_stay_in_range (PyInt 5) (PyInt 25) (mkMortgagePayment (Finite 5) 25)
           [SetRate (PyFloat (Inf false)); SetYears (PyInt 30); SetRate (PyFloat NaN);
            SetYears (PyFloat (Finite 20))]
           ltac:(vm_compute; reflexivity)).
Defined.

Lemma init_accepts (r y : pyval) (self : MortgagePayment) :
  is_number r = true -> lt_zero r = false -> gt_int r 100 = false ->
  to_float r = Ok (quoted_rate_pct self) ->
  y = PyInt (amort_years self) -> (1 <= amort_years self <= 100)%Z ->
  MortgagePayment_init r y = Ok self.
Proof.
  intros N L G F -> Hn.
  unfold MortgagePayment_init, set_rate_percent.
  rewrite N, L, G, F. cbn [negb orb bind set_amort_years quoted_rate_pct].
  assert (A : (amort_years self <=? 0)%Z = false) by (apply Z.leb_gt; lia).
  assert (B : (100 <? amort_years self)%Z = false) by (apply Z.ltb_ge; lia).
  rewrite A, B. cbn [orb]. destruct self; reflexivity.
Qed.

(** X3. The constructor succeeds exactly when the rate is an int or
    a float that is neither below 0 nor above 100 and the term is an int
    from 1 to 100; the getters then return the rate converted to a float
    and the term as given. *)
Theorem init_succeeds_iff (r y : pyval) (self : MortgagePayment) :
  MortgagePayment_init r y = Ok self <->
  is_number r = true /\ lt_zero r = false /\ gt_int r 100 = false /\
  to_float r = Ok (get_rate_percent self) /\
  y = PyInt (get_amort_years self) /\ (1 <= get_amort_years self <= 100)%Z.
Proof.
  unfold get_rate_percent, get_amort_years. split.
  - unfold MortgagePayment_init.
    destruct (set_rate_percent _ r) as [s |] eqn:Er; [| discriminate].
    cbn [bind]. intros Ey.
    destruct (set_rate_percent_ok _ _ _ Er) as (_ & _ & F & N & L & G).
    destruct (set_amort_years_ok _ _ _ Ey) as (n & -> & Hn & ->).
    cbn [quoted_rate_pct amort_years]. repeat split; try assumption; lia.
  - intros (N & L & G & F & E & Hn). apply init_accepts; assumption.
Qed.

(** An int rate of 5 is kept as the float 5.0. *)
Lemma init_succeeds_iff_witness :
  MortgagePayment_init (PyInt 5) (PyInt 25) = Ok (mkMortgagePayment (Finite 5) 25).
Proof.
  apply (proj2 (init_succeeds_iff (PyInt 5) (PyInt 25) (mkMortgagePayment (Finite 5) 25))).
  repeat split; try (vm_compute; reflexivity); vm_compute; discriminate.
Defined.

(** ** A rate that is not a number *)

Lemma fdiv_total (x : float) (d : Q) : 0 < d -> exists v, fdiv x (Finite d) = Ok v.
Proof.
  intros Hd. unfold fdiv. rewrite is_zero_false by exact Hd.
  destruct x; eexists; reflexivity.
Qed.


Section NanRate.

Variable libm_pow : Q -> Q -> res float.



End NanRate.


Lemma amounts_over_total (d12 d24 d26 d52 : Q) (x : float) :
  0 < d12 -> 0 < d24 -> 0 < d26 -> 0 < d52 ->
  exists P, amounts_over d12 d24 d26 d52 x = Ok P.
Proof.
  intros H1 H2 H3 H4. unfold amounts_over.
  destruct (fdiv_total x d12 H1) as (a & ->).
  destruct (fdiv_total x d24 H2) as (b & ->).
  destruct (fdiv_total x d26 H3) as (c & ->).
  destruct (fdiv_total x d52 H4) as (d & ->). cbn [bind].
  destruct (fdiv_total a 2) as (h & ->); [reflexivity |].
  destruct (fdiv_total a 4) as (k & ->); [reflexivity |]. cbn [bind].
  eexists. reflexivity.
Qed.

Lemma payments_over (libm_pow : Q -> Q -> res float) (self : MortgagePayment)
  (d12 d24 d26 d52 : Q) (principal : pyval) :
  (forall m d, In (m, d) [(12, d12); (24, d24); (26, d26); (52, d52)]%Z ->
     _payment_given_frequency libm_pow self principal m =
     (p <- to_float principal ;; fdiv p (Finite d))) ->
  is_number principal = true -> lt_zero principal = false ->
  payments libm_pow self principal =
  (x <- to_float principal ;; amounts_over d12 d24 d26 d52 x).
Proof.
  intros H N L. unfold payments. rewrite N, L. cbn [negb].
  rewrite (H 12%Z d12), (H 24%Z d24), (H 26%Z d26), (H 52%Z d52)
    by (simpl; auto 6).
  destruct (to_float principal) as [x |]; [| reflexivity]. cbn [bind].
  unfold amounts_over.
  destruct (fdiv x (Finite d12)) as [a |]; [| reflexivity]. cbn [bind].
  destruct (fdiv x (Finite d24)) as [b |]; [| reflexivity]. cbn [bind].
  destruct (fdiv x (Finite d26)) as [c |]; [| reflexivity]. cbn [bind].
  destruct (fdiv x (Finite d52)) as [d |]; reflexivity.
Qed.

Section Factors.

Variable libm_pow : Q -> Q -> res float.
Hypothesis faithful : libm_pow_faithful libm_pow.

Lemma payments_defined (self : MortgagePayment) (principal : pyval) (x : float) :
  valid_calculator self ->
  lt_zero principal = false -> to_float principal = Ok x ->
  exists P, payments libm_pow self principal = Ok P.
Proof.
  intros Hv L Hx.
  destruct (payment_factor libm_pow faithful self 12 Hv) as (d12 & H12 & P12);
    [unfold frequencies; simpl; auto |].
  destruct (payment_factor libm_pow faithful self 24 Hv) as (d24 & H24 & P24);
    [unfold frequencies; simpl; auto |].
  destruct (payment_factor libm_pow faithful self 26 Hv) as (d26 & H26 & P26);
    [unfold frequencies; simpl; auto |].
  destruct (payment_factor libm_pow faithful self 52 Hv) as (d52 & H52 & P52);
    [unfold frequencies; simpl; auto 6 |].
  rewrite (payments_over libm_pow self d12 d24 d26 d52 principal).
  - rewrite Hx. cbn [bind]. apply amounts_over_total; assumption.
  - intros m d [H | [H | [H | [H | []]]]]; injection H as <- <-; auto.
  - apply (to_float_number _ _ Hx).
  - exact L.
Qed.

(** X4. For a valid calculator there are four positive numbers, one
    for each frequency, that the principal is divided by: every principal
    that passes the two checks gets the six amounts these quotients round
    to, and the call fails only when the principal cannot be converted to
    a float. *)
Theorem payments_divide_by_positive_factors (self : MortgagePayment) :
  valid_calculator self ->
  exists d12 d24 d26 d52 : Q,
    0 < d12 /\ 0 < d24 /\ 0 < d26 /\ 0 < d52 /\
    forall principal : pyval,
      is_number principal = true -> lt_zero principal = false ->
      payments libm_pow self principal =
      (x <- to_float principal ;; amounts_over d12 d24 d26 d52 x) /\
      (forall x, to_float principal = Ok x ->
                 exists P, payments libm_pow self principal = Ok P).
Proof.
  intros Hv.
  destruct (payment_factor libm_pow faithful self 12 Hv) as (d12 & H12 & P12);
    [unfold frequencies; simpl; auto |].
  destruct (payment_factor libm_pow faithful self 24 Hv) as (d24 & H24 & P24);
    [unfold frequencies; simpl; auto |].
  destruct (payment_factor libm_pow faithful self 26 Hv) as (d26 & H26 & P26);
    [unfold frequencies; simpl; auto |].
  destruct (payment_factor libm_pow faithful self 52 Hv) as (d52 & H52 & P52);
    [unfold frequencies; simpl; auto 6 |].
  exists d12, d24, d26, d52. repeat (split; [assumption |]).
  intros principal N L.
  assert (E : payments libm_pow self principal =
              (x <- to_float principal ;; amounts_over d12 d24 d26 d52 x)).
  { apply payments_over; try assumption.
    intros m d [H | [H | [H | [H | []]]]]; injection H as <- <-; auto. }
  split; [exact E |].
  intros x Hx. rewrite E, Hx. cbn [bind]. apply amounts_over_total; assumption.
Qed.

End Factors.

(** The calculator of the self-test. *)
Lemma payments_divide_by_positive_factors_witness :
  exists d12 d24 d26 d52 : Q,
    0 < d12 /\ 0 < d24 /\ 0 < d26 /\ 0 < d52 /\
    forall principal : pyval,
      is_number principal = true -> lt_zero principal = false ->
      payments libm_pow_ref scenario_calculator principal =
      (x <- to_float principal ;; amounts_over d12 d24 d26 d52 x) /\
      (forall x, to_float principal = Ok x ->
                 exists P, payments libm_pow_ref scenario_calculator principal = Ok P).
Proof.
  exact (payments_divide_by_positive_factors libm_pow_ref libm_pow_ref_faithful
           scenario_calculator valid_scenario_calculator).
Defined.

(** ** A zero rate *)

Section ZeroRate.

Variable libm_pow : Q -> Q -> res float.

Lemma zero_rate_payment (self : MortgagePayment) (rho : Q) (principal : pyval) (m : Z) :
  quoted_rate_pct self = Finite rho -> rho == 0 ->
  (1 <= amort_years self <= 100)%Z -> In m frequencies ->
  _payment_given_frequency libm_pow self principal m =
  (p <- to_float principal ;; fdiv p (Finite (payment_count self m))).
Proof.
  intros Hr H0 Hy Hm. unfold _payment_given_frequency. rewrite Hr.
  assert (E0 : fdiv (Finite rho) (Finite 100) = Ok (Finite 0)).
  { unfold fdiv. change (is_zero 100) with false. cbv iota.
    assert (E : rho / 100 == 0) by (rewrite H0; reflexivity).
    rewrite (rnd_comp _ _ E). vm_compute. reflexivity. }
  rewrite E0. cbn [bind].
  assert (E1 : _semi_to_effective_annual libm_pow (Finite 0) = Ok (Finite 0))
    by (vm_compute; reflexivity).
  rewrite E1. cbn [bind].
  assert (E2 : _effective_to_periodic libm_pow (Finite 0) m = Ok (Finite 0)).
  { destruct (frequency_cases m Hm) as [-> | [-> | [-> | ->]]];
      vm_compute; reflexivity. }
  rewrite E2. cbn [bind].
  assert (Hm12 : (12 <= m <= 52)%Z)
    by (destruct (frequency_cases m Hm) as [-> | [-> | [-> | ->]]]; lia).
  assert (E3 : _pva libm_pow (Finite 0) (m * amort_years self) =
               Ok (Finite (payment_count self m))).
  { unfold _pva. change (feqb (Finite 0) (Finite 0)) with true. cbv iota.
    apply of_int_small. nia. }
  rewrite E3. reflexivity.
Qed.

(** X5. At a zero rate each base amount is the principal divided by
    the number of payments, 12, 24, 26 or 52 times the years, whatever the
    platform's [pow]: no power reaches it and nothing is divided by
    zero. *)
Theorem zero_rate_divides_by_payment_count (self : MortgagePayment) (rho : Q)
  (principal : pyval) :
  quoted_rate_pct self = Finite rho -> rho == 0 ->
  (1 <= amort_years self <= 100)%Z ->
  is_number principal = true -> lt_zero principal = false ->
  payments libm_pow self principal =
  (x <- to_float principal ;;
   amounts_over (payment_count self 12) (payment_count self 24)
     (payment_count self 26) (payment_count self 52) x).
Proof.
  intros Hr H0 Hy N L. apply payments_over; try assumption.
  intros m d [H | [H | [H | [H | []]]]]; injection H as <- <-;
    apply (zero_rate_payment self rho); try assumption;
    unfold frequencies; simpl; auto 6.
Qed.

End ZeroRate.

(** 100000 over 25 years at a zero rate: 300, 600, 650 and 1300
    payments. *)
Lemma zero_rate_divides_by_payment_count_witness :
  payments libm_pow_ref zero_rate_calculator (PyInt 100000) =
  Ok (mkPayments (lit 333.33) (lit 166.67) (lit 153.85) (lit 76.92)
        (lit 166.67) (lit 83.33)).
Proof.
  rewrite (zero_rate_divides_by_payment_count libm_pow_ref zero_rate_calculator 0
             (PyInt 100000) eq_refl ltac:(reflexivity) ltac:(simpl; lia)
             eq_refl eq_refl).
  vm_compute. reflexivity.
Defined.

(** ** The order of converted amounts *)

Lemma fmul_le0 (x y : float) (r : Q) :
  0 < r -> le0 x y -> le0 (fmul x (Finite r)) (fmul y (Finite r)).
Proof.
  intros Hr [N L]. unfold fmul. rewrite is_zero_false by exact Hr.
  rewrite is_neg_false by lra.
  destruct x as [a | [] |], y as [b | [] |]; simpl in N, L; try contradiction.
  - apply rnd_le0; nra.
  - apply rnd_le0_inf. nra.
  - apply le0_inf.
Qed.

(** X6. With a memoized positive rate, a greater amount never
    converts to a smaller result, in either direction and between equal
    currencies, and no result is negative. *)
Theorem conversion_keeps_the_order (self : ExchangeRates) (w : World) (r : Q)
  (a1 a2 : pyval) (q1 q2 : Q) (from_currency to_currency : option string) :
  cached_usd_cad self = Some (Finite r) -> 0 < r ->
  lt_zero a1 = false -> lt_zero a2 = false ->
  to_float a1 = Ok (Finite q1) -> to_float a2 = Ok (Finite q2) -> q1 <= q2 ->
  supported (normalize from_currency) = true ->
  supported (normalize to_currency) = true ->
  exists v1 v2,
    convert a1 from_currency to_currency (self, w) = (Ok v1, (self, w)) /\
    convert a2 from_currency to_currency (self, w) = (Ok v2, (self, w)) /\
    le0 v1 v2.
Proof.
  intros Hc Hr Z1 Z2 E1 E2 H12 Sf St.
  pose proof (to_float_nonneg a1 q1 Z1 E1) as H0.
  assert (L : le0 (Finite q1) (Finite q2)) by (split; simpl; assumption).
  pose proof (convert_cached (Finite r) self w
                (mkCall a1 from_currency to_currency (files w)) Hc) as C1.
  pose proof (convert_cached (Finite r) self w
                (mkCall a2 from_currency to_currency (files w)) Hc) as C2.
  cbn [c_amount c_from c_to] in C1, C2. rewrite C1, C2.
  unfold converted. cbn [c_amount c_from c_to].
  rewrite (to_float_number a1 _ E1), (to_float_number a2 _ E2), Z1, Z2, Sf, St, E1, E2.
  cbn [negb orb bind].
  destruct (String.eqb (normalize from_currency) (normalize to_currency)).
  - eexists. eexists. split; [reflexivity |]. split; [reflexivity |].
    apply round2_le0, L.
  - destruct (String.eqb (normalize from_currency) "USD").
    + eexists. eexists. split; [reflexivity |]. split; [reflexivity |].
      apply round_eps_le0, fmul_le0; assumption.
    + destruct (fdiv_le0 (Finite q1) (Finite q2) r Hr L) as (x & y & -> & -> & Lxy).
      cbn [bind]. eexists. eexists. split; [reflexivity |]. split; [reflexivity |].
      apply round_eps_le0, Lxy.
Qed.

(** 100 CAD and 250 CAD at a rate of 1.37. *)
Lemma conversion_keeps_the_order_witness :
  exists v1 v2,
    convert (PyInt 100) (Some "cad") (Some "USD")
      (mkExchangeRates "rates.csv" (Some (Finite (137 # 100))), mkWorld no_files []) =
      (Ok v1, (mkExchangeRates "rates.csv" (Some (Finite (137 # 100))),
               mkWorld no_files [])) /\
    convert (PyFloat (Finite 250)) (Some "cad") (Some "USD")
      (mkExchangeRates "rates.csv" (Some (Finite (137 # 100))), mkWorld no_files []) =
      (Ok v2, (mkExchangeRates "rates.csv" (Some (Finite (137 # 100))),
               mkWorld no_files [])) /\
    le0 v1 v2.
Proof.
  exact (conversion_keeps_the_order
           (mkExchangeRates "rates.csv" (Some (Finite (137 # 100))))
           (mkWorld no_files []) (137 # 100) (PyInt 100) (PyFloat (Finite 250))
           100 250 (Some "cad") (Some "USD")
           eq_refl ltac:(reflexivity) eq_refl eq_refl
           ltac:(vm_compute; reflexivity) eq_refl
           ltac:(vm_compute; discriminate) eq_refl eq_refl).
Defined.

(** ** What a conversion can change *)

Lemma latest_usd_cad_frame (self : ExchangeRates) (w : World) :
  (exists r, cached_usd_cad self = Some r /\
             latest_usd_cad (self, w) = (Ok r, (self, w))) \/
  (cached_usd_cad self = None /\
   ((exists e, latest_usd_cad (self, w) =
               (Raise e, (self, after_open (csv_path self) w))) \/
    (exists r, latest_usd_cad (self, w) =
               (Ok r, (mkExchangeRates (csv_path self) (Some r),
                       after_open (csv_path self) w))))).
Proof.
  destruct (cached_usd_cad self) as [r |] eqn:Hc.
  - left. exists r. split; [reflexivity | apply latest_cached, Hc].
  - right. split; [reflexivity |].
    destruct (files w (csv_path self)) as [f |] eqn:Hf.
    + rewrite (latest_uncached self w f Hc Hf).
      destruct (negb (has_column f)); [left; eexists; reflexivity |].
      destruct (last_parsed _); [right | left]; eexists; reflexivity.
    + left. unfold latest_usd_cad, mbind, get_self. cbn [fst snd]. rewrite Hc.
      unfold open_csv. cbn [fst snd]. rewrite Hf. eexists. reflexivity.
Qed.

Lemma convert_state (self : ExchangeRates) (w : World) (amount : pyval)
  (from_currency to_currency : option string) :
  snd (convert amount from_currency to_currency (self, w)) = (self, w) \/
  cached_usd_cad self = None /\
  (snd (convert amount from_currency to_currency (self, w)) =
     (self, after_open (csv_path self) w) \/
   exists r, snd (convert amount from_currency to_currency (self, w)) =
             (mkExchangeRates (csv_path self) (Some r),
              after_open (csv_path self) w)).
Proof.
  remember (convert amount from_currency to_currency (self, w)) as o eqn:Ho.
  unfold convert in Ho.
  destruct (negb (is_number amount)); [subst o; left; reflexivity |].
  destruct (lt_zero amount); [subst o; left; reflexivity |].
  destruct (negb (supported (normalize from_currency))
            || negb (supported (normalize to_currency)));
    [subst o; left; reflexivity |].
  destruct (String.eqb (normalize from_currency) (normalize to_currency)).
  { subst o. left. unfold mbind, lift, ret. destruct (to_float amount); reflexivity. }
  assert (P : forall (rate : float) (s : ExchangeRates * World),
    snd ((out <-- (if String.eqb (normalize from_currency) "USD"
                      && String.eqb (normalize to_currency) "CAD"
                   then a <-- lift (to_float amount) ;;; ret (fmul a rate)
                   else if String.eqb (normalize from_currency) "CAD"
                           && String.eqb (normalize to_currency) "USD"
                   then a <-- lift (to_float amount) ;;; lift (fdiv a rate)
                   else raise (ValueError "Unsupported currency pair")) ;;;
          ret (round_eps out)) s) = s).
  { intros rate s. unfold mbind, lift, ret, raise.
    destruct (_ && _).
    - destruct (to_float amount); reflexivity.
    - destruct (_ && _); [| reflexivity].
      destruct (to_float amount) as [a |]; [| reflexivity].
      destruct (fdiv a rate); reflexivity. }
  unfold mbind at 1 in Ho.
  destruct (latest_usd_cad_frame self w) as [(r & Hc & E) | (Hc & [(e & E) | (r & E)])];
    rewrite E in Ho; subst o.
  - left. apply P.
  - right. split; [exact Hc |]. left. reflexivity.
  - right. split; [exact Hc |]. right. exists r. apply P.
Qed.

(** X9. Whatever its arguments, a conversion never changes the path
    of the object or the files; with a memoized rate it changes nothing;
    without one it opens at most the object's own path, once, and then
    leaves the object as it was or memoizes a rate. *)
Theorem convert_frame (self : ExchangeRates) (w : World) (amount : pyval)
  (from_currency to_currency : option string) :
  let out := convert amount from_currency to_currency (self, w) in
  let self' := fst (snd out) in
  let w' := snd (snd out) in
  csv_path self' = csv_path self /\
  files w' = files w /\
  (cached_usd_cad self <> None -> self' = self /\ w' = w) /\
  (w' = w /\ self' = self \/
   w' = after_open (csv_path self) w /\ cached_usd_cad self = None /\
   (self' = self \/ exists r, self' = mkExchangeRates (csv_path self) (Some r))).
Proof.
  cbv zeta.
  destruct (convert_state self w amount from_currency to_currency)
    as [E | (Hc & [E | (r & E)])]; rewrite E; cbn [fst snd csv_path after_open files].
  - repeat split; auto.
  - split; [reflexivity |]. split; [reflexivity |].
    split; [intros C; congruence |].
    right. repeat split; auto.
  - split; [reflexivity |]. split; [reflexivity |].
    split; [intros C; congruence |].
    right. repeat split; auto. right. exists r. reflexivity.
Qed.

(** ** A source that cannot be opened *)



(** ** A rate of zero *)

Lemma fdiv_by_zero (x : float) (z : Q) :
  z == 0 -> fdiv x (Finite z) = Raise (ZeroDivisionError "float division by zero").
Proof.
  intros H. unfold fdiv, is_zero. rewrite (Qeq_eq_bool _ _ H).
  destruct x; reflexivity.
Qed.

(** X11. A source whose last number is zero makes a conversion from
    CAD to USD fail with [ZeroDivisionError] after the zero has been
    memoized: every later conversion from CAD to USD fails the same way,
    whatever the file holds by then, while USD to CAD returns the rounded
    product. *)
Theorem zero_rate_blocks_cad_to_usd (self : ExchangeRates) (w : World)
  (f : csv_file) (z : Q) (amount : pyval) (x : float) :
  cached_usd_cad self = None ->
  files w (csv_path self) = Some f -> has_column f = true ->
  last_parsed (map cell_of (dict_rows f)) = Some (Finite z) -> z == 0 ->
  lt_zero amount = false -> to_float amount = Ok x ->
  let stuck := mkExchangeRates (csv_path self) (Some (Finite z)) in
  exists msg,
    convert amount (Some "CAD") (Some "USD") (self, w) =
      (Raise (ZeroDivisionError msg), (stuck, after_open (csv_path self) w)) /\
    (forall w2 : World,
       convert amount (Some "CAD") (Some "USD") (stuck, w2) =
       (Raise (ZeroDivisionError msg), (stuck, w2))) /\
    (forall w2 : World,
       convert amount (Some "USD") (Some "CAD") (stuck, w2) =
       (Ok (round_eps (fmul x (Finite z))), (stuck, w2))).
Proof.
  intros Hc Hf Hh Hl Hz L Hx stuck. exists "float division by zero".
  assert (N : is_number amount = true) by (apply (to_float_number _ _ Hx)).
  assert (X : cross_call amount (Some "CAD") (Some "USD"))
    by (repeat split; assumption).
  assert (K : forall c : call,
            c_amount c = amount -> c_from c = Some "CAD" -> c_to c = Some "USD" ->
            converted (Finite z) c =
            Raise (ZeroDivisionError "float division by zero")).
  { intros [a f0 t0 fs]. cbn [c_amount c_from c_to]. intros -> -> ->.
    unfold converted. cbn [c_amount c_from c_to]. rewrite N, L, Hx.
    cbn [negb orb bind].
    change (String.eqb (normalize (Some "CAD")) (normalize (Some "USD"))) with false.
    change (String.eqb (normalize (Some "CAD")) "USD") with false.
    change (supported (normalize (Some "CAD"))) with true.
    change (supported (normalize (Some "USD"))) with true.
    cbn [negb orb]. rewrite (fdiv_by_zero x z Hz). reflexivity. }
  split; [| split].
  - rewrite (convert_cross self w _ _ _ X).
    rewrite (latest_uncached self w f Hc Hf), Hh, Hl. cbn [negb].
    rewrite K by reflexivity. reflexivity.
  - intros w2.
    pose proof (convert_cached (Finite z) stuck w2
                  (mkCall amount (Some "CAD") (Some "USD") (files w2)) eq_refl) as C.
    cbn [c_amount c_from c_to] in C. rewrite C, K by reflexivity. reflexivity.
  - intros w2.
    pose proof (convert_cached (Finite z) stuck w2
                  (mkCall amount (Some "USD") (Some "CAD") (files w2)) eq_refl) as C.
    cbn [c_amount c_from c_to] in C. rewrite C.
    unfold converted. cbn [c_amount c_from c_to].
    rewrite N, L, Hx. cbn [negb orb bind].
    change (String.eqb (normalize (Some "USD")) (normalize (Some "CAD"))) with false.
    change (String.eqb (normalize (Some "USD")) "USD") with true.
    change (supported (normalize (Some "CAD"))) with true.
    change (supported (normalize (Some "USD"))) with true.
    reflexivity.
Qed.

(** A source whose only rate is 0.0. *)
Lemma zero_rate_blocks_cad_to_usd_witness :
  exists msg,
    convert (PyInt 100) (Some "CAD") (Some "USD")
      (mkExchangeRates "rates.csv" None, zero_world) =
    (Raise (ZeroDivisionError msg),
     (mkExchangeRates "rates.csv" (Some (Finite 0)),
      after_open "rates.csv" zero_world)).
Proof.
  destruct (zero_rate_blocks_cad_to_usd (mkExchangeRates "rates.csv" None)
              zero_world zero_file 0 (PyInt 100) (Finite 100)
              eq_refl eq_refl eq_refl ltac:(vm_compute; reflexivity)
              ltac:(reflexivity) eq_refl ltac:(vm_compute; reflexivity))
    as (msg & H & _).
  exists msg. exact H.
Defined.

(** ** White space and case *)

Lemma is_space_upper_char (c : ascii) : is_space (upper_char c) = is_space c.
Proof. destruct c as [[] [] [] [] [] [] [] []]; reflexivity. Qed.

Lemma upper_char_idem (c : ascii) : upper_char (upper_char c) = upper_char c.
Proof. destruct c as [[] [] [] [] [] [] [] []]; reflexivity. Qed.

Lemma lstrip_nil (l : list ascii) : lstrip l = [] <-> forallb is_space l = true.
Proof.
  induction l as [| c l IH]; simpl.
  - split; reflexivity.
  - destruct (is_space c); simpl; [exact IH |]. split; discriminate.
Qed.

Lemma lstrip_head (l : list ascii) (c : ascii) (l' : list ascii) :
  lstrip l = c :: l' -> is_space c = false.
Proof.
  induction l as [| a l IH]; simpl; [discriminate |].
  destruct (is_space a) eqn:E; [exact IH |].
  intros H. injection H as <- _. exact E.
Qed.

Lemma lstrip_map_upper (l : list ascii) :
  lstrip (map upper_char l) = map upper_char (lstrip l).
Proof.
  induction l as [| c l IH]; simpl; [reflexivity |].
  rewrite is_space_upper_char. destruct (is_space c); [exact IH | reflexivity].
Qed.

Lemma rstrip_map_upper (l : list ascii) :
  rstrip (map upper_char l) = map upper_char (rstrip l).
Proof.
  unfold rstrip. rewrite <- map_rev, lstrip_map_upper, map_rev. reflexivity.
Qed.

Lemma lstrip_idem (l : list ascii) : lstrip (lstrip l) = lstrip l.
Proof.
  induction l as [| c l IH]; simpl; [reflexivity |].
  destruct (is_space c) eqn:E; [exact IH |]. simpl. rewrite E. reflexivity.
Qed.

Lemma lstrip_app_visible (l : list ascii) (c : ascii) :
  is_space c = false -> lstrip (l ++ [c]) = (lstrip l ++ [c])%list.
Proof.
  intros Hc. induction l as [| a l IH]; simpl.
  - rewrite Hc. reflexivity.
  - destruct (is_space a); [exact IH | reflexivity].
Qed.

Lemma rstrip_cons_visible (c : ascii) (l : list ascii) :
  is_space c = false -> rstrip (c :: l) = c :: rstrip l.
Proof.
  intros Hc. unfold rstrip. simpl rev.
  rewrite (lstrip_app_visible _ _ Hc), rev_app_distr. reflexivity.
Qed.

Lemma rstrip_idem (l : list ascii) : rstrip (rstrip l) = rstrip l.
Proof.
  unfold rstrip. rewrite rev_involutive, lstrip_idem. reflexivity.
Qed.

(** A stripped text begins with a visible character, or is empty. *)
Lemma lstrip_rstrip_lstrip (l : list ascii) :
  lstrip (rstrip (lstrip l)) = rstrip (lstrip l).
Proof.
  destruct (lstrip l) as [| c m] eqn:E; [reflexivity |].
  pose proof (lstrip_head _ _ _ E) as Hc.
  rewrite (rstrip_cons_visible c m Hc). simpl. rewrite Hc. reflexivity.
Qed.

Lemma strip_idem (s : string) : strip (strip s) = strip s.
Proof.
  unfold strip. rewrite list_ascii_of_string_of_list_ascii.
  rewrite lstrip_rstrip_lstrip, rstrip_idem. reflexivity.
Qed.

Lemma upper_idem (s : string) : upper (upper s) = upper s.
Proof.
  unfold upper. rewrite list_ascii_of_string_of_list_ascii, map_map.
  f_equal. apply map_ext. exact upper_char_idem.
Qed.

Lemma upper_strip (s : string) : upper (strip s) = strip (upper s).
Proof.
  unfold upper, strip. rewrite !list_ascii_of_string_of_list_ascii.
  rewrite lstrip_map_upper, rstrip_map_upper. reflexivity.
Qed.

Lemma normalize_idem (c : option string) :
  normalize (Some (normalize c)) = normalize c.
Proof.
  unfold normalize. rewrite upper_strip, upper_idem, strip_idem. reflexivity.
Qed.

(** X8. A conversion depends on the currency codes only through
    their normal form, upper case without surrounding white space, and
    normalizing twice changes nothing; stripping before upper-casing, as
    the runner does, gives the same code. *)
Theorem currency_codes_are_normalized (c d : option string) (amount : pyval)
  (s : ExchangeRates * World) :
  convert amount c d s = convert amount (Some (normalize c)) (Some (normalize d)) s /\
  normalize (Some (normalize c)) = normalize c /\
  (forall x : string,
     upper (strip x) = strip (upper x) /\ normalize (Some (upper (strip x))) = normalize (Some x)).
Proof.
  split; [| split].
  - unfold convert. rewrite !normalize_idem. reflexivity.
  - apply normalize_idem.
  - intros x. split; [apply upper_strip |].
    rewrite upper_strip. apply (normalize_idem (Some x)).
Qed.

(** ** The path given to the constructor *)

Lemma string_of_list_ascii_nil (l : list ascii) :
  string_of_list_ascii l = EmptyString <-> l = [].
Proof.
  destruct l; simpl; split; try reflexivity; discriminate.
Qed.

Lemma strip_empty (s : string) :
  strip s = EmptyString <-> forallb is_space (list_ascii_of_string s) = true.
Proof.
  unfold strip. rewrite string_of_list_ascii_nil. split.
  - intros H. apply lstrip_nil.
    destruct (lstrip (list_ascii_of_string s)) as [| c m] eqn:E; [reflexivity |].
    rewrite (rstrip_cons_visible c m (lstrip_head _ _ _ E)) in H. discriminate.
  - intros H. apply lstrip_nil in H. rewrite H. reflexivity.
Qed.

Lemma not_visible (s : string) :
  forallb is_space (list_ascii_of_string s) = true <-> ~ visible s.
Proof.
  unfold visible. rewrite forallb_forall. split.
  - intros H (c & Hc & Hs). rewrite (H c Hc) in Hs. discriminate.
  - intros H c Hc. destruct (is_space c) eqn:E; [reflexivity |].
    exfalso. apply H. exists c. split; assumption.
Qed.

(** X7. The constructor of the converter accepts a path of ASCII text
    exactly when it has a character that is not white space; it keeps
    the path as given, white space included, and starts without a
    memoized rate. *)
Theorem constructor_wants_a_visible_path (path : string) :
  isascii path = true ->
  (visible path ->
   ExchangeRates_init path = Ok (mkExchangeRates path None)) /\
  (~ visible path ->
   ExchangeRates_init path = Raise (ValueError "csv_path must be a non-empty string")) /\
  (forall self, ExchangeRates_init path = Ok self ->
     visible path /\ get_csv_path self = path /\ get_cached_usd_cad self = None).
Proof.
  intros _. unfold ExchangeRates_init.
  destruct (String.eqb (strip path) EmptyString) eqn:E.
  - apply String.eqb_eq, strip_empty, not_visible in E.
    split; [intros V; contradiction |]. split; [reflexivity | discriminate].
  - assert (V : visible path).
    { destruct (forallb is_space (list_ascii_of_string path)) eqn:F.
      - apply strip_empty in F. rewrite F in E. discriminate.
      - unfold visible. clear E. induction (list_ascii_of_string path) as [| c l IH];
          simpl in F; [discriminate |].
        destruct (is_space c) eqn:Sc.
        + destruct (IH F) as (x & Hx & Hs). exists x. split; [right; exact Hx | exact Hs].
        + exists c. split; [left; reflexivity | exact Sc]. }
    split; [reflexivity |]. split; [intros C; contradiction |].
    intros self H. injection H as <-. repeat split. exact V.
Qed.

(** A path that starts with a space is kept with it. *)
Lemma constructor_wants_a_visible_path_witness :
  ExchangeRates_init " rates.csv" = Ok (mkExchangeRates " rates.csv" None).
Proof.
  apply (proj1 (constructor_wants_a_visible_path " rates.csv" eq_refl)).
  exists "r"%char. split; [simpl; auto | reflexivity].
Defined.

(** ** The column read by name *)

Lemma dict_get_set (k k' : string) (v : option string) (d : row_dict) :
  dict_get k (dict_set k' v d) =
  if String.eqb k k' then Some v else dict_get k d.
Proof.
  induction d as [| [k0 v0] d IH]; simpl.
  - reflexivity.
  - destruct (String.eqb k' k0) eqn:E0; simpl.
    + apply String.eqb_eq in E0. subst k0.
      destruct (String.eqb k k'); reflexivity.
    + destruct (String.eqb k k0) eqn:E1.
      * apply String.eqb_eq in E1. subst k0.
        rewrite String.eqb_sym in E0. rewrite E0. reflexivity.
      * exact IH.
Qed.

Lemma dict_get_rest (k : string) (ks : list string) (d : row_dict) :
  dict_get k (fold_left (fun d k => dict_set k None d) ks d) =
  if existsb (String.eqb k) ks then Some None else dict_get k d.
Proof.
  revert d. induction ks as [| k' ks IH]; intros d; simpl.
  - reflexivity.
  - rewrite IH, dict_get_set.
    destruct (String.eqb k k'); simpl; [| reflexivity].
    destruct (existsb (String.eqb k) ks); reflexivity.
Qed.

Lemma last_index_none (k : string) (h : list string) (i : nat) :
  last_index k h i = None <-> existsb (String.eqb k) h = false.
Proof.
  revert i. induction h as [| k' h IH]; intros i; simpl.
  - split; reflexivity.
  - destruct (last_index k h (S i)) eqn:E.
    + split; [discriminate |]. intros H. apply orb_false_elim in H.
      destruct H as [_ H]. apply (IH (S i)) in H. congruence.
    + apply IH in E. rewrite E, orb_false_r.
      destruct (String.eqb k k'); split; (reflexivity || discriminate).
Qed.

Lemma last_index_shift (k : string) (h : list string) (i : nat) :
  last_index k h (S i) = option_map S (last_index k h i).
Proof.
  revert i. induction h as [| k' h IH]; intros i; simpl; [reflexivity |].
  rewrite (IH (S i)). destruct (last_index k h (S i)); simpl; [reflexivity |].
  destruct (String.eqb k k'); reflexivity.
Qed.

Lemma dict_get_zip (k : string) (h r : list string) (d : row_dict) :
  dict_get k (zip_dict h r d) =
  match last_index k h 0 with
  | Some i => Some (nth_error r i)
  | None => dict_get k d
  end.
Proof.
  revert r d. induction h as [| k' h IH]; intros r d.
  - destruct r; reflexivity.
  - destruct r as [| v r].
    + change (zip_dict (k' :: h) [] d)
        with (fold_left (fun d k => dict_set k None d) (k' :: h) d).
      rewrite dict_get_rest.
      destruct (last_index k (k' :: h) 0) as [i |] eqn:E.
      * assert (X : existsb (String.eqb k) (k' :: h) = true).
        { destruct (existsb (String.eqb k) (k' :: h)) eqn:X; [reflexivity |].
          apply (last_index_none k (k' :: h) 0) in X. congruence. }
        rewrite X. destruct i; reflexivity.
      * apply last_index_none in E. rewrite E. reflexivity.
    + cbn [zip_dict last_index]. rewrite IH, last_index_shift.
      destruct (last_index k h 0) as [i |]; cbn [option_map]; [reflexivity |].
      rewrite dict_get_set. destruct (String.eqb k k'); reflexivity.
Qed.

Lemma cell_of_zip (h r : list string) :
  cell_of (zip_dict h r []) = strip (rate_field h r).
Proof.
  unfold cell_of, rate_field. rewrite dict_get_zip.
  destruct (last_index "USD/CAD" h 0) as [i |]; [| reflexivity].
  revert i. induction r as [| v r IH]; intros i.
  - destruct i; reflexivity.
  - destruct i; [reflexivity |]. apply IH.
Qed.

(** X12. In a source of ASCII text, the cell read from a record is the
    field under the last [USD/CAD] of the header, stripped; it counts as
    empty when the record is too short, and empty records are skipped.
    The rate looked up is the last of these cells that parses. *)
Theorem rate_is_read_under_the_last_header (self : ExchangeRates) (w : World)
  (h : list string) (rs : list (list string)) :
  cached_usd_cad self = None ->
  files w (csv_path self) = Some (h :: rs) ->
  ascii_source (h :: rs) = true ->
  In "USD/CAD" h ->
  fst (latest_usd_cad (self, w)) =
  match last_parsed (map (fun r => strip (rate_field h r))
                       (filter (fun r => negb (is_blank_record r)) rs)) with
  | Some r => Ok r
  | None => Raise no_number_error
  end.
Proof.
  intros Hc Hf _ Hh.
  rewrite (latest_uncached self w (h :: rs) Hc Hf).
  assert (C : has_column (h :: rs) = true).
  { unfold has_column. cbn [fieldnames]. apply existsb_exists.
    exists "USD/CAD". split; [exact Hh | apply String.eqb_refl]. }
  rewrite C. cbn [negb dict_rows]. rewrite map_map.
  rewrite (map_ext _ (fun r => strip (rate_field h r)))
    by (intros r; apply cell_of_zip).
  destruct (last_parsed _); reflexivity.
Qed.

(** Two [USD/CAD] columns, an empty record and a short one: the rate
    is the 1.40 of the second column. *)
Lemma rate_is_read_under_the_last_header_witness :
  fst (latest_usd_cad
         (mkExchangeRates "rates.csv" None,
          mkWorld (fun _ => Some [["USD/CAD"; "date"; "USD/CAD"];
                                  ["1.30"; "2025-01-02"; "1.40"];
                                  [];
                                  ["1.50"]]) [])) =
  Ok (lit 1.40).
Proof.
  rewrite (rate_is_read_under_the_last_header (mkExchangeRates "rates.csv" None)
             (mkWorld (fun _ => Some [["USD/CAD"; "date"; "USD/CAD"];
                                      ["1.30"; "2025-01-02"; "1.40"];
                                      [];
                                      ["1.50"]]) [])
             ["USD/CAD"; "date"; "USD/CAD"]
             [["1.30"; "2025-01-02"; "1.40"]; []; ["1.50"]]
             eq_refl eq_refl eq_refl ltac:(simpl; auto)).
  vm_compute. reflexivity.
Defined.

(** ** The asking loops *)

Lemma ask_skips {A : Type} (prompt : string) (body : string -> verdict A)
  (bad rest : list string) (scr : list event) :
  Forall (turned_down body) bad ->
  ask prompt body (bad ++ rest) scr =
  ask prompt body rest (scr ++ retries prompt body bad).
Proof.
  intros H. revert scr. induction H as [| line bad (msg & Hl) _ IH]; intros scr.
  - cbn [retries app]. rewrite app_nil_r. reflexivity.
  - cbn [app ask retries]. rewrite Hl, IH, <- app_assoc. reflexivity.
Qed.

Lemma ask_answers {A : Type} (prompt : string) (body : string -> verdict A)
  (bad : list string) (good : string) (rest : list string) (a : A)
  (scr : list event) :
  Forall (turned_down body) bad -> body good = Accept a ->
  ask prompt body (bad ++ good :: rest) scr =
  (Returned a, rest, (scr ++ retries prompt body bad ++ [Prompted prompt])%list).
Proof.
  intros Hb Hg. rewrite (ask_skips prompt body bad _ scr Hb).
  cbn [ask]. rewrite Hg, <- app_assoc. reflexivity.
Qed.

Lemma ask_runs_out {A : Type} (prompt : string) (body : string -> verdict A)
  (bad : list string) (scr : list event) :
  Forall (turned_down body) bad ->
  ask prompt body bad scr =
  (EOFError, [], (scr ++ retries prompt body bad ++ [Prompted prompt])%list).
Proof.
  intros Hb. rewrite <- (app_nil_r bad) at 1.
  rewrite (ask_skips prompt body bad _ scr Hb). cbn [ask].
  rewrite <- app_assoc. reflexivity.
Qed.

(** A value the loop returns is the verdict on one of the lines. *)
Lemma ask_returned {A : Type} (prompt : string) (body : string -> verdict A)
  (lines : list string) (scr : list event) (a : A) (rest : list string)
  (scr' : list event) :
  ask prompt body lines scr = (Returned a, rest, scr') ->
  exists line, In line lines /\ body line = Accept a.
Proof.
  revert scr. induction lines as [| line lines IH]; intros scr; cbn [ask].
  - discriminate.
  - destruct (body line) as [b | msg | e] eqn:E.
    + intros H. injection H as <- _ _. exists line. split; [left; reflexivity | exact E].
    + intros H. destruct (IH _ H) as (l & Hl & Hb).
      exists l. split; [right; exact Hl | exact Hb].
    + discriminate.
Qed.

Lemma amounts_shown_app (a b : list event) :
  amounts_shown (a ++ b) = (amounts_shown a ++ amounts_shown b)%list.
Proof. apply flat_map_app. Qed.

Lemma amounts_retries {A : Type} (prompt : string) (body : string -> verdict A)
  (bad : list string) :
  amounts_shown (retries prompt body bad) = [].
Proof.
  induction bad as [| line bad IH]; cbn [retries]; [reflexivity |].
  destruct (body line); try reflexivity. exact IH.
Qed.

Lemma asking_answers {A : Type} (prompt : string) (body : string -> verdict A)
  (s : Machine) (a : A) (rest : list string) :
  answers body (pending s) a rest ->
  exists scr,
    asking prompt body s = (Returned a, mkMachine rest scr (disk s) (listing s)) /\
    amounts_shown scr = amounts_shown (screen s).
Proof.
  intros (bad & good & E & Hb & Hg). unfold asking. rewrite E.
  rewrite (ask_answers prompt body bad good rest a (screen s) Hb Hg).
  eexists. split; [reflexivity |].
  rewrite !amounts_shown_app, amounts_retries. cbn. rewrite app_nil_r. reflexivity.
Qed.

(** ** [_get_float] *)

Lemma float_of_string_raises (s : string) (e : exn) :
  float_of_string s = Raise e -> e = ValueError "could not convert string to float".
Proof.
  unfold float_of_string.
  destruct (drop_underscores _ _) as [l |]; [| intros H; injection H as <-; reflexivity].
  destruct (sign l) as [neg body].
  destruct (_ || _); [discriminate |].
  destruct (String.eqb _ "nan"); [discriminate |].
  destruct (numeral body); [discriminate |].
  intros H. injection H as <-. reflexivity.
Qed.

(** X13. [_get_float] skips the lines that do not parse, and those
    not above zero when a positive number is wanted, showing the prompt
    and one message for each; it returns the value of the first other
    line and leaves the rest unread, and ends with [EOFError] when no
    line is left. *)
Theorem get_float_takes_the_first_good_line (prompt : string) (positive_only : bool)
  (s : Machine) (bad : list string) :
  Forall (fun line =>
            match float_of_string (strip line) with
            | Ok value => positive_only && fle_bool value (Finite 0) = true
            | Raise _ => True
            end) bad ->
  let shown := (screen s ++ retries prompt (float_answer positive_only) bad
                  ++ [Prompted prompt])%list in
  (forall (good : string) (rest : list string) (value : float),
     pending s = (bad ++ good :: rest)%list ->
     float_of_string (strip good) = Ok value ->
     positive_only && fle_bool value (Finite 0) = false ->
     _get_float prompt positive_only s =
     (Returned value, mkMachine rest shown (disk s) (listing s))) /\
  (pending s = bad ->
   _get_float prompt positive_only s =
   (EOFError, mkMachine [] shown (disk s) (listing s))) /\
  List.length (retries prompt (float_answer positive_only) bad) =
  (2 * List.length bad)%nat.
Proof.
  intros Hbad shown.
  assert (Hb : Forall (turned_down (float_answer positive_only)) bad).
  { eapply Forall_impl; [| exact Hbad]. intros line. unfold turned_down, float_answer.
    destruct (float_of_string (strip line)) as [v | e] eqn:E; intros H.
    - rewrite H. eexists. reflexivity.
    - rewrite (float_of_string_raises _ _ E). eexists. reflexivity. }
  split; [| split].
  - intros good rest value Hp Hg Hv. unfold _get_float, asking. rewrite Hp.
    rewrite (ask_answers prompt _ bad good rest value (screen s) Hb); [reflexivity |].
    unfold float_answer. rewrite Hg, Hv. reflexivity.
  - intros Hp. unfold _get_float, asking. rewrite Hp.
    rewrite (ask_runs_out prompt _ bad (screen s) Hb). reflexivity.
  - clear Hbad shown. induction Hb as [| line bad (msg & Hl) _ IH]; [reflexivity |].
    cbn [retries List.length]. rewrite Hl. cbn [List.length]. rewrite IH. lia.
Qed.

(** A user who types abc, then -5, then 2.5. *)
Lemma get_float_takes_the_first_good_line_witness :
  _get_float "Amount: " true (mkMachine ["abc"; "-5"; " 2.5 "; "7"] [] (mkWorld no_files []) []) =
  (Returned (Finite (5 # 2)),
   mkMachine ["7"]
     [Prompted "Amount: "; Printed [Text "Invalid input. Please enter a numeric value."];
      Prompted "Amount: "; Printed [Text "Invalid input. Please enter a positive number."];
      Prompted "Amount: "]
     (mkWorld no_files []) []).
Proof.
  refine (proj1 (get_float_takes_the_first_good_line "Amount: " true
                   (mkMachine ["abc"; "-5"; " 2.5 "; "7"] [] (mkWorld no_files []) [])
                   ["abc"; "-5"] _)
                " 2.5 " ["7"] (Finite (5 # 2)) eq_refl _ _).
  - repeat constructor.
  - vm_compute. reflexivity.
  - vm_compute. reflexivity.
Defined.

Lemma fle_bool_false (v : float) :
  fle_bool v (Finite 0) = false ->
  v = NaN \/ v = Inf false \/ exists q, v = Finite q /\ 0 < q.
Proof.
  unfold fle_bool. destruct v as [q | [] |]; cbn [flt feqb orb negb]; auto; try discriminate.
  intros H. apply orb_false_elim in H. destruct H as [H E].
  right. right. exists q. split; [reflexivity |].
  apply negb_false_iff, Qle_bool_iff in H.
  destruct (Qlt_le_dec 0 q) as [L | L]; [exact L |].
  assert (Z : q == 0) by lra. apply Qeq_eq_bool in Z. congruence.
Qed.

(** X14. What [_get_float] returns when a positive number is wanted
    is a positive number, plus infinity or NaN: NaN is not below or equal
    to zero, so the line [nan] is accepted. *)
Theorem get_float_positive_lets_nan_through (prompt : string) (s : Machine) :
  (forall (value : float) (s' : Machine),
     _get_float prompt true s = (Returned value, s') ->
     value = NaN \/ value = Inf false \/ exists q, value = Finite q /\ 0 < q) /\
  (forall rest : list string,
     pending s = "nan" :: rest ->
     fst (_get_float prompt true s) = Returned NaN).
Proof.
  split.
  - intros value s'. unfold _get_float, asking.
    destruct (ask prompt (float_answer true) (pending s) (screen s))
      as [[r lines] scr] eqn:E.
    intros H. injection H as -> _.
    destruct (ask_returned _ _ _ _ _ _ _ E) as (line & _ & Hl).
    unfold float_answer in Hl.
    destruct (float_of_string (strip line)) as [v | e]; [| destruct e; discriminate].
    cbn [andb] in Hl. destruct (fle_bool v (Finite 0)) eqn:F; [discriminate |].
    injection Hl as <-. apply fle_bool_false, F.
  - intros rest Hp. unfold _get_float, asking. rewrite Hp. reflexivity.
Qed.

(** A user who types nan. *)
Lemma get_float_positive_lets_nan_through_witness :
  fst (_get_float "Rate: " true (mkMachine ["nan"] [] (mkWorld no_files []) [])) =
  Returned NaN.
Proof.
  exact (proj2 (get_float_positive_lets_nan_through "Rate: "
                  (mkMachine ["nan"] [] (mkWorld no_files []) [])) [] eq_refl).
Defined.

(** ** [_get_int] *)

Section GetInt.

Variable int_max_str_digits : Z.

Lemma int_of_string_raises (s : string) (e : exn) :
  int_of_string int_max_str_digits s = Raise e -> exists msg, e = ValueError msg.
Proof.
  unfold int_of_string.
  destruct (sign _) as [neg body].
  destruct (drop_underscores _ _) as [ds |]; [| intros H; injection H as <-; eexists; reflexivity].
  destruct (digits 0 0 ds) as [[n cnt] [| c l]];
    [| intros H; injection H as <-; eexists; reflexivity].
  destruct (cnt =? 0)%Z; [intros H; injection H as <-; eexists; reflexivity |].
  destruct (_ && _); [intros H; injection H as <-; eexists; reflexivity | discriminate].
Qed.

(** X15. [_get_int] skips the lines that are not a decimal integer,
    and those not above zero when a positive number is wanted, showing
    the prompt and one message for each; it returns the value of the
    first other line and leaves the rest unread, ends with [EOFError]
    when no line is left, and returns at least 1 when a positive number
    is wanted. *)
Theorem get_int_takes_the_first_good_line (prompt : string) (positive_only : bool)
  (s : Machine) (bad : list string) :
  Forall (fun line =>
            match int_of_string int_max_str_digits (strip line) with
            | Ok value => positive_only && (value <=? 0)%Z = true
            | Raise _ => True
            end) bad ->
  let shown := (screen s
                  ++ retries prompt (int_answer int_max_str_digits positive_only) bad
                  ++ [Prompted prompt])%list in
  (forall (good : string) (rest : list string) (value : Z),
     pending s = (bad ++ good :: rest)%list ->
     int_of_string int_max_str_digits (strip good) = Ok value ->
     positive_only && (value <=? 0)%Z = false ->
     _get_int int_max_str_digits prompt positive_only s =
     (Returned value, mkMachine rest shown (disk s) (listing s))) /\
  (pending s = bad ->
   _get_int int_max_str_digits prompt positive_only s =
   (EOFError, mkMachine [] shown (disk s) (listing s))) /\
  (forall (value : Z) (s' : Machine),
     _get_int int_max_str_digits prompt true s = (Returned value, s') ->
     (1 <= value)%Z).
Proof.
  intros Hbad shown.
  assert (Hb : Forall (turned_down (int_answer int_max_str_digits positive_only)) bad).
  { eapply Forall_impl; [| exact Hbad]. intros line. unfold turned_down, int_answer.
    destruct (int_of_string int_max_str_digits (strip line)) as [v | e] eqn:E; intros H.
    - rewrite H. eexists. reflexivity.
    - destruct (int_of_string_raises _ _ E) as (msg & ->). eexists. reflexivity. }
  split; [| split].
  - intros good rest value Hp Hg Hv. unfold _get_int, asking. rewrite Hp.
    rewrite (ask_answers prompt _ bad good rest value (screen s) Hb); [reflexivity |].
    unfold int_answer. rewrite Hg, Hv. reflexivity.
  - intros Hp. unfold _get_int, asking. rewrite Hp.
    rewrite (ask_runs_out prompt _ bad (screen s) Hb). reflexivity.
  - intros value s'. unfold _get_int, asking.
    destruct (ask prompt (int_answer int_max_str_digits true) (pending s) (screen s))
      as [[r lines] scr] eqn:E.
    intros H. injection H as -> _.
    destruct (ask_returned _ _ _ _ _ _ _ E) as (line & _ & Hl).
    unfold int_answer in Hl.
    destruct (int_of_string int_max_str_digits (strip line)) as [v | e];
      [| destruct e; discriminate].
    cbn [andb] in Hl. destruct (v <=? 0)%Z eqn:F; [discriminate |].
    injection Hl as <-. apply Z.leb_gt in F. lia.
Qed.

End GetInt.

(** A user who types 2.5, 0, 1__0 and then +2_5. *)
Lemma get_int_takes_the_first_good_line_witness :
  _get_int 4300 "Years: " true
    (mkMachine ["2.5"; "0"; "1__0"; " +2_5 "; "30"] [] (mkWorld no_files []) []) =
  (Returned 25%Z,
   mkMachine ["30"]
     [Prompted "Years: "; Printed [Text "Invalid input. Please enter a whole number."];
      Prompted "Years: ";
      Printed [Text "Invalid input. Please enter a positive whole number."];
      Prompted "Years: "; Printed [Text "Invalid input. Please enter a whole number."];
      Prompted "Years: "]
     (mkWorld no_files []) []).
Proof.
  refine (proj1 (get_int_takes_the_first_good_line 4300 "Years: " true
                   (mkMachine ["2.5"; "0"; "1__0"; " +2_5 "; "30"] []
                      (mkWorld no_files []) [])
                   ["2.5"; "0"; "1__0"] _)
                " +2_5 " ["30"] 25%Z eq_refl _ _).
  - repeat constructor.
  - vm_compute. reflexivity.
  - vm_compute. reflexivity.
Defined.

(** ** [sorted] and the pattern *)

Lemma leb_refl (x : string) : name_le x x.
Proof. unfold name_le. destruct (String.leb_total x x); assumption. Qed.

Lemma leb_trans (x y z : string) : name_le x y -> name_le y z -> name_le x z.
Proof.
  unfold name_le. intros Hxy Hyz.
  destruct (String.compare x y) eqn:Exy.
  - apply String.compare_eq_iff in Exy. subst. exact Hyz.
  - destruct (String.compare y z) eqn:Eyz.
    + apply String.compare_eq_iff in Eyz. subst. exact Hxy.
    + assert (L : String.compare x z = Lt).
      { apply OrderedTypeEx.String_as_OT.cmp_lt.
        eapply OrderedTypeEx.String_as_OT.lt_trans;
          apply OrderedTypeEx.String_as_OT.cmp_lt; eassumption. }
      unfold String.leb. rewrite L. reflexivity.
    + unfold String.leb in Hyz. rewrite Eyz in Hyz. discriminate.
  - unfold String.leb in Hxy. rewrite Exy in Hxy. discriminate.
Qed.

Lemma insert_sorted_in (x y : string) (l : list string) :
  In y (insert_sorted x l) <-> y = x \/ In y l.
Proof.
  induction l as [| a l IH]; cbn [insert_sorted].
  - simpl. intuition.
  - destruct (String.leb x a); simpl; [intuition |]. rewrite IH. intuition.
Qed.

Lemma sorted_in (y : string) (l : list string) : In y (sorted l) <-> In y l.
Proof.
  induction l as [| a l IH]; cbn [sorted]; [reflexivity |].
  rewrite insert_sorted_in, IH. simpl. intuition.
Qed.

Lemma insert_sorted_strongly (x : string) (l : list string) :
  Sorted.StronglySorted name_le l ->
  Sorted.StronglySorted name_le (insert_sorted x l).
Proof.
  intros H. induction H as [| a l Hs IH Ha]; cbn [insert_sorted].
  - constructor; constructor.
  - destruct (String.leb x a) eqn:E.
    + constructor; [constructor; assumption |].
      constructor; [exact E |].
      rewrite Forall_forall in *. intros z Hz.
      apply (leb_trans x a z); [exact E | apply Ha, Hz].
    + constructor; [exact IH |].
      rewrite Forall_forall in *. intros z Hz.
      apply insert_sorted_in in Hz. destruct Hz as [-> | Hz]; [| apply Ha, Hz].
      destruct (String.leb_total x a) as [C | C]; [congruence | exact C].
Qed.

Lemma sorted_strongly (l : list string) : Sorted.StronglySorted name_le (sorted l).
Proof.
  induction l as [| a l IH]; cbn [sorted]; [constructor |].
  apply insert_sorted_strongly, IH.
Qed.

Lemma last_in (l : list string) (d : string) : l <> [] -> In (last l d) l.
Proof.
  induction l as [| a l IH]; [congruence |]. intros _.
  destruct l as [| b l]; [left; reflexivity |].
  right. apply IH. discriminate.
Qed.

Lemma strongly_sorted_last (l : list string) (d x : string) :
  Sorted.StronglySorted name_le l -> In x l -> name_le x (last l d).
Proof.
  intros H. induction H as [| a l Hs IH Ha]; [intros [] |].
  intros Hx. destruct l as [| b l].
  - destruct Hx as [<- | []]. apply leb_refl.
  - change (last (a :: b :: l) d) with (last (b :: l) d).
    destruct Hx as [<- | Hx]; [| apply IH, Hx].
    rewrite Forall_forall in Ha. apply Ha, last_in. discriminate.
Qed.

Lemma after_prefix_spec (p l r : list ascii) :
  after_prefix p l = Some r <-> l = (p ++ r)%list.
Proof.
  revert l. induction p as [| a p IH]; intros l; cbn [after_prefix app].
  - split; [intros H; injection H as ->; reflexivity | intros ->; reflexivity].
  - destruct l as [| b l]; [split; discriminate |].
    destruct (Ascii.eqb a b) eqn:E.
    + apply Ascii.eqb_eq in E. subst b. rewrite IH.
      split; [intros ->; reflexivity | intros H; injection H as ->; reflexivity].
    + split; [discriminate |]. intros H. injection H as -> _.
      rewrite Ascii.eqb_refl in E. discriminate.
Qed.

Lemma has_suffix_spec (p l : list ascii) :
  has_suffix p l = true <-> exists m, l = (m ++ p)%list.
Proof.
  unfold has_suffix. split.
  - destruct (after_prefix (rev p) (rev l)) as [r |] eqn:E; [| discriminate].
    intros _. apply after_prefix_spec in E. exists (rev r).
    apply (f_equal (@rev ascii)) in E.
    rewrite rev_involutive, rev_app_distr, rev_involutive in E. exact E.
  - intros (m & ->).
    assert (E : after_prefix (rev p) (rev (m ++ p)) = Some (rev m))
      by (apply after_prefix_spec, rev_app_distr).
    rewrite E. reflexivity.
Qed.

Lemma list_ascii_of_string_app (a b : string) :
  list_ascii_of_string (a ++ b) =
  (list_ascii_of_string a ++ list_ascii_of_string b)%list.
Proof. induction a as [| c a IH]; simpl; [reflexivity | rewrite IH; reflexivity]. Qed.

Lemma string_of_list_ascii_app (a b : list ascii) :
  string_of_list_ascii (a ++ b) = string_of_list_ascii a ++ string_of_list_ascii b.
Proof. induction a as [| c a IH]; simpl; [reflexivity | rewrite IH; reflexivity]. Qed.

Lemma rates_pattern_spec (name : string) :
  rates_pattern name = true <->
  exists mid, name = "BankOfCanadaExchangeRates" ++ mid ++ ".csv".
Proof.
  unfold rates_pattern. split.
  - destruct (after_prefix _ (list_ascii_of_string name)) as [rest |] eqn:E;
      [| discriminate].
    intros H. apply after_prefix_spec in E. apply has_suffix_spec in H.
    destruct H as (m & ->). exists (string_of_list_ascii m).
    rewrite <- (string_of_list_ascii_of_string name), E.
    rewrite !string_of_list_ascii_app. reflexivity.
  - intros (mid & ->). rewrite list_ascii_of_string_app.
    assert (E : after_prefix (list_ascii_of_string "BankOfCanadaExchangeRates")
                  (list_ascii_of_string "BankOfCanadaExchangeRates"
                     ++ list_ascii_of_string (mid ++ ".csv"))%list =
                Some (list_ascii_of_string (mid ++ ".csv")))
      by (apply after_prefix_spec; reflexivity).
    rewrite E. apply has_suffix_spec. exists (list_ascii_of_string mid).
    apply list_ascii_of_string_app.
Qed.

Lemma autodetect_found (s : Machine) (best : string) :
  fst (_autodetect_csv s) = Returned (Some best) ->
  _autodetect_csv s = (Returned (Some best), s) /\ rates_pattern best = true.
Proof.
  unfold _autodetect_csv.
  destruct (sorted (filter rates_pattern (listing s))) as [| a l] eqn:E;
    cbn [fst]; [discriminate |].
  intros H. injection H as <-. split; [reflexivity |].
  assert (I : In (last (a :: l) EmptyString)
                (sorted (filter rates_pattern (listing s))))
    by (rewrite E; apply last_in; discriminate).
  apply sorted_in, filter_In in I. apply I.
Qed.

Lemma autodetect_none (s : Machine) :
  (forall name, In name (listing s) -> rates_pattern name = false) ->
  _autodetect_csv s = (Returned None, s).
Proof.
  intros Hn. unfold _autodetect_csv.
  destruct (sorted (filter rates_pattern (listing s))) as [| a l] eqn:E;
    [reflexivity |].
  assert (I : In a (sorted (filter rates_pattern (listing s))))
    by (rewrite E; left; reflexivity).
  apply sorted_in, filter_In in I. destruct I as [I P].
  rewrite (Hn a I) in P. discriminate.
Qed.

(** X16. [_autodetect_csv] leaves the machine as it is; it returns
    nothing exactly when no name of the directory matches, and otherwise
    the matching name that is greatest in the order of code points.  The
    names that match are those that start with BankOfCanadaExchangeRates
    and go on to end with .csv. *)
Theorem autodetect_picks_the_greatest_name (s : Machine) :
  (exists found,
     _autodetect_csv s = (Returned found, s) /\
     match found with
     | None => forall name, In name (listing s) -> rates_pattern name = false
     | Some best =>
         In best (listing s) /\ rates_pattern best = true /\
         forall name, In name (listing s) -> rates_pattern name = true ->
                      name_le name best
     end) /\
  (forall name,
     rates_pattern name = true <->
     exists mid, name = "BankOfCanadaExchangeRates" ++ mid ++ ".csv").
Proof.
  split; [| apply rates_pattern_spec].
  unfold _autodetect_csv.
  destruct (sorted (filter rates_pattern (listing s))) as [| a l] eqn:E.
  - exists None. split; [reflexivity |]. intros name Hn.
    destruct (rates_pattern name) eqn:P; [| reflexivity].
    assert (I : In name (sorted (filter rates_pattern (listing s))))
      by (apply sorted_in, filter_In; split; assumption).
    rewrite E in I. destruct I.
  - exists (Some (last (a :: l) EmptyString)). split; [reflexivity |].
    assert (I : In (last (a :: l) EmptyString)
                  (sorted (filter rates_pattern (listing s))))
      by (rewrite E; apply last_in; discriminate).
    apply sorted_in, filter_In in I. destruct I as [I1 I2].
    split; [exact I1 |]. split; [exact I2 |].
    intros name Hn Hp. apply strongly_sorted_last.
    + rewrite <- E. apply sorted_strongly.
    + rewrite <- E. apply sorted_in, filter_In. split; assumption.
Qed.

(** ** Sequencing *)

Lemma io_bind_returned {A B : Type} (m : IO A) (k : A -> IO B) (s s' : Machine)
  (a : A) :
  m s = (Returned a, s') -> io_bind m k s = k a s'.
Proof. intros E. unfold io_bind. rewrite E. reflexivity. Qed.

Lemma io_bind_raised {A B : Type} (m : IO A) (k : A -> IO B) (s s' : Machine)
  (e : exn) :
  m s = (Raised e, s') -> io_bind m k s = (Raised e, s').
Proof. intros E. unfold io_bind. rewrite E. reflexivity. Qed.

Lemma answers_accepted {A : Type} (body : string -> verdict A) (lines : list string)
  (a : A) (rest : list string) :
  answers body lines a rest -> exists good, body good = Accept a.
Proof. intros (bad & good & _ & _ & H). exists good. exact H. Qed.

Lemma float_answer_accepted (line : string) (v : float) :
  float_answer true line = Accept v -> fle_bool v (Finite 0) = false.
Proof.
  unfold float_answer.
  destruct (float_of_string (strip line)) as [x | e]; [| destruct e; discriminate].
  cbn [andb]. destruct (fle_bool x (Finite 0)) eqn:F; [discriminate |].
  intros H. injection H as <-. exact F.
Qed.

Lemma fle_bool_lt_zero (v : float) :
  fle_bool v (Finite 0) = false -> lt_zero (PyFloat v) = false.
Proof.
  unfold fle_bool. cbn [lt_zero]. intros H. apply orb_false_elim in H. apply H.
Qed.

(** ** [run_mortgage_flow] *)

Lemma init_out_of_range (rate : float) (years : Z) :
  gt_int (PyFloat rate) 100 = true \/ (100 < years)%Z ->
  exists msg,
    MortgagePayment_init (PyFloat rate) (PyInt years) = Raise (ValueError msg).
Proof.
  intros H. unfold MortgagePayment_init, set_rate_percent. cbn [is_number negb].
  destruct (lt_zero (PyFloat rate)); [eexists; reflexivity |].
  destruct (gt_int (PyFloat rate) 100) eqn:G; [eexists; reflexivity |].
  destruct H as [H | H]; [discriminate |].
  cbn [orb to_float bind set_amort_years].
  assert (B : (100 <? years)%Z = true) by (apply Z.ltb_lt; exact H).
  rewrite B, orb_true_r. eexists. reflexivity.
Qed.

Section Flows.

Variable int_max_str_digits : Z.
Variable libm_pow : Q -> Q -> res float.

Lemma int_answer_accepted (line : string) (v : Z) :
  int_answer int_max_str_digits true line = Accept v -> (1 <= v)%Z.
Proof.
  unfold int_answer.
  destruct (int_of_string int_max_str_digits (strip line)) as [x | e];
    [| destruct e; discriminate].
  cbn [andb]. destruct (x <=? 0)%Z eqn:F; [discriminate |].
  intros H. injection H as <-. apply Z.leb_gt in F. lia.
Qed.

(** The three questions of the mortgage flow. *)
Lemma mortgage_questions (s : Machine) (principal rate : float) (years : Z)
  (r1 r2 r3 : list string) :
  answers (float_answer true) (pending s) principal r1 ->
  answers (float_answer true) r1 rate r2 ->
  answers (int_answer int_max_str_digits true) r2 years r3 ->
  exists scr,
    amounts_shown scr = amounts_shown (screen s) /\
    run_mortgage_flow int_max_str_digits libm_pow s =
    (mp <~ io_lift (MortgagePayment_init (PyFloat rate) (PyInt years)) ;;
     P <~ io_lift (payments libm_pow mp (PyFloat principal)) ;;
     _ <~ print [Text (nl ++ "--- Results ---")] ;;
     _ <~ print [Text "Monthly Payment: $"; Money (monthly P)] ;;
     _ <~ print [Text "Semi-monthly Payment: $"; Money (semi_monthly P)] ;;
     _ <~ print [Text "Bi-weekly Payment: $"; Money (bi_weekly P)] ;;
     _ <~ print [Text "Weekly Payment: $"; Money (weekly P)] ;;
     _ <~ print [Text "Rapid Bi-weekly Payment: $"; Money (rapid_bi_weekly P)] ;;
     print [Text "Rapid Weekly Payment: $"; Money (rapid_weekly P)])
      (mkMachine r3 scr (disk s) (listing s)).
Proof.
  intros H1 H2 H3. unfold run_mortgage_flow, _get_float, _get_int.
  rewrite (io_bind_returned (print _) _ s _ tt eq_refl).
  destruct (asking_answers "Enter principal amount (e.g., 500000): "
              (float_answer true)
              (mkMachine (pending s) (screen s ++ [mortgage_banner]) (disk s)
                 (listing s)) principal r1 H1) as (scr1 & E1 & A1).
  cbn [pending screen disk listing] in E1, A1.
  rewrite (io_bind_returned _ _ _ _ _ E1).
  destruct (asking_answers
              "Enter quoted annual rate % (semi-annual compounding, e.g., 5.5): "
              (float_answer true) (mkMachine r1 scr1 (disk s) (listing s)) rate r2 H2)
    as (scr2 & E2 & A2).
  cbn [pending screen disk listing] in E2, A2.
  rewrite (io_bind_returned _ _ _ _ _ E2).
  destruct (asking_answers "Enter amortization in years (e.g., 25): "
              (int_answer int_max_str_digits true)
              (mkMachine r2 scr2 (disk s) (listing s)) years r3 H3)
    as (scr3 & E3 & A3).
  cbn [pending screen disk listing] in E3, A3.
  rewrite (io_bind_returned _ _ _ _ _ E3).
  exists scr3. split; [| reflexivity].
  rewrite A3, A2, A1, amounts_shown_app. cbn. rewrite app_nil_r. reflexivity.
Qed.

(** X17. When the rate typed is above 100, or the term above 100
    years, [run_mortgage_flow] ends with the [ValueError] of the
    constructor: it does not ask again and prints no amount. *)
Theorem mortgage_flow_stops_on_a_rate_or_term_over_100 (s : Machine)
  (principal rate : float) (years : Z) (r1 r2 r3 : list string) :
  answers (float_answer true) (pending s) principal r1 ->
  answers (float_answer true) r1 rate r2 ->
  answers (int_answer int_max_str_digits true) r2 years r3 ->
  gt_int (PyFloat rate) 100 = true \/ (100 < years)%Z ->
  exists msg scr,
    run_mortgage_flow int_max_str_digits libm_pow s =
    (Raised (ValueError msg), mkMachine r3 scr (disk s) (listing s)) /\
    amounts_shown scr = amounts_shown (screen s).
Proof.
  intros H1 H2 H3 H.
  destruct (mortgage_questions s principal rate years r1 r2 r3 H1 H2 H3)
    as (scr & A & E).
  destruct (init_out_of_range rate years H) as (msg & I).
  exists msg, scr. split; [| exact A].
  rewrite E, I. reflexivity.
Qed.

Hypothesis faithful : libm_pow_faithful libm_pow.

(** X18. With a rate up to 100 and a term up to 100 years, and a
    faithful [pow], [run_mortgage_flow] returns after printing the line
    above the results and the six amounts of [payments], in its order. *)
Theorem mortgage_flow_prints_the_six_amounts (s : Machine)
  (principal : float) (rho : Q) (years : Z) (r1 r2 r3 : list string) :
  answers (float_answer true) (pending s) principal r1 ->
  answers (float_answer true) r1 (Finite rho) r2 ->
  answers (int_answer int_max_str_digits true) r2 years r3 ->
  rho <= 100 -> (years <= 100)%Z ->
  exists P scr,
    payments libm_pow (mkMortgagePayment (Finite rho) years) (PyFloat principal) =
      Ok P /\
    amounts_shown scr = amounts_shown (screen s) /\
    run_mortgage_flow int_max_str_digits libm_pow s =
    (Returned tt,
     mkMachine r3 (scr ++ results_banner :: result_lines P) (disk s) (listing s)).
Proof.
  intros H1 H2 H3 Hr Hy.
  destruct (mortgage_questions s principal (Finite rho) years r1 r2 r3 H1 H2 H3)
    as (scr & A & E).
  destruct (answers_accepted _ _ _ _ H1) as (g1 & G1).
  destruct (answers_accepted _ _ _ _ H2) as (g2 & G2).
  destruct (answers_accepted _ _ _ _ H3) as (g3 & G3).
  apply float_answer_accepted in G1, G2. apply int_answer_accepted in G3.
  destruct (fle_bool_false _ G2) as [C | [C | (q & C & Hq)]]; try discriminate.
  injection C as <-.
  assert (V : valid_calculator (mkMortgagePayment (Finite rho) years)).
  { split; [exists rho; repeat split; [lra | exact Hr] | simpl; lia]. }
  assert (I : MortgagePayment_init (PyFloat (Finite rho)) (PyInt years) =
              Ok (mkMortgagePayment (Finite rho) years)).
  { apply init_accepts;
      cbn [quoted_rate_pct amort_years is_number lt_zero gt_int to_float flt];
      try reflexivity; try lia.
    - apply negb_false_iff, Qle_bool_iff. lra.
    - apply negb_false_iff, Qle_bool_iff. exact Hr. }
  destruct (payments_defined libm_pow faithful _ (PyFloat principal) principal V
              (fle_bool_lt_zero _ G1) eq_refl) as (P & EP).
  exists P, scr. split; [exact EP |]. split; [exact A |].
  rewrite E, I. cbn [io_lift io_bind]. rewrite EP.
  cbv beta iota zeta delta [io_bind print io_lift pending screen disk listing
                             result_lines results_banner].
  rewrite <- !app_assoc. reflexivity.
Qed.

End Flows.

(** Of the downloads numbered 10 and 6, the one numbered 6 is
    chosen: the order is that of the characters, not of the numbers. *)
Lemma autodetect_picks_the_greatest_name_witness :
  fst (_autodetect_csv (mkMachine [] [] (mkWorld no_files []) two_downloads)) =
    Returned (Some "BankOfCanadaExchangeRates (6).csv") /\
  (rates_pattern "BankOfCanadaExchangeRates.csv" = true <->
   exists mid, "BankOfCanadaExchangeRates.csv" =
               "BankOfCanadaExchangeRates" ++ mid ++ ".csv").
Proof.
  split; [vm_compute; reflexivity |].
  exact (proj2 (autodetect_picks_the_greatest_name
                  (mkMachine [] [] (mkWorld no_files []) two_downloads))
           "BankOfCanadaExchangeRates.csv").
Defined.

Lemma answers_first {A : Type} (body : string -> verdict A) (good : string)
  (rest : list string) (a : A) :
  body good = Accept a -> answers body (good :: rest) a rest.
Proof. intros H. exists [], good. repeat split; [constructor | exact H]. Qed.

(** A rate of 150. *)
Lemma mortgage_flow_stops_on_a_rate_or_term_over_100_witness :
  exists msg scr,
    run_mortgage_flow 4300 libm_pow_ref (mortgage_machine "150") =
    (Raised (ValueError msg), mkMachine [] scr (mkWorld no_files []) []) /\
    amounts_shown scr = [].
Proof.
  refine (mortgage_flow_stops_on_a_rate_or_term_over_100 4300 libm_pow_ref
            (mortgage_machine "150") (Finite 100000) (Finite 150) 25
            ["150"; "25"] ["25"] [] _ _ _ _).
  - apply answers_first. vm_compute. reflexivity.
  - apply answers_first. vm_compute. reflexivity.
  - apply answers_first. vm_compute. reflexivity.
  - left. vm_compute. reflexivity.
Defined.

(** The self-test scenario, typed in. *)
Lemma mortgage_flow_prints_the_six_amounts_witness :
  exists P scr,
    payments libm_pow_ref (mkMortgagePayment (Finite (11 # 2)) 25)
      (PyFloat (Finite 100000)) = Ok P /\
    amounts_shown scr = [] /\
    run_mortgage_flow 4300 libm_pow_ref (mortgage_machine "5.5") =
    (Returned tt,
     mkMachine [] (scr ++ results_banner :: result_lines P) (mkWorld no_files []) []).
Proof.
  refine (mortgage_flow_prints_the_six_amounts 4300 libm_pow_ref libm_pow_ref_faithful
            (mortgage_machine "5.5") (Finite 100000) (11 # 2) 25
            ["5.5"; "25"] ["25"] [] _ _ _ _ _).
  - apply answers_first. vm_compute. reflexivity.
  - apply answers_first. vm_compute. reflexivity.
  - apply answers_first. vm_compute. reflexivity.
  - vm_compute. discriminate.
  - lia.
Defined.

(** ** [run_fx_flow] *)

Lemma convert_cross_opens (self : ExchangeRates) (w : World) (amount : pyval)
  (from_currency to_currency : option string) :
  cached_usd_cad self = None ->
  cross_call amount from_currency to_currency ->
  opened (snd (snd (convert amount from_currency to_currency (self, w)))) =
  (opened w ++ [csv_path self])%list.
Proof.
  intros Hc Hx. rewrite (convert_cross self w _ _ _ Hx).
  unfold latest_usd_cad, mbind, get_self. cbn [fst snd]. rewrite Hc.
  unfold open_csv. cbn [fst snd].
  destruct (files w (csv_path self)) as [f |]; [| reflexivity].
  destruct (negb _); [reflexivity |].
  destruct (fold_left scan_row (dict_rows f) None); reflexivity.
Qed.

Lemma supported_cases (c : string) : supported c = true -> c = "CAD" \/ c = "USD".
Proof.
  unfold supported. intros H. apply orb_true_iff in H.
  destruct H as [H | H]; apply String.eqb_eq in H; auto.
Qed.

Lemma from_answer_accepted (line c : string) :
  from_answer line = Accept c -> supported c = true.
Proof.
  unfold from_answer. destruct (supported (upper (strip line))) eqn:S; [| discriminate].
  cbn [negb]. intros H. injection H as <-. exact S.
Qed.

Lemma to_answer_accepted (from_ccy line c : string) :
  to_answer from_ccy line = Accept c ->
  supported c = true /\ String.eqb c from_ccy = false.
Proof.
  unfold to_answer. destruct (supported (upper (strip line))) eqn:S; [| discriminate].
  cbn [negb]. destruct (String.eqb (upper (strip line)) from_ccy) eqn:E; [discriminate |].
  intros H. injection H as <-. split; assumption.
Qed.

Lemma pattern_visible (name : string) : rates_pattern name = true -> visible name.
Proof.
  intros H. apply rates_pattern_spec in H. destruct H as (mid & ->).
  exists "B"%char. split; [left; reflexivity | reflexivity].
Qed.

Lemma init_visible (path : string) :
  visible path -> ExchangeRates_init path = Ok (mkExchangeRates path None).
Proof.
  intros V. unfold ExchangeRates_init.
  destruct (String.eqb (strip path) EmptyString) eqn:E; [| reflexivity].
  apply String.eqb_eq, strip_empty, not_visible in E. contradiction.
Qed.

Lemma init_blank (path : string) :
  ~ visible path ->
  ExchangeRates_init (strip path) =
  Raise (ValueError "csv_path must be a non-empty string").
Proof.
  intros V. apply not_visible, strip_empty in V.
  unfold ExchangeRates_init. rewrite strip_idem, V. reflexivity.
Qed.

Lemma fx_questions (s : Machine) (best : string) (amount : float) (f t : string)
  (r1 r2 r3 : list string) :
  fst (_autodetect_csv s) = Returned (Some best) ->
  answers (float_answer true) (pending s) amount r1 ->
  answers from_answer r1 f r2 ->
  answers (to_answer f) r2 t r3 ->
  exists scr,
    amounts_shown scr = amounts_shown (screen s) /\
    run_fx_flow s =
    (converted <~ converting (mkExchangeRates best None) (PyFloat amount)
                    (Some f) (Some t) ;;
     _ <~ print [Text (nl ++ "--- Results ---")] ;;
     print [Money amount; Text (" " ++ f ++ " = "); Money converted;
            Text (" " ++ t)])
      (mkMachine r3 scr (disk s) (listing s)).
Proof.
  intros Hd H1 H2 H3.
  unfold run_fx_flow, _get_float.
  rewrite (io_bind_returned (print _) _ s _ tt eq_refl).
  set (s0 := mkMachine (pending s) (screen s ++ [fx_banner]) (disk s) (listing s)).
  destruct (autodetect_found s0 best Hd) as (Ed0 & Hp).
  rewrite (io_bind_returned _ _ _ _ _ Ed0).
  rewrite (io_bind_returned (_ <~ print _ ;; io_ret best) _ s0
             (mkMachine (pending s) (screen s ++ [fx_banner]
                           ++ [Printed [Text ("Using data file: " ++ best)]])
                (disk s) (listing s)) best)
    by (unfold io_bind, print, io_ret; cbn [pending screen disk listing s0];
        rewrite <- app_assoc; reflexivity).
  rewrite (io_bind_returned (io_lift (ExchangeRates_init best)) _ _ _
             (mkExchangeRates best None))
    by (unfold io_lift; rewrite (init_visible best (pattern_visible best Hp));
        reflexivity).
  destruct (asking_answers "Enter amount (e.g., 100000): " (float_answer true)
              (mkMachine (pending s)
                 (screen s ++ [fx_banner]
                    ++ [Printed [Text ("Using data file: " ++ best)]])
                 (disk s) (listing s)) amount r1 H1) as (scr1 & E1 & A1).
  cbn [pending screen disk listing] in E1, A1.
  rewrite (io_bind_returned _ _ _ _ _ E1).
  destruct (asking_answers "From currency (CAD or USD): " from_answer
              (mkMachine r1 scr1 (disk s) (listing s)) f r2 H2) as (scr2 & E2 & A2).
  cbn [pending screen disk listing] in E2, A2.
  rewrite (io_bind_returned _ _ _ _ _ E2).
  destruct (asking_answers "To currency (CAD or USD): " (to_answer f)
              (mkMachine r2 scr2 (disk s) (listing s)) t r3 H3) as (scr3 & E3 & A3).
  cbn [pending screen disk listing] in E3, A3.
  rewrite (io_bind_returned _ _ _ _ _ E3).
  exists scr3. split; [| reflexivity].
  rewrite A3, A2, A1, !amounts_shown_app. cbn. rewrite app_nil_r. reflexivity.
Qed.

(** X19. With a rate file in the directory, [run_fx_flow] asks for
    no path; its one conversion is between two different supported
    currencies, so the file found is opened exactly once; the flow then
    prints the amount and what it converts to, or ends with the error of
    the conversion. *)
Theorem fx_flow_converts_once (s : Machine) (best : string) (amount : float)
  (f t : string) (r1 r2 r3 : list string) :
  fst (_autodetect_csv s) = Returned (Some best) ->
  answers (float_answer true) (pending s) amount r1 ->
  answers from_answer r1 f r2 ->
  answers (to_answer f) r2 t r3 ->
  let out := convert (PyFloat amount) (Some f) (Some t)
               (mkExchangeRates best None, disk s) in
  cross_call (PyFloat amount) (Some f) (Some t) /\
  opened (snd (snd out)) = (opened (disk s) ++ [best])%list /\
  exists scr,
    amounts_shown scr = amounts_shown (screen s) /\
    run_fx_flow s =
    match fst out with
    | Ok v =>
        (Returned tt,
         mkMachine r3 (scr ++ [results_banner; conversion_line amount f t v])
           (snd (snd out)) (listing s))
    | Raise e => (Raised e, mkMachine r3 scr (snd (snd out)) (listing s))
    end.
Proof.
  intros Hd H1 H2 H3 out.
  destruct (fx_questions s best amount f t r1 r2 r3 Hd H1 H2 H3) as (scr & A & E).
  destruct (answers_accepted _ _ _ _ H1) as (g1 & G1).
  destruct (answers_accepted _ _ _ _ H2) as (g2 & G2).
  destruct (answers_accepted _ _ _ _ H3) as (g3 & G3).
  apply float_answer_accepted, fle_bool_lt_zero in G1.
  apply from_answer_accepted in G2. apply to_answer_accepted in G3.
  destruct G3 as [G3 G4].
  assert (X : cross_call (PyFloat amount) (Some f) (Some t)).
  { destruct (supported_cases f G2) as [-> | ->];
      destruct (supported_cases t G3) as [-> | ->];
      try discriminate; repeat split; try assumption; reflexivity. }
  split; [exact X |].
  split; [apply (convert_cross_opens (mkExchangeRates best None)); [reflexivity | exact X] |].
  exists scr. split; [exact A |]. rewrite E.
  unfold io_bind at 1. unfold converting. cbn [pending screen disk listing].
  fold out. destruct out as [[v | e] [xr w]]; cbn [fst snd]; [| reflexivity].
  cbv beta iota zeta delta [io_bind print pending screen disk listing
                             results_banner conversion_line].
  rewrite <- !app_assoc. reflexivity.
Qed.

(** A user who asks for 100 USD in USD, is asked again, and takes
    CAD. *)
Lemma fx_flow_converts_once_witness :
  exists scr,
    amounts_shown scr = [] /\
    run_fx_flow fx_machine =
    (Returned tt,
     mkMachine []
       (scr ++ [results_banner; conversion_line (Finite 100) "USD" "CAD" (Finite 137)])
       (mkWorld (files (disk fx_machine)) ["BankOfCanadaExchangeRates (6).csv"])
       two_downloads).
Proof.
  destruct (fx_flow_converts_once fx_machine "BankOfCanadaExchangeRates (6).csv"
              (Finite 100) "USD" "CAD" ["usd"; "usd"; "cad"] ["usd"; "cad"] [])
    as (_ & _ & scr & A & E).
  - vm_compute. reflexivity.
  - apply answers_first. vm_compute. reflexivity.
  - apply answers_first. vm_compute. reflexivity.
  - exists ["usd"], "cad". split; [reflexivity |]. split.
    + constructor; [| constructor]. eexists. vm_compute. reflexivity.
    + vm_compute. reflexivity.
  - exists scr. split; [exact A |]. rewrite E. vm_compute. reflexivity.
Defined.

(** X20. With no rate file in the directory, a path typed that is
    empty or white space ends [run_fx_flow] with the [ValueError] of the
    constructor, before any other question. *)
Theorem fx_flow_stops_on_a_blank_path (s : Machine) (line : string)
  (rest : list string) :
  (forall name, In name (listing s) -> rates_pattern name = false) ->
  pending s = line :: rest -> ~ visible line ->
  run_fx_flow s =
  (Raised (ValueError "csv_path must be a non-empty string"),
   mkMachine rest
     (screen s ++ [fx_banner; Prompted "Enter path to BankOfCanadaExchangeRates.csv: "])
     (disk s) (listing s)).
Proof.
  intros Hn Hp Hv. unfold run_fx_flow.
  rewrite (io_bind_returned (print _) _ s _ tt eq_refl).
  set (s0 := mkMachine (pending s) (screen s ++ [fx_banner]) (disk s) (listing s)).
  assert (Ed0 : _autodetect_csv s0 = (Returned None, s0))
    by (apply autodetect_none; exact Hn).
  rewrite (io_bind_returned _ _ _ _ _ Ed0).
  rewrite (io_bind_returned
             (l <~ input "Enter path to BankOfCanadaExchangeRates.csv: " ;;
              io_ret (strip l)) _ s0
             (mkMachine rest
                (screen s ++ [fx_banner;
                              Prompted "Enter path to BankOfCanadaExchangeRates.csv: "])
                (disk s) (listing s)) (strip line))
    by (unfold io_bind, input, io_ret; cbn [pending screen disk listing s0];
        rewrite Hp, <- app_assoc; reflexivity).
  apply io_bind_raised. unfold io_lift. rewrite (init_blank line Hv). reflexivity.
Qed.

(** A path of three spaces. *)
Lemma fx_flow_stops_on_a_blank_path_witness :
  run_fx_flow (mkMachine ["   "; "100"] [] (mkWorld no_files []) ["notes.txt"]) =
  (Raised (ValueError "csv_path must be a non-empty string"),
   mkMachine ["100"]
     [fx_banner; Prompted "Enter path to BankOfCanadaExchangeRates.csv: "]
     (mkWorld no_files []) ["notes.txt"]).
Proof.
  apply (fx_flow_stops_on_a_blank_path
           (mkMachine ["   "; "100"] [] (mkWorld no_files []) ["notes.txt"])
           "   " ["100"]).
  - intros name [<- | []]. reflexivity.
  - reflexivity.
  - intros (c & Hc & Hs). simpl in Hc.
    destruct Hc as [<- | [<- | [<- | []]]]; discriminate.
Defined.

Section Signs.

Variable libm_pow : Q -> Q -> res float.
Hypothesis faithful : libm_pow_faithful libm_pow.

(** X21. For a valid calculator and a finite principal that passes
    the checks, none of the six amounts is negative or NaN. *)
Theorem payments_are_never_negative (self : MortgagePayment) (principal : pyval)
  (q : Q) :
  valid_calculator self ->
  lt_zero principal = false -> to_float principal = Ok (Finite q) ->
  exists P, payments libm_pow self principal = Ok P /\ amounts_nonneg P.
Proof.
  intros Hv Hz Hq.
  pose proof (to_float_nonneg principal q Hz Hq) as H0.
  unfold payments. rewrite (to_float_number principal _ Hq), Hz. cbn [negb].
  destruct (payment_le0 libm_pow faithful self 12 principal principal q q Hv)
    as (a & a' & A & A' & LA); try assumption; try lra;
    [unfold frequencies; simpl; auto |].
  destruct (payment_le0 libm_pow faithful self 24 principal principal q q Hv)
    as (b & b' & B & B' & LB); try assumption; try lra;
    [unfold frequencies; simpl; auto |].
  destruct (payment_le0 libm_pow faithful self 26 principal principal q q Hv)
    as (c & c' & C & C' & LC); try assumption; try lra;
    [unfold frequencies; simpl; auto |].
  destruct (payment_le0 libm_pow faithful self 52 principal principal q q Hv)
    as (d & d' & D & D' & LD); try assumption; try lra;
    [unfold frequencies; simpl; auto 6 |].
  rewrite A in A'. injection A' as <-. rewrite B in B'. injection B' as <-.
  rewrite C in C'. injection C' as <-. rewrite D in D'. injection D' as <-.
  rewrite A, B, C, D. cbn [bind].
  destruct (fdiv_le0 a a 2) as (h & h' & H & H' & LH); [reflexivity | exact LA |].
  destruct (fdiv_le0 a a 4) as (k & k' & K & K' & LK); [reflexivity | exact LA |].
  rewrite H in H'. injection H' as <-. rewrite K in K'. injection K' as <-.
  rewrite H, K. cbn [bind]. eexists. split; [reflexivity |].
  unfold amounts_nonneg.
  cbn [monthly semi_monthly bi_weekly weekly rapid_bi_weekly rapid_weekly].
  split; [exact (le0_nonneg_r _ _ (round_eps_le0 _ _ LA)) |].
  split; [exact (le0_nonneg_r _ _ (round_eps_le0 _ _ LB)) |].
  split; [exact (le0_nonneg_r _ _ (round_eps_le0 _ _ LC)) |].
  split; [exact (le0_nonneg_r _ _ (round_eps_le0 _ _ LD)) |].
  split; [exact (le0_nonneg_r _ _ (round_eps_le0 _ _ LH)) |].
  exact (le0_nonneg_r _ _ (round_eps_le0 _ _ LK)).
Qed.

End Signs.

(** The calculator of the self-test and a principal of 100000. *)
Lemma payments_are_never_negative_witness :
  exists P, payments libm_pow_ref scenario_calculator (PyInt 100000) = Ok P /\
            amounts_nonneg P.
Proof.
  exact (payments_are_never_negative libm_pow_ref libm_pow_ref_faithful
           scenario_calculator (PyInt 100000) 100000 valid_scenario_calculator
           eq_refl ltac:(vm_compute; reflexivity)).
Defined.

(** X22. On a fresh converter, a first conversion between the two
    currencies that finds a rate memoizes it, and every later conversion
    is computed from it, whatever the files hold by then: over the whole
    sequence the source is opened once. *)
Theorem first_lookup_serves_every_later_call (self : ExchangeRates)
  (log : list string) (f : csv_file) (r : float) (c : call) (cs : list call) :
  cached_usd_cad self = None ->
  c_files c (csv_path self) = Some f -> has_column f = true ->
  last_parsed (map cell_of (dict_rows f)) = Some r ->
  cross_call (c_amount c) (c_from c) (c_to c) ->
  run (c :: cs) self log =
  (converted r c :: map (converted r) cs,
   mkExchangeRates (csv_path self) (Some r),
   (log ++ [csv_path self])%list).
Proof.
  intros Hc Hf Hh Hl Hx. cbn [run].
  rewrite (convert_cross self _ _ _ _ Hx).
  rewrite (latest_uncached self (mkWorld (c_files c) log) f Hc Hf), Hh, Hl.
  cbn [negb after_open opened files].
  rewrite (run_cached r cs (mkExchangeRates (csv_path self) (Some r)) _ eq_refl).
  reflexivity.
Qed.

(** The two conversions of the self-test of the module, the file
    gone before the second. *)
Lemma first_lookup_serves_every_later_call_witness :
  run [mkCall (PyInt 100000) (Some "USD") (Some "CAD") (files scenario_world);
       mkCall (PyInt 100000) (Some "CAD") (Some "USD") no_files]
      (mkExchangeRates "rates.csv" None) [] =
  ([Ok (Finite 137000); Ok (lit 72992.7)],
   mkExchangeRates "rates.csv" (Some (lit 1.37)), ["rates.csv"]).
Proof.
  rewrite (first_lookup_serves_every_later_call (mkExchangeRates "rates.csv" None) []
             scenario_file (lit 1.37)
             (mkCall (PyInt 100000) (Some "USD") (Some "CAD") (files scenario_world))
             [mkCall (PyInt 100000) (Some "CAD") (Some "USD") no_files]
             eq_refl eq_refl eq_refl ltac:(vm_compute; reflexivity)
             ltac:(repeat split; reflexivity)).
  vm_compute. reflexivity.
Defined.

(** ** The accuracy of the two rate conversions *)

(** The absolute error of a rounding below [2^(e+53)]. *)
Lemma rnd_abs (q : Q) (e : Z) :
  0 <= q -> q < 2 ^ (e + 53) -> (emin <= e)%Z ->
  2 ^ (e + 53) + 2 ^ e / 2 <= 2 ^ 1024 ->
  rnd q = Finite (rnd_q q) /\ 0 <= rnd_q q /\
  rnd_q q - q <= 2 ^ e / 2 /\ q - rnd_q q <= 2 ^ e / 2.
Proof.
  intros H0 H He Hb.
  pose proof (rnd_q_nonneg q H0) as N.
  assert (P : 0 < 2 ^ e / 2).
  { pose proof (two_pos e). apply Qlt_shift_div_l; [reflexivity | lra]. }
  assert (B : rnd_q q - q <= 2 ^ e / 2 /\ q - rnd_q q <= 2 ^ e / 2).
  { destruct (Qeq_dec q 0) as [Z | NZ].
    - pose proof (rnd_q_zero q Z). lra.
    - assert (Hq : 0 < q) by (destruct (Qlt_le_dec 0 q); [assumption | exfalso; apply NZ; lra]).
      destruct (rnd_q_near q e Hq H He). lra. }
  split; [| split; [exact N | exact B]].
  apply rnd_Finite. rewrite Qabs_pos by exact N. lra.
Qed.

Section Formulas.

Variable libm_pow : Q -> Q -> res float.
Hypothesis faithful : libm_pow_faithful libm_pow.

(** X23. For a nominal rate [j] from 0 to 1, and a faithful [pow],
    [_semi_to_effective_annual] returns a number within [2^-48] of
    [(1 + j/2)^2 - 1]. *)
Theorem effective_annual_rate_is_accurate (j : Q) :
  0 <= j -> j <= 1 ->
  exists ear,
    _semi_to_effective_annual libm_pow (Finite j) = Ok (Finite ear) /\
    Qabs (ear - ((1 + j / 2) ^ 2 - 1)) <= 2 ^ (-48).
Proof.
  intros H0 H1. unfold _semi_to_effective_annual.
  assert (Eh : fdiv (Finite j) (Finite 2) = Ok (rnd (j / 2))) by reflexivity.
  rewrite Eh. cbn [bind].
  assert (Ej : j / 2 == j * (1 # 2)) by field.
  destruct (rnd_abs (j / 2) (-53)) as (Rh & Nh & Uh & Lh);
    [rewrite Ej; lra | rewrite Ej; change (2 ^ (-53 + 53)) with 1; lra
     | unfold emin; lia | vm_compute; discriminate |].
  rewrite Rh. set (h := rnd_q (j / 2)) in *.
  change (2 ^ (-53) / 2) with (1 # 18014398509481984) in Uh, Lh.
  rewrite Ej in Uh, Lh.
  unfold fadd at 1.
  destruct (rnd_abs (1 + h) (-52)) as (Rb & Nb & Ub & Lb);
    [lra | change (2 ^ (-52 + 53)) with 2; lra
     | unfold emin; lia | vm_compute; discriminate |].
  rewrite Rb. set (b := rnd_q (1 + h)) in *.
  change (2 ^ (-52) / 2) with (1 # 9007199254740992) in Ub, Lb.
  assert (B1 : 1 <= b).
  { unfold b. rewrite <- rnd_q_one at 1. apply rnd_q_mono; lra. }
  unfold pow_int. rewrite (of_int_small 2) by (vm_compute; discriminate).
  cbn [bind]. change (inject_Z 2) with 2.
  assert (Bu : b <= 1501 # 1000) by lra.
  assert (BB : b * b <= (1501 # 1000) * (1501 # 1000)) by nra.
  assert (Hs : exists s, float_pow libm_pow (Finite b) (Finite 2) = Ok (Finite s) /\
                         1 <= s /\ s <= 3 /\
                         s - b * b <= (1 # 1125899906842624) * (b * b) /\
                         b * b - s <= (1 # 1125899906842624) * (b * b)).
  { destruct (Qeq_dec b 1) as [E1 | N1].
    - rewrite float_pow_one by (try exact E1; discriminate).
      exists 1. split; [reflexivity |].
      assert (E2 : b * b == 1) by (rewrite E1; reflexivity).
      rewrite E2. repeat split; lra.
    - rewrite float_pow_libm by (try discriminate; lra).
      destruct (pow_square _ faithful b) as (p & Ep & _ & P1 & P2);
        [lra | lra |].
      rewrite Ep. exists p. split; [reflexivity |].
      apply Qabs_Qle_condition in P2. destruct P2 as [P2 P3].
      assert (Eb2 : b ^ 2 == b * b) by reflexivity.
      assert (Ee : pow_eps == 1 # 1125899906842624) by reflexivity.
      rewrite Eb2, Ee in P2, P3. repeat split; lra. }
  destruct Hs as (s & Es & S1 & S3 & Us & Ls). rewrite Es. cbn [bind].
  unfold fsub, fneg, fadd.
  assert (Em1 : s + Qred (- (1)) == s - 1) by (change (Qred (- (1))) with (- (1)); ring).
  rewrite (rnd_comp _ _ Em1).
  destruct (rnd_abs (s - 1) (-52)) as (Re & Ne & Ue & Le);
    [lra | change (2 ^ (-52 + 53)) with 2; lra
     | unfold emin; lia | vm_compute; discriminate |].
  rewrite Re. exists (rnd_q (s - 1)). split; [reflexivity |].
  set (ear := rnd_q (s - 1)) in *.
  change (2 ^ (-52) / 2) with (1 # 9007199254740992) in Ue, Le.
  assert (Esq : (1 + j / 2) ^ 2 == (1 + j * (1 # 2)) * (1 + j * (1 # 2)))
    by (rewrite Ej; reflexivity).
  rewrite Esq. change (2 ^ (-48)) with (1 # 281474976710656).
  set (B := 1 + j * (1 # 2)) in *.
  assert (D1 : b - B <= 3 # 18014398509481984) by (unfold B; lra).
  assert (D2 : B - b <= 3 # 18014398509481984) by (unfold B; lra).
  assert (B2 : 1 <= B /\ B <= 3 # 2) by (unfold B; lra).
  assert (Q1 : b * b - B * B <= (3 # 18014398509481984) * (4 # 1)) by nra.
  assert (Q2 : B * B - b * b <= (3 # 18014398509481984) * (4 # 1)) by nra.
  apply Qabs_Qle_condition. split; lra.
Qed.

(** X24. For an effective annual rate [e] from 0 to 2 and each of
    the four frequencies, with a faithful [pow], [_effective_to_periodic]
    returns a rate [r] that is not negative and compounds back to [e]:
    [(1 + r)^m] is [1 + e] up to a relative error of [2^-50] in each of
    the [m] factors and of [2^-52] on [1 + e]. *)
Theorem periodic_rate_compounds_back (e : Q) (m : Z) :
  0 <= e -> e <= 2 -> In m frequencies ->
  exists r,
    _effective_to_periodic libm_pow (Finite e) m = Ok (Finite r) /\ 0 <= r /\
    ((1 - pow_eps) * (1 + r)) ^ m <= (1 + 2 ^ (-52)) * (1 + e) /\
    (1 - 2 ^ (-52)) * (1 + e) <= ((1 + pow_eps) * (1 + r)) ^ m.
Proof.
  intros H0 H2 Hm. unfold _effective_to_periodic.
  assert (Hm12 : (12 <= m <= 52)%Z)
    by (destruct (frequency_cases m Hm) as [-> | [-> | [-> | ->]]]; lia).
  rewrite (of_int_small m) by lia. cbn [bind].
  destruct (recip_exponent m Hm) as [Ey Ny]. rewrite Ey. cbn [bind].
  unfold fadd at 1.
  assert (T53 : 2 ^ (-53) == 1 # 9007199254740992) by reflexivity.
  assert (T52 : 2 ^ (-52) == 1 # 4503599627370496) by reflexivity.
  assert (Ee : pow_eps == 1 # 1125899906842624) by reflexivity.
  destruct (rnd_normal (1 + e)) as (Rx & Dx & Lx & Ux);
    [apply Qle_trans with 1; [vm_compute; discriminate | lra]
    | apply Qle_trans with 3; [lra | vm_compute; discriminate] |].
  rewrite Rx. set (x := rnd_q (1 + e)) in *.
  assert (X1 : 1 <= x).
  { unfold x. rewrite <- rnd_q_one at 1. apply rnd_q_mono; lra. }
  assert (X3 : x <= 3).
  { unfold x. assert (E3 : rnd_q 3 = 3) by (vm_compute; reflexivity).
    apply Qle_trans with (rnd_q 3); [apply rnd_q_mono; lra | rewrite E3; lra]. }
  rewrite T53 in Lx, Ux.
  destruct (Qeq_dec x 1) as [E1 | N1].
  - rewrite float_pow_one by assumption. cbn [bind].
    exists 0. split; [vm_compute; reflexivity |]. split; [lra |].
    rewrite E1 in Lx, Ux. split.
    + apply Qle_trans with (1 ^ m).
      * apply Qpower_base_mono; [rewrite Ee; lra | rewrite Ee; lra | lia].
      * rewrite Qpower_1, T52. nra.
    + apply Qle_trans with (1 ^ m).
      * rewrite Qpower_1, T52. nra.
      * apply Qpower_base_mono; [lra | rewrite Ee; lra | lia].
  - rewrite float_pow_libm by (try assumption; lra).
    destruct (pow_root _ faithful m x Hm) as (p & Ep & Dp & P1 & P2 & P3);
      [lra | lra |].
    rewrite Ep. cbn [bind].
    assert (P4 : p <= 11 # 10) by (apply (root_upper m p x); try lra; lia).
    unfold fsub, fneg, fadd.
    assert (Em1 : p + Qred (- (1)) == p - 1)
      by (change (Qred (- (1))) with (- (1)); ring).
    rewrite (rnd_comp _ _ Em1).
    assert (Dr : dbl (p - 1)).
    { assert (Hl : ilog2 p = 0%Z).
      { apply ilog2_unique; rewrite Qabs_pos by lra.
        - change (2 ^ 0) with 1. lra.
        - change (2 ^ (0 + 1)) with 2. lra. }
      assert (Hc : cexp p = (-52)%Z) by (unfold cexp; rewrite Hl; reflexivity).
      pose proof Dp as D. unfold dbl in D. rewrite rnd_q_eq, Hc in D.
      set (K := rne (p / 2 ^ (-52))) in *.
      assert (EK : inject_Z K == p * 2 ^ 52).
      { rewrite <- D. change (2 ^ (-52)) with (/ 2 ^ 52). field. }
      assert (K1 : (2 ^ 52 <= K)%Z).
      { rewrite Zle_Qle, EK. change (inject_Z (2 ^ 52)) with (1 * 2 ^ 52).
        apply Qmult_le_compat_r; [exact P1 | discriminate]. }
      assert (K2 : (K <= 2 ^ 53)%Z).
      { rewrite Zle_Qle, EK. change (inject_Z (2 ^ 53)) with (2 * 2 ^ 52).
        apply Qmult_le_compat_r; [lra | discriminate]. }
      assert (E : p - 1 == inject_Z (K - 2 ^ 52) * 2 ^ (-52)).
      { unfold Zminus. rewrite inject_Z_plus, inject_Z_opp, EK.
        change (inject_Z (2 ^ 52)) with (2 ^ 52).
        change (2 ^ (-52)) with (/ 2 ^ 52). field. }
      unfold dbl. rewrite (rnd_q_comp _ _ E), E.
      apply dbl_scaled; [lia | unfold emin; lia]. }
    unfold dbl in Dr.
    assert (Rr : rnd (p - 1) = Finite (rnd_q (p - 1))).
    { apply rnd_Finite. rewrite Dr, Qabs_pos by lra.
      apply Qle_lt_trans with 1; [lra | reflexivity]. }
    rewrite Rr. exists (rnd_q (p - 1)). split; [reflexivity |].
    split; [rewrite Dr; lra |].
    assert (E1r : 1 + rnd_q (p - 1) == p) by (rewrite Dr; ring).
    rewrite E1r, T52. split.
    + apply Qle_trans with x; [exact P2 | nra].
    + apply Qle_trans with x; [nra | exact P3].
Qed.

End Formulas.

(** A nominal rate of 5.5 percent. *)
Lemma effective_annual_rate_is_accurate_witness :
  exists ear,
    _semi_to_effective_annual libm_pow_ref (Finite (55 # 1000)) = Ok (Finite ear) /\
    Qabs (ear - ((1 + (55 # 1000) / 2) ^ 2 - 1)) <= 2 ^ (-48).
Proof.
  apply (effective_annual_rate_is_accurate libm_pow_ref libm_pow_ref_faithful
           (55 # 1000)); vm_compute; discriminate.
Defined.

(** An effective annual rate of 5.575625 percent, monthly. *)
Lemma periodic_rate_compounds_back_witness :
  exists r,
    _effective_to_periodic libm_pow_ref (Finite (5575625 # 100000000)) 12 =
      Ok (Finite r) /\ 0 <= r /\
    ((1 - pow_eps) * (1 + r)) ^ 12 <=
      (1 + 2 ^ (-52)) * (1 + (5575625 # 100000000)) /\
    (1 - 2 ^ (-52)) * (1 + (5575625 # 100000000)) <=
      ((1 + pow_eps) * (1 + r)) ^ 12.
Proof.
  apply (periodic_rate_compounds_back libm_pow_ref libm_pow_ref_faithful
           (5575625 # 100000000) 12);
    [vm_compute; discriminate | vm_compute; discriminate | simpl; auto].
Defined.
